(** * Smartish: a host-driven multiplayer trivia game

    A shallow embedding of the game logic of the Smartish React/Firebase
    application: the scoring service, the [useScoring] hook, the CSV question
    parser, the room-code generator and the handlers of the home, lobby,
    player, host and results screens, the transition system they form over
    the database, and the properties of the session engine that the
    specification states about them.

    Conventions of the embedding.
    - A JavaScript number that is always an integer (timestamps in
      milliseconds, scores, indices) is a [Z]; the response time handed to
      [calculateScore] is a rational [Q], and its arithmetic is exact. The
      floating-point arithmetic of the application agrees with it except
      where the exact value of [1000 - rt / 60] lies half-way between two
      whole numbers: there the rounded product may fall on either side.
    - A field that is [null], [undefined] or a value is an [option].
    - A JavaScript string is a [string]; its characters are code units
      below 256.
    - The Firestore database is a pair of finite maps: the game documents by
      game code, and for each game code the player documents by user id.
    - [Date.now()] and [Math.random()] are explicit arguments.
    - A handler takes the [players] array and the [lobbyState] of the
      render it was created on. The press of an answer button and the
      saving of generated questions take the database of that render beside
      the database they write to; the other handlers are pressed on a
      screen that shows the database as it is.
    - [handleNextQuestion] awaits its first write, and the effect of
      [useScoring] runs on the render that write causes, before the
      handler resets the answers and hides them. The other handlers run to
      completion before the next step starts. *)

From Stdlib Require Import ZArith QArith Qround Qminmax Lia Lqa Ascii String.
From stdpp Require Import gmap strings list fin_maps.
From stdpp Require Import sorting.

Local Open Scope Z_scope.

(** ** JavaScript values *)

(** [Math.round x]: the integer nearest to [x], halves rounded up. *)
Definition Math_round (x : Q) : Z := Qfloor (x + (1 # 2)).

(** Truthiness of a string-or-null and of a number-or-null value. *)
Definition truthy_string (v : option string) : bool :=
  match v with
  | Some s => negb (bool_decide (s = EmptyString))
  | None => false
  end.

Definition truthy_number (v : option Z) : bool :=
  match v with
  | Some n => negb (n =? 0)
  | None => false
  end.

(** [ToNumber] of a number-or-null value: [null] converts to [0]. *)
Definition to_number (v : option Z) : Z := default 0 v.

(** ** Strings *)

(** The white space [String.prototype.trim] removes, among the code units
    below 256: tab, line feed, vertical tab, form feed, carriage return,
    space and no-break space. *)
Definition isWhiteSpace (c : ascii) : bool :=
  bool_decide (N_of_ascii c ∈ [9; 10; 11; 12; 13; 32; 160]%N).

Fixpoint trimStart (s : string) : string :=
  match s with
  | String c s' => if isWhiteSpace c then trimStart s' else s
  | EmptyString => EmptyString
  end.

Fixpoint trimEnd (s : string) : string :=
  match s with
  | EmptyString => EmptyString
  | String c s' =>
      match trimEnd s' with
      | EmptyString =>
          if isWhiteSpace c then EmptyString else String c EmptyString
      | t => String c t
      end
  end.

(** [s.trim()] *)
Definition trim (s : string) : string := trimEnd (trimStart s).

(** [s.split(sep)] for a separator of one character. *)
Fixpoint split (sep : ascii) (s : string) : list string :=
  match s with
  | EmptyString => [EmptyString]
  | String c s' =>
      if Ascii.eqb c sep then EmptyString :: split sep s'
      else
        match split sep s' with
        | x :: xs => String c x :: xs
        | [] => [String c EmptyString]
        end
  end.

Definition quoteChar : ascii := "034"%char.
Definition commaChar : ascii := ","%char.
Definition newlineChar : ascii := "010"%char.

Fixpoint stripTrailingQuote (s : string) : string :=
  match s with
  | EmptyString => EmptyString
  | String c EmptyString =>
      if Ascii.eqb c quoteChar then EmptyString else s
  | String c s' => String c (stripTrailingQuote s')
  end.

(** [s.replace(/^"|"$/g, '')]: one quote is removed at the start and one at
    the end, where present. *)
Definition stripQuotes (s : string) : string :=
  match s with
  | String c s' =>
      if Ascii.eqb c quoteChar then stripTrailingQuote s'
      else stripTrailingQuote s
  | EmptyString => EmptyString
  end.

(** [Boolean(s)] for a string. *)
Definition nonEmpty (s : string) : bool :=
  negb (bool_decide (s = EmptyString)).

(** [s.substring(start, stop)] for [start <= stop]. *)
Definition substring (start stop : nat) (s : string) : string :=
  String.substring start (stop - start) s.

(** The upper case of one code unit below 256: the letters [a-z] and the
    accented letters from 224 to 254, the division sign 247 apart, move down
    by 32. The code units 181, 223 and 255, whose upper case does not fit
    below 256, are left as they are. *)
Definition toUpperCaseChar (c : ascii) : ascii :=
  let n := nat_of_ascii c in
  if ((97 <=? n)%nat && (n <=? 122)%nat)
     || ((224 <=? n)%nat && (n <=? 254)%nat && negb (n =? 247)%nat)
  then ascii_of_nat (n - 32)
  else c.

(** [s.toUpperCase()] *)
Fixpoint toUpperCase (s : string) : string :=
  match s with
  | EmptyString => EmptyString
  | String c s' => String (toUpperCaseChar c) (toUpperCase s')
  end.

(** ** Random numbers *)

(** A value of [Math.random()]: a number that is at least 0 and below 1. *)
Record Random := mkRandom {
  randomValue : Q;
  randomValue_range :
    Qle_bool 0 randomValue && negb (Qle_bool 1 randomValue) = true
}.

(** [Math.floor(r * n)] for a random value [r] and a count [n]. *)
Definition randomBelow (r : Random) (n : nat) : nat :=
  Z.to_nat (Qfloor (randomValue r * inject_Z (Z.of_nat n))).

(** A random source that always returns 0, and one that always returns
    one half. *)
Definition randomZero : Random := mkRandom 0 eq_refl.
Definition randomHalf : Random := mkRandom (1 # 2) eq_refl.

(** ** Data model *)

(** The [status] field of a game document. *)
Inductive Status := LOBBY | UPLOAD | PLAYING | RESULTS.

#[global] Instance Status_eq_dec : EqDecision Status.
Proof. solve_decision. Defined.

(** A question identifier: the line index for a parsed CSV question, and
    [`llm-${idx}`] for a generated one. *)
Inductive QuestionId :=
  | CsvId (index : nat)
  | LlmId (idx : nat).

#[global] Instance QuestionId_eq_dec : EqDecision QuestionId.
Proof. solve_decision. Defined.

Record Question := mkQuestion {
  qid : QuestionId;
  question : string;
  correctAnswer : string;
  options : list string
}.

Record GameDoc := mkGameDoc {
  gameCode : string;
  hostUserId : string;
  status : Status;
  questions : list Question;
  currentQuestionIndex : Z;
  currentQuestionStartTime : option Z
}.

Record PlayerDoc := mkPlayerDoc {
  name : string;
  score : Z;
  isHost : bool;
  lastAnswer : option string;
  answerTimestamp : option Z;
  timestamp : Z
}.

(** Documents and databases can be compared. *)
#[global] Instance Question_eq_dec : EqDecision Question.
Proof. solve_decision. Defined.

#[global] Instance GameDoc_eq_dec : EqDecision GameDoc.
Proof. solve_decision. Defined.

#[global] Instance PlayerDoc_eq_dec : EqDecision PlayerDoc.
Proof. solve_decision. Defined.

(** Partial updates of a document, as [updateDoc] merges them. *)
Definition set_score (s : Z) (p : PlayerDoc) : PlayerDoc :=
  mkPlayerDoc (name p) s (isHost p) (lastAnswer p) (answerTimestamp p)
    (timestamp p).

Definition set_answer (a : option string) (t : option Z) (p : PlayerDoc)
  : PlayerDoc :=
  mkPlayerDoc (name p) (score p) (isHost p) a t (timestamp p).

Definition reset_for_start (p : PlayerDoc) : PlayerDoc :=
  mkPlayerDoc (name p) 0 (isHost p) None None (timestamp p).

Definition set_question (i : Z) (t : Z) (g : GameDoc) : GameDoc :=
  mkGameDoc (gameCode g) (hostUserId g) (status g) (questions g) i (Some t).

Definition set_status (s : Status) (g : GameDoc) : GameDoc :=
  mkGameDoc (gameCode g) (hostUserId g) s (questions g)
    (currentQuestionIndex g) (currentQuestionStartTime g).

Definition start_playing (t : Z) (g : GameDoc) : GameDoc :=
  mkGameDoc (gameCode g) (hostUserId g) PLAYING (questions g) 0 (Some t).

Definition set_questions (qs : list Question) (g : GameDoc) : GameDoc :=
  mkGameDoc (gameCode g) (hostUserId g) UPLOAD qs
    (currentQuestionIndex g) (currentQuestionStartTime g).

(** ** The Firestore database *)

Record Firestore := mkFirestore {
  gameDocs : gmap string GameDoc;
  playerDocs : gmap string (gmap string PlayerDoc)
}.

#[global] Instance Firestore_eq_dec : EqDecision Firestore.
Proof. solve_decision. Defined.

(** The players collection below a game code. *)
Definition playersOf (db : Firestore) (code : string) : gmap string PlayerDoc :=
  default ∅ (playerDocs db !! code).

(** [setDoc]: create or overwrite a document. *)
Definition setGameDoc (code : string) (g : GameDoc) (db : Firestore)
  : Firestore :=
  mkFirestore (<[code := g]> (gameDocs db)) (playerDocs db).

Definition setPlayerDoc (code uid : string) (p : PlayerDoc) (db : Firestore)
  : Firestore :=
  mkFirestore (gameDocs db)
    (<[code := <[uid := p]> (playersOf db code)]> (playerDocs db)).

(** [updateDoc]: merge fields into an existing document; the promise is
    rejected ([None]) when the document does not exist. *)
Definition updateGameDoc (code : string) (f : GameDoc → GameDoc)
    (db : Firestore) : option Firestore :=
  match gameDocs db !! code with
  | Some g => Some (setGameDoc code (f g) db)
  | None => None
  end.

Definition updatePlayerDoc (code uid : string) (f : PlayerDoc → PlayerDoc)
    (db : Firestore) : option Firestore :=
  match playersOf db code !! uid with
  | Some p => Some (setPlayerDoc code uid (f p) db)
  | None => None
  end.

(** [getDocs] on the players collection followed by the same [updateDoc] on
    every document it returned. *)
Definition updateAllPlayers (code : string) (f : PlayerDoc → PlayerDoc)
    (db : Firestore) : Firestore :=
  match playerDocs db !! code with
  | Some ps => mkFirestore (gameDocs db) (<[code := f <$> ps]> (playerDocs db))
  | None => db
  end.

(** The [players] array a client holds: the snapshot of the players
    collection, each document with its id. *)
Definition playersSnapshot (db : Firestore) (code : string)
  : list (string * PlayerDoc) :=
  map_to_list (playersOf db code).

(** [players.filter(p => !p.isHost)] *)
Definition activePlayersOf (players : list (string * PlayerDoc))
  : list (string * PlayerDoc) :=
  filter (λ p, isHost p.2 = false) players.

(** ** Scoring service *)

Definition MAX_SCORE : Z := 1000.
Definition MIN_SCORE : Z := 500.
Definition QUESTION_DURATION_SECONDS : Z := 30.

(** [calculateScore(responseTimeMs)]: linear decay from [MAX_SCORE] to
    [MIN_SCORE] across the question duration. *)
Definition calculateScore (responseTimeMs : Q) : Z :=
  if negb (Qle_bool 0 responseTimeMs) then MIN_SCORE
  else
    let seconds := (responseTimeMs / 1000)%Q in
    let timeRatio :=
      Qmin (seconds / inject_Z QUESTION_DURATION_SECONDS) 1 in
    let raw :=
      Math_round (inject_Z MAX_SCORE
                  - (inject_Z MAX_SCORE - inject_Z MIN_SCORE) * timeRatio)%Q in
    Z.max MIN_SCORE raw.

(** The part of the question time that has passed, capped at 1. *)
Definition timeRatio (responseTimeMs : Q) : Q :=
  Qmin (responseTimeMs / 1000 / inject_Z QUESTION_DURATION_SECONDS) 1.

(** The score of a correct answer given [t] seconds after the start. *)
Definition scoreAtSeconds (t : Q) : Z := calculateScore (t * 1000)%Q.

(** The earlier inline formula of the host screen, for a correct answer
    with a timestamp. *)
Definition inlineScore (responseTime : Q) : Z :=
  let responseTimeSeconds := (responseTime / 1000)%Q in
  let timePenalty := Qmin (responseTimeSeconds / 30) 1 in
  Z.max (Math_round (1000 - 500 * timePenalty)%Q) 500.

(** [getRemainingTime(startTime)] of the scoring service, which the
    countdown of the player screen follows. *)
Definition getRemainingTime (now : Z) (startTime : option Z) : Z :=
  if negb (truthy_number startTime) then QUESTION_DURATION_SECONDS
  else
    let elapsed := now - to_number startTime in
    Z.max 0 (QUESTION_DURATION_SECONDS - elapsed / 1000).

(** ** CSV parser *)

(** [[copy[i], copy[j]] = [copy[j], copy[i]]]. Both indices are within the
    array wherever [shuffleArray] swaps. *)
Definition swap {A} (i j : nat) (copy : list A) : list A :=
  match copy !! i, copy !! j with
  | Some x, Some y => <[j := x]> (<[i := y]> copy)
  | _, _ => copy
  end.

(** The loop of the Fisher-Yates shuffle, from index [i] down to 1;
    [random i] is the value [Math.random()] returns in the iteration at
    index [i]. *)
Fixpoint shuffleLoop {A} (random : nat → Random) (i : nat) (copy : list A)
  : list A :=
  match i with
  | O => copy
  | S i' =>
      let j := randomBelow (random i) (i + 1) in
      shuffleLoop random i' (swap i j copy)
  end.

Definition shuffleArray {A} (random : nat → Random) (array : list A)
  : list A :=
  shuffleLoop random (length array - 1) array.

(** The fields of one line: [line.split(',')], each part trimmed and
    stripped of its quotes. *)
Definition lineParts (line : string) : list string :=
  (λ p, stripQuotes (trim p)) <$> split commaChar line.

(** The options kept from the answer fields of a line. *)
Definition keptOptions (answerFields : list string) : list string :=
  take 5 (filter (λ o, nonEmpty o = true) answerFields).

(** The callback of [lines.map]: a question, or [null] for a skipped
    line. *)
Definition parseLine (random : nat → Random) (index : nat) (line : string)
  : option Question :=
  match lineParts line with
  | question :: correctAnswer :: distractors =>
      let allOptions := keptOptions (correctAnswer :: distractors) in
      if (length allOptions <? 2)%nat then None
      else
        Some (mkQuestion (CsvId index) question correctAnswer
                (shuffleArray random allOptions))
  | _ => None
  end.

(** The lines of the text that are not blank. *)
Definition csvLines (csvText : string) : list string :=
  filter (λ line, nonEmpty (trim line) = true) (split newlineChar csvText).

(** [parseCSV(csvText)]; [random index] supplies the random values of the
    shuffle for the line at [index]. *)
Definition parseCSV (random : nat → nat → Random) (csvText : string)
  : list Question :=
  if negb (nonEmpty csvText) then []
  else
    omap id
      (imap (λ index line, parseLine (random index) index line)
         (csvLines csvText)).

(** ** Generated questions *)

(** One question of the response of the language model, as parsed from
    JSON: a field that is missing or not a string is [None]. *)
Record RawQuestion := mkRawQuestion {
  rawQuestion : string;
  rawCorrectAnswer : option string;
  rawDistractor1 : option string;
  rawDistractor2 : option string;
  rawDistractor3 : option string
}.

(** [l.filter(Boolean)] on strings that may be missing. *)
Definition truthyStrings (l : list (option string)) : list string :=
  omap (λ o, if truthy_string o then o else None) l.

(** The callback of [raw.map] in [generateQuestions]. *)
Definition formatQuestion (random : nat → Random) (idx : nat)
    (q : RawQuestion) : option Question :=
  let allOptions :=
    truthyStrings
      [rawCorrectAnswer q; rawDistractor1 q; rawDistractor2 q;
       rawDistractor3 q] in
  if negb (length allOptions =? 4)%nat then None
  else
    Some (mkQuestion (LlmId idx) (rawQuestion q)
            (default EmptyString (rawCorrectAnswer q))
            (shuffleArray random allOptions)).

(** The questions [generateQuestions] returns for the parsed response
    [raw]. *)
Definition generateQuestions (random : nat → nat → Random)
    (raw : list RawQuestion) : list Question :=
  omap id (imap (λ idx q, formatQuestion (random idx) idx q) raw).

(** ** Room codes *)

(** A digit of a number printed in radix 36: [0-9] then [a-z]. *)
Definition radix36Char (d : nat) : ascii :=
  if (d <? 10)%nat then ascii_of_nat (48 + d) else ascii_of_nat (87 + d).

(** [Math.random().toString(36)]. The argument is the sequence of radix-36
    digits the engine prints for the fraction: none for the number 0, which
    prints as [0]; otherwise the digits follow [0.]. *)
Definition toString36 (fraction : list nat) : string :=
  match fraction with
  | [] => "0"
  | _ =>
      String "0"
        (String "." (string_of_list_ascii (radix36Char <$> fraction)))
  end.

Definition generateGameCode (fraction : list nat) : string :=
  toUpperCase (substring 2 6 (toString36 fraction)).

(** An uppercase alphanumeric character: [0-9] or [A-Z]. *)
Definition isUpperAlnum (c : ascii) : bool :=
  let n := nat_of_ascii c in
  ((48 <=? n)%nat && (n <=? 57)%nat) || ((65 <=? n)%nat && (n <=? 90)%nat).

(** ** The home screen: creating and joining a game *)

(** [handleCreateGame]. The result carries the game code the client enters,
    when the game was created. A document path that ends in an empty game
    code is refused by [doc], before anything is written. *)
Definition handleCreateGame (userId screenName : string)
    (fraction : list nat) (now : Z) (db : Firestore)
  : Firestore * option string :=
  if negb (nonEmpty userId) || negb (nonEmpty screenName) then (db, None)
  else
    let newCode := generateGameCode fraction in
    if negb (nonEmpty newCode) then (db, None)
    else
      let db1 :=
        setGameDoc newCode (mkGameDoc newCode userId LOBBY [] (-1) None) db in
      let db2 :=
        setPlayerDoc newCode userId
          (mkPlayerDoc screenName 0 true None None now) db1 in
      (db2, Some newCode).

(** What [handleJoinGame] reports: nothing when it returns at once, a
    logged message when the code is unknown or the game in progress. *)
Inductive JoinOutcome :=
  | JoinNotAttempted
  | JoinInvalidCode
  | JoinInProgress
  | Joined.

Definition handleJoinGame (userId screenName code : string) (now : Z)
    (db : Firestore) : Firestore * JoinOutcome :=
  if negb (nonEmpty userId) || negb (nonEmpty screenName)
  then (db, JoinNotAttempted)
  else
    let normalizedCode := toUpperCase code in
    match gameDocs db !! normalizedCode with
    | None => (db, JoinInvalidCode)
    | Some gameData =>
        if bool_decide (status gameData ≠ LOBBY)
           && bool_decide (status gameData ≠ UPLOAD)
        then (db, JoinInProgress)
        else
          (setPlayerDoc normalizedCode userId
             (mkPlayerDoc screenName 0 false None None now) db,
           Joined)
    end.

(** ** Screens *)

Inductive Screen :=
  | LobbyScreen
  | HostGameScreen
  | PlayerGameScreen
  | ResultsScreen.

#[global] Instance Screen_eq_dec : EqDecision Screen.
Proof. solve_decision. Defined.

(** [lobbyState?.hostUserId === userId] *)
Definition isHostOf (lobbyState : option GameDoc) (userId : string) : bool :=
  match lobbyState with
  | Some g => bool_decide (hostUserId g = userId)
  | None => false
  end.

(** The screen [App] renders for a client that has entered a game. *)
Definition screenOf (db : Firestore) (gameCode userId : string) : Screen :=
  let lobbyState := gameDocs db !! gameCode in
  match lobbyState with
  | Some g =>
      match status g with
      | LOBBY | UPLOAD => LobbyScreen
      | PLAYING =>
          if isHostOf lobbyState userId then HostGameScreen
          else PlayerGameScreen
      | RESULTS => ResultsScreen
      end
  | None => ResultsScreen
  end.

(** [lobbyState?.questions?.[lobbyState.currentQuestionIndex]] *)
Definition currentQuestionOf (lobbyState : option GameDoc) : option Question :=
  match lobbyState with
  | Some g =>
      if currentQuestionIndex g <? 0 then None
      else questions g !! Z.to_nat (currentQuestionIndex g)
  | None => None
  end.

(** ** The lobby screen *)

Definition handleStartGame (gameCode : string) (isHost : bool)
    (lobbyState : option GameDoc) (now : Z) (db : Firestore) : Firestore :=
  match lobbyState with
  | Some g =>
      if negb isHost || (length (questions g) =? 0)%nat then db
      else
        let db1 := updateAllPlayers gameCode reset_for_start db in
        default db1 (updateGameDoc gameCode (start_playing now) db1)
  | None => db
  end.

(** [handleCSVUpload]: the parsed questions replace the question list and
    the status becomes UPLOAD; a text without a valid question is refused. *)
Definition handleCSVUpload (gameCode : string) (random : nat → nat → Random)
    (csvText : string) (db : Firestore) : Firestore :=
  let questions := parseCSV random csvText in
  if (length questions =? 0)%nat then db
  else default db (updateGameDoc gameCode (set_questions questions) db).

(** [handleGenerateQuestions], given the questions the generator
    returned. *)
Definition handleGenerateQuestions (gameCode : string) (isHost : bool)
    (generatorTopic : string) (generated : list Question) (db : Firestore)
  : Firestore :=
  if negb (nonEmpty gameCode) || negb isHost
     || negb (nonEmpty (trim generatorTopic))
  then db
  else if (length generated =? 0)%nat then db
  else default db (updateGameDoc gameCode (set_questions generated) db).

(** The host loads questions: the controls exist on the lobby screen of the
    host. *)
Definition uploadCSV (gameCode userId : string) (random : nat → nat → Random)
    (csvText : string) (db : Firestore) : Firestore :=
  if bool_decide (screenOf db gameCode userId = LobbyScreen)
     && isHostOf (gameDocs db !! gameCode) userId
  then handleCSVUpload gameCode random csvText db
  else db.

(** The host presses Generate on the lobby screen rendered from the
    database [rendered]. The handler tests its conditions at the press and
    then awaits the generator; it saves the questions when the generator
    has answered, on the database [db] of that moment, without a further
    look at the game. *)
Definition generateAndSave (gameCode userId generatorTopic : string)
    (random : nat → nat → Random) (raw : list RawQuestion)
    (rendered db : Firestore) : Firestore :=
  if bool_decide (screenOf rendered gameCode userId = LobbyScreen)
  then
    handleGenerateQuestions gameCode
      (isHostOf (gameDocs rendered !! gameCode) userId)
      generatorTopic (generateQuestions random raw) db
  else db.

(** The generator answers before anything else is written. *)
Definition uploadGenerated (gameCode userId generatorTopic : string)
    (random : nat → nat → Random) (raw : list RawQuestion) (db : Firestore)
  : Firestore :=
  generateAndSave gameCode userId generatorTopic random raw db db.

(** [lobbyState?.questions?.length || 0] *)
Definition questionCount (lobbyState : option GameDoc) : nat :=
  match lobbyState with
  | Some g => length (questions g)
  | None => 0
  end.

(** The [disabled] attribute of the Start Game button. *)
Definition startButtonDisabled (lobbyState : option GameDoc)
    (players : list (string * PlayerDoc)) : bool :=
  (questionCount lobbyState =? 0)%nat || (length players <? 2)%nat.

(** The host presses Start Game: the button exists on the lobby screen of
    the host, and a disabled button does nothing. *)
Definition startGame (gameCode userId : string) (now : Z) (db : Firestore)
  : Firestore :=
  let lobbyState := gameDocs db !! gameCode in
  let players := playersSnapshot db gameCode in
  let isHost := isHostOf lobbyState userId in
  if bool_decide (screenOf db gameCode userId = LobbyScreen)
     && isHost && negb (startButtonDisabled lobbyState players)
  then handleStartGame gameCode isHost lobbyState now db
  else db.

(** The number of players of a game that are not its host. *)
Definition nonHostCount (db : Firestore) (gameCode : string) : nat :=
  length (activePlayersOf (playersSnapshot db gameCode)).

(** ** The player screen *)

(** [players.find(p => p.id === userId)] *)
Definition findPlayer (players : list (string * PlayerDoc)) (userId : string)
  : option (string * PlayerDoc) :=
  find (λ p, bool_decide (p.1 = userId)) players.

Definition handleAnswerSubmit (gameCode userId : string)
    (players : list (string * PlayerDoc)) (answer : string) (now : Z)
    (db : Firestore) : Firestore :=
  if negb (nonEmpty gameCode) then db
  else
    match findPlayer players userId with
    | None => db
    | Some player =>
        if truthy_string (lastAnswer player.2) then db
        else
          default db
            (updatePlayerDoc gameCode userId
               (set_answer (Some answer) (Some now)) db)
    end.

(** A player presses the button of an answer on the player screen rendered
    from the database [rendered]; the write reaches the database [db]. The
    buttons exist on the player screen, one for each option of the current
    question, when the player has a record; the handler is the one of that
    render, with its [player]. *)
Definition pressAnswer (gameCode userId answer : string) (now : Z)
    (rendered db : Firestore) : Firestore :=
  let lobbyState := gameDocs rendered !! gameCode in
  let players := playersSnapshot rendered gameCode in
  match currentQuestionOf lobbyState with
  | Some currentQuestion =>
      if bool_decide (screenOf rendered gameCode userId = PlayerGameScreen)
         && bool_decide (answer ∈ options currentQuestion)
      then handleAnswerSubmit gameCode userId players answer now db
      else db
  | None => db
  end.

(** A press on a screen that shows the database as it is. *)
Definition submitAnswer (gameCode userId answer : string) (now : Z)
    (db : Firestore) : Firestore :=
  pressAnswer gameCode userId answer now db db.

(** ** The host screen *)

(** React state of the host screen and of the hook it mounts. [revealTimer]
    is the pending [setTimeout] of the reveal effect, as the time at which it
    fires. *)
Record HostScreen := mkHostScreen {
  showAnswers : bool;
  isScoring : bool;
  revealTimer : option Z;
  lastRunQuestionId : option QuestionId
}.

(** The state of a freshly mounted host screen, and that of a screen on
    which the answers have just been revealed. *)
Definition mountHostScreen : HostScreen := mkHostScreen false false None None.
Definition revealedHostScreen : HostScreen := mkHostScreen true false None None.

Definition set_showAnswers (b : bool) (h : HostScreen) : HostScreen :=
  mkHostScreen b (isScoring h) (revealTimer h) (lastRunQuestionId h).

Definition set_revealTimer (t : option Z) (h : HostScreen) : HostScreen :=
  mkHostScreen (showAnswers h) (isScoring h) t (lastRunQuestionId h).

Definition set_lastRunQuestionId (i : option QuestionId) (h : HostScreen)
  : HostScreen :=
  mkHostScreen (showAnswers h) (isScoring h) (revealTimer h) i.

(** *** Revealing the answers *)

(** [allAnswered] of the host screen. *)
Definition allAnsweredOf (players : list (string * PlayerDoc)) : bool :=
  let activePlayers := activePlayersOf players in
  let answersSubmitted :=
    length (filter (λ p, lastAnswer p.2 ≠ None) activePlayers) in
  (answersSubmitted =? length activePlayers)%nat.

(** The reveal effect of the host screen, run at time [now]: the timer the
    previous run set is cleared, a new one is set 30000 ms ahead, and the
    answers are shown at once when every player has answered. *)
Definition revealEffect (now : Z) (lobbyState : option GameDoc)
    (allAnswered : bool) (h : HostScreen) : HostScreen :=
  let h0 := set_revealTimer None h in
  match lobbyState with
  | Some g =>
      if bool_decide (status g = PLAYING)
         && truthy_number (currentQuestionStartTime g)
      then
        let h1 := set_revealTimer (Some (now + 30000)) h0 in
        if allAnswered && negb (showAnswers h) && negb (isScoring h)
        then set_showAnswers true h1
        else h1
      else h0
  | None => h0
  end.

(** The clock reaches [now]: a timer that is due fires. *)
Definition revealTimeout (now : Z) (h : HostScreen) : HostScreen :=
  match revealTimer h with
  | Some fireAt =>
      if fireAt <=? now then
        let h0 := set_revealTimer None h in
        if negb (showAnswers h) && negb (isScoring h)
        then set_showAnswers true h0
        else h0
      else h
  | None => h
  end.

(** The reveal effect as the host screen runs it: the properties come from
    the snapshot of the database. *)
Definition revealEffectOf (code : string) (now : Z)
    (st : Firestore * HostScreen) : HostScreen :=
  revealEffect now (gameDocs st.1 !! code)
    (allAnsweredOf (playersSnapshot st.1 code)) st.2.

(** *** The [useScoring] hook *)

(** The points [useScoring] adds for one player: [None] when the answer is
    not the correct one and no update is issued. *)
Definition scoreIncrease (currentQuestion : Question)
    (questionStartTime : option Z) (player : PlayerDoc) : option Z :=
  if bool_decide (lastAnswer player = Some (correctAnswer currentQuestion))
  then
    Some (if truthy_number (answerTimestamp player)
          then
            let rt :=
              to_number (answerTimestamp player) - to_number questionStartTime
            in calculateScore (inject_Z rt)
          else calculateScore 0)
  else None.

(** The points a player receives from one scoring run. *)
Definition pointsAwarded (currentQuestion : Question)
    (questionStartTime : option Z) (player : PlayerDoc) : Z :=
  default 0 (scoreIncrease currentQuestion questionStartTime player).

(** One element of [activePlayers.map(...)]: the update of one player, on
    the database reached so far; the flag records a rejected update. *)
Definition scoreOnePlayer (code : string) (currentQuestion : Question)
    (questionStartTime : option Z) (acc : Firestore * bool)
    (entry : string * PlayerDoc) : Firestore * bool :=
  match scoreIncrease currentQuestion questionStartTime entry.2 with
  | None => acc
  | Some increase =>
      match
        updatePlayerDoc code entry.1
          (set_score (score entry.2 + increase)) acc.1
      with
      | Some db' => (db', acc.2)
      | None => (acc.1, false)
      end
  end.

(** The effect of [useScoring], run to completion. The marker is set only
    when every update was accepted. *)
Definition useScoring_run (code : string) (lobbyState : option GameDoc)
    (players : list (string * PlayerDoc)) (currentQuestion : option Question)
    (showAnswers : bool) (st : Firestore * HostScreen)
  : Firestore * HostScreen :=
  match currentQuestion, lobbyState with
  | Some q, Some g =>
      if bool_decide (code = EmptyString) || negb showAnswers then st
      else if bool_decide (lastRunQuestionId st.2 = Some (qid q)) then st
      else
        let questionStartTime := currentQuestionStartTime g in
        let activePlayers := activePlayersOf players in
        let res :=
          foldl (scoreOnePlayer code q questionStartTime) (st.1, true)
            activePlayers in
        if res.2 then (res.1, set_lastRunQuestionId (Some (qid q)) st.2)
        else (res.1, st.2)
  | _, _ => st
  end.

(** The hook as the host screen mounts it: the properties come from the
    snapshot of the database and from the state of the screen. *)
Definition scoringEffect (code : string) (st : Firestore * HostScreen)
  : Firestore * HostScreen :=
  let lobbyState := gameDocs st.1 !! code in
  useScoring_run code lobbyState (playersSnapshot st.1 code)
    (currentQuestionOf lobbyState) (showAnswers st.2) st.

(** What one scoring run makes of a player document: the host is not
    scored, any other player receives [pointsAwarded]. *)
Definition awardedPlayer (currentQuestion : Question)
    (questionStartTime : option Z) (p : PlayerDoc) : PlayerDoc :=
  set_score (score p + pointsAwarded currentQuestion questionStartTime p) p.

Definition scoredPlayer (currentQuestion : Question)
    (questionStartTime : option Z) (p : PlayerDoc) : PlayerDoc :=
  if isHost p then p else awardedPlayer currentQuestion questionStartTime p.

(** *** The inline scoring effect *)

(** The earlier inline scoring effect of the host screen: guarded by the
    [isScoring] flag alone, which is cleared again when the updates
    settle. *)
Definition inlineIncrease (currentQuestion : Question)
    (questionStartTime : option Z) (player : PlayerDoc) : Z :=
  if bool_decide (lastAnswer player = Some (correctAnswer currentQuestion))
  then
    if truthy_number (answerTimestamp player)
    then
      inlineScore
        (inject_Z
           (to_number (answerTimestamp player) - to_number questionStartTime))
    else 1000
  else 0.

Definition inlineScoreOnePlayer (code : string) (currentQuestion : Question)
    (questionStartTime : option Z) (db : Firestore)
    (entry : string * PlayerDoc) : Firestore :=
  let scoreIncrease :=
    inlineIncrease currentQuestion questionStartTime entry.2 in
  if 0 <? scoreIncrease
  then
    default db
      (updatePlayerDoc code entry.1
         (set_score (score entry.2 + scoreIncrease)) db)
  else db.

Definition inlineScoringEffect (code : string) (st : Firestore * HostScreen)
  : Firestore * HostScreen :=
  let lobbyState := gameDocs st.1 !! code in
  match currentQuestionOf lobbyState, lobbyState with
  | Some q, Some g =>
      if bool_decide (code = EmptyString) || negb (showAnswers st.2)
         || isScoring st.2
      then st
      else
        let playersToScore := activePlayersOf (playersSnapshot st.1 code) in
        (foldl (inlineScoreOnePlayer code q (currentQuestionStartTime g))
           st.1 playersToScore,
         st.2)
  | _, _ => st
  end.

(** *** Advancing *)

(** [handleNextQuestion]. The handler awaits the write of the game
    document before it reads and resets the player documents, and it hides
    the answers after the resets. The snapshot of the game write renders
    the host screen anew while the handler waits: [effects] is what the
    effects of the screen do on that render, on which [showAnswers] still
    holds. *)
Definition handleNextQuestion (gameCode : string) (lobbyState : GameDoc)
    (now : Z)
    (effects : Firestore * HostScreen → Firestore * HostScreen)
    (st : Firestore * HostScreen) : Firestore * HostScreen :=
  let nextIndex := currentQuestionIndex lobbyState + 1 in
  if nextIndex <? Z.of_nat (length (questions lobbyState)) then
    match updateGameDoc gameCode (set_question nextIndex now) st.1 with
    | Some db1 =>
        let st1 := effects (db1, st.2) in
        let db2 := updateAllPlayers gameCode (set_answer None None) st1.1 in
        (db2,
         mkHostScreen false false (revealTimer st1.2)
           (lastRunQuestionId st1.2))
    | None => st
    end
  else
    match updateGameDoc gameCode (set_status RESULTS) st.1 with
    | Some db1 => (db1, st.2)
    | None => st
    end.

(** The host presses the button below a revealed question. The effect
    that runs between the writes of the handler is the one of [useScoring],
    whose dependency [currentQuestion?.id] has changed. *)
Definition advance (gameCode userId : string) (now : Z)
    (st : Firestore * HostScreen) : Firestore * HostScreen :=
  match gameDocs st.1 !! gameCode with
  | Some lobbyState =>
      if bool_decide (screenOf st.1 gameCode userId = HostGameScreen)
         && showAnswers st.2 && negb (isScoring st.2)
      then
        handleNextQuestion gameCode lobbyState now (scoringEffect gameCode) st
      else st
  | None => st
  end.

(** ** The results screen *)

(** [handleEndGame]: the host deletes the player documents and the game
    document. *)
Definition handleEndGame (gameCode : string) (isHost : bool) (db : Firestore)
  : Firestore :=
  if negb isHost then db
  else mkFirestore (delete gameCode (gameDocs db))
         (delete gameCode (playerDocs db)).

Definition endGame (gameCode userId : string) (db : Firestore) : Firestore :=
  if bool_decide (screenOf db gameCode userId = ResultsScreen)
  then handleEndGame gameCode (isHostOf (gameDocs db !! gameCode) userId) db
  else db.

(** ** The client *)

(** The state [App] keeps of the game its user is in, [gameCode] and
    [mode]. It lives in the memory of the page: a page that is loaded
    starts from [loadApp]. *)
Inductive Mode :=
  | Mode_HOME
  | Mode_LOBBY.

#[global] Instance Mode_eq_dec : EqDecision Mode.
Proof. solve_decision. Defined.

Record App := mkApp {
  App_gameCode : string;
  App_mode : Mode
}.

Definition loadApp : App := mkApp EmptyString Mode_HOME.

(** [handleCreateGame] and [handleJoinGame] with the state they set on
    success. No other code sets [gameCode] to the code of a game. *)
Definition App_handleCreateGame (userId screenName : string)
    (fraction : list nat) (now : Z) (st : App * Firestore)
  : App * Firestore :=
  match handleCreateGame userId screenName fraction now st.2 with
  | (db, Some newCode) => (mkApp newCode Mode_LOBBY, db)
  | (db, None) => (st.1, db)
  end.

Definition App_handleJoinGame (userId screenName code : string) (now : Z)
    (st : App * Firestore) : App * Firestore :=
  match handleJoinGame userId screenName code now st.2 with
  | (db, Joined) => (mkApp (toUpperCase code) Mode_LOBBY, db)
  | (db, _) => (st.1, db)
  end.

(** What [App] renders: the home screen ([None]) or a screen of the game
    it has entered. *)
Definition App_screen (app : App) (userId : string) (db : Firestore)
  : option Screen :=
  if bool_decide (App_mode app = Mode_HOME) || negb (nonEmpty userId)
  then None
  else Some (screenOf db (App_gameCode app) userId).

(** The reveal timer of a client whose screen is first rendered at the
    time [now]: only a host screen sets one. *)
Definition App_revealTimer (app : App) (userId : string) (now : Z)
    (db : Firestore) : option Z :=
  match App_screen app userId db with
  | Some HostGameScreen =>
      revealTimer
        (revealEffectOf (App_gameCode app) now (db, mountHostScreen))
  | _ => None
  end.

(** ** The session engine as a transition system *)

(** The database before any game is created. *)
Definition emptyDb : Firestore := mkFirestore ∅ ∅.

(** The databases the clients can reach. A step is one handler of the
    application, on behalf of any user, at any time and in any state of the
    host screen. A handler runs on the screen that shows the database as it
    is, with two exceptions: the questions of the generator are saved when
    the generator has answered, and an answer button can be pressed again
    before the screen has been rendered anew; these two steps take the
    database the screen was rendered from beside the one they write to. The
    step [R_advance] includes the run of [useScoring] between the writes of
    [handleNextQuestion]. *)
Inductive Reachable : Firestore → Prop :=
  | R_empty : Reachable emptyDb
  | R_create userId screenName fraction now db :
      Reachable db →
      Reachable (handleCreateGame userId screenName fraction now db).1
  | R_join userId screenName code now db :
      Reachable db →
      Reachable (handleJoinGame userId screenName code now db).1
  | R_uploadCSV code userId random csvText db :
      Reachable db →
      Reachable (uploadCSV code userId random csvText db)
  | R_uploadGenerated code userId topic random raw db :
      Reachable db →
      Reachable (uploadGenerated code userId topic random raw db)
  | R_generateAndSave code userId topic random raw rendered db :
      Reachable rendered →
      Reachable db →
      Reachable (generateAndSave code userId topic random raw rendered db)
  | R_start code userId now db :
      Reachable db →
      Reachable (startGame code userId now db)
  | R_submit code userId answer now db :
      Reachable db →
      Reachable (submitAnswer code userId answer now db)
  | R_pressAnswer code userId answer now rendered db :
      Reachable rendered →
      Reachable db →
      Reachable (pressAnswer code userId answer now rendered db)
  | R_score code h db :
      Reachable db →
      Reachable (scoringEffect code (db, h)).1
  | R_advance code userId now h db :
      Reachable db →
      Reachable (advance code userId now (db, h)).1
  | R_end code userId db :
      Reachable db →
      Reachable (endGame code userId db).

(** The options of a question and the stored answer of a player are not
    empty strings. *)
Definition optionsNonEmpty (g : GameDoc) : Prop :=
  ∀ q, q ∈ questions g → Forall (λ o, o ≠ EmptyString) (options q).

Definition answerNonEmpty (p : PlayerDoc) : Prop :=
  lastAnswer p ≠ Some EmptyString.

Definition answersNonEmpty (db : Firestore) : Prop :=
  (∀ code g, gameDocs db !! code = Some g → optionsNonEmpty g)
  ∧ (∀ code uid p, playersOf db code !! uid = Some p → answerNonEmpty p).

(** ** A sample session

    One game with a host and two players, used to evaluate the definitions
    on concrete inputs. *)

Definition sampleQuestions : list Question :=
  [ mkQuestion (CsvId 0) "Capital of France?" "Paris" ["Rome"; "Paris"; "Oslo"];
    mkQuestion (CsvId 1) "2+2?" "4" ["4"; "5"] ].

Definition sampleGame (st : Status) (index : Z) (start : option Z) : GameDoc :=
  mkGameDoc "AB12" "host" st sampleQuestions index start.

Definition samplePlayers : gmap string PlayerDoc :=
  {[ "host"%string := mkPlayerDoc "Hana" 0 true None None 5;
     "ann"%string :=
       mkPlayerDoc "Ann" 0 false (Some "Paris"%string) (Some 1006000) 6;
     "bob"%string :=
       mkPlayerDoc "Bob" 0 false (Some "Rome"%string) (Some 1003000) 7 ]}.

(** The sample session while its first question is open. *)
Definition sampleDb : Firestore :=
  mkFirestore {[ "AB12"%string := sampleGame PLAYING 0 (Some 1000000) ]}
    {[ "AB12"%string := samplePlayers ]}.

(** The sample session in the lobby, with one player beside the host. *)
Definition sampleLobbyDb : Firestore :=
  mkFirestore {[ "AB12"%string := sampleGame UPLOAD (-1) None ]}
    {[ "AB12"%string :=
         {[ "host"%string := mkPlayerDoc "Hana" 0 true None None 5;
            "ann"%string := mkPlayerDoc "Ann" 0 false None None 6 ]} ]}.

(** The sample session while Bob has not answered the first question. *)
Definition sampleOpenDb : Firestore :=
  setPlayerDoc "AB12" "bob" (mkPlayerDoc "Bob" 0 false None None 7) sampleDb.

(** A session played from the start: the host creates the game, Ann joins,
    the host loads two questions and starts the game, and Ann answers the
    first question. *)
Definition sampleCsv : string :=
  "Capital of France?,Paris,Rome,Oslo
2+2?,4,5".

Definition playedDb : Firestore :=
  submitAnswer "AB12" "ann" "Paris" 1006000
    (startGame "AB12" "host" 1000000
       (uploadCSV "AB12" "host" (λ _ _, randomZero) sampleCsv
          (handleJoinGame "ann" "Ann" "ab12" 6
             (handleCreateGame "host" "Hana" [10; 11; 1; 2]%nat 5
                emptyDb).1).1)).

(** ** The countdown hook *)

(** The [update] function of [useTimer]: the seconds left of a question that
    started at [startTime] and lasts [durationSeconds], at time [now];
    without a start time the hook shows the whole duration. *)
Definition useTimer_remaining (now : Z) (startTime : option Z)
    (durationSeconds : Z) : Z :=
  if negb (truthy_number startTime) then durationSeconds
  else
    let elapsed := now - to_number startTime in
    let left := Z.max 0 (durationSeconds - elapsed / 1000) in
    left.

(** [expired] of [useTimer]. *)
Definition useTimer_expired (now : Z) (startTime : option Z)
    (durationSeconds : Z) : bool :=
  useTimer_remaining now startTime durationSeconds =? 0.

(** [percent] of [useTimer]. *)
Definition useTimer_percent (now : Z) (startTime : option Z)
    (durationSeconds : Z) : Q :=
  (inject_Z
     (durationSeconds - useTimer_remaining now startTime durationSeconds)
   / inject_Z durationSeconds)%Q.

(** ** Further definitions of the lobby screen *)

(** The number the Upload button announces:
    [csvText.split('\n').filter(l => l.trim()).length]. *)
Definition uploadLabelCount (csvText : string) : nat :=
  length (filter (λ l, nonEmpty (trim l) = true) (split newlineChar csvText)).

(** The number of occurrences of a character in a string. *)
Fixpoint countChar (c : ascii) (s : string) : nat :=
  match s with
  | EmptyString => 0
  | String a s' => (if Ascii.eqb a c then 1 else 0) + countChar c s'
  end.

(** The number a question identifier carries. *)
Definition qidIndex (i : QuestionId) : nat :=
  match i with
  | CsvId index => index
  | LlmId idx => idx
  end.

(** A response of the language model: the second question lacks a
    distractor, the third has an empty one. *)
Definition sampleRaw : list RawQuestion :=
  [mkRawQuestion "Capital of France?" (Some "Paris") (Some "Rome")
     (Some "Oslo") (Some "Bern");
   mkRawQuestion "Largest planet?" (Some "Jupiter") (Some "Mars") None
     (Some "Venus");
   mkRawQuestion "2 + 2?" (Some "4") (Some "3") (Some EmptyString) (Some "5");
   mkRawQuestion "Red planet?" (Some "Mars") (Some "Venus") (Some "Pluto")
     (Some "Earth")].

(** ** Well-formed databases *)

(** A property of every game document, taken with its key, and of every
    player document of a database. *)
Definition dbInvariant (P : string → GameDoc → Prop) (Q : PlayerDoc → Prop)
    (db : Firestore) : Prop :=
  (∀ code g, gameDocs db !! code = Some g → P code g)
  ∧ (∀ code uid p, playersOf db code !! uid = Some p → Q p).

(** A game document carries its own key and the identifiers of its
    questions are pairwise distinct. A game in status LOBBY is as it was
    created: no questions, no current question, no start time. A game in
    status UPLOAD has questions; its index and its start time are those of
    the lobby, or those a game in play had when generated questions were
    saved to it. From the start on the index points at one of the questions
    and a start time is set. *)
Definition wellFormedGame (code : string) (g : GameDoc) : Prop :=
  gameCode g = code
  ∧ NoDup (qid <$> questions g)
  ∧ match status g with
    | LOBBY =>
        questions g = [] ∧ currentQuestionIndex g = -1
        ∧ currentQuestionStartTime g = None
    | UPLOAD => questions g ≠ []
    | PLAYING | RESULTS =>
        0 ≤ currentQuestionIndex g < Z.of_nat (length (questions g))
        ∧ is_Some (currentQuestionStartTime g)
    end.

(** A score is not negative, the score of a host document is 0, and an
    answer is stored together with its timestamp. *)
Definition wellFormedPlayer (p : PlayerDoc) : Prop :=
  0 ≤ score p
  ∧ (isHost p = true → score p = 0)
  ∧ (lastAnswer p = None ↔ answerTimestamp p = None).

Definition wellFormed (db : Firestore) : Prop :=
  dbInvariant wellFormedGame wellFormedPlayer db.

(** ** The actions of the clients *)

(** One constructor for each handler that writes to the database, with the
    values the handler reads from its client: the inputs of the user, the
    clock, the random numbers and the state of the host screen. The saving
    of generated questions and the press of an answer button carry the
    database their screen was rendered from. *)
Inductive Action :=
  | CreateGame (userId screenName : string) (fraction : list nat) (now : Z)
  | JoinGame (userId screenName code : string) (now : Z)
  | UploadCSV (code userId : string) (random : nat → nat → Random)
      (csvText : string)
  | GenerateAndSave (code userId topic : string)
      (random : nat → nat → Random) (raw : list RawQuestion)
      (rendered : Firestore)
  | StartGame (code userId : string) (now : Z)
  | PressAnswer (code userId answer : string) (now : Z)
      (rendered : Firestore)
  | RunScoring (code : string) (h : HostScreen)
  | Advance (code userId : string) (now : Z) (h : HostScreen)
  | EndGame (code userId : string).

Definition perform (a : Action) (db : Firestore) : Firestore :=
  match a with
  | CreateGame userId screenName fraction now =>
      (handleCreateGame userId screenName fraction now db).1
  | JoinGame userId screenName code now =>
      (handleJoinGame userId screenName code now db).1
  | UploadCSV code userId random csvText =>
      uploadCSV code userId random csvText db
  | GenerateAndSave code userId topic random raw rendered =>
      generateAndSave code userId topic random raw rendered db
  | StartGame code userId now => startGame code userId now db
  | PressAnswer code userId answer now rendered =>
      pressAnswer code userId answer now rendered db
  | RunScoring code h => (scoringEffect code (db, h)).1
  | Advance code userId now h => (advance code userId now (db, h)).1
  | EndGame code userId => endGame code userId db
  end.

(** The game code a creation writes to. *)
Definition createdCode (a : Action) : option string :=
  match a with
  | CreateGame _ _ fraction _ => Some (generateGameCode fraction)
  | _ => None
  end.

(** The questions a saving of generated questions carries. *)
Definition savedQuestions (a : Action) : option (list Question) :=
  match a with
  | GenerateAndSave _ _ _ random raw _ => Some (generateQuestions random raw)
  | _ => None
  end.

(** The order of the phases of a game. *)
Definition statusRank (s : Status) : nat :=
  match s with
  | LOBBY => 0
  | UPLOAD => 1
  | PLAYING => 2
  | RESULTS => 3
  end.

(** What the handlers may do to a game document: the code and the host
    stay, the status does not move back, and from the start of the game on
    the questions stay and the index of the current question moves up by at
    most one. *)
Definition movesForward (g g' : GameDoc) : Prop :=
  gameCode g' = gameCode g
  ∧ hostUserId g' = hostUserId g
  ∧ (statusRank (status g) ≤ statusRank (status g'))%nat
  ∧ (status g = PLAYING ∨ status g = RESULTS →
     questions g' = questions g
     ∧ currentQuestionIndex g ≤ currentQuestionIndex g'
       ≤ currentQuestionIndex g + 1).

(** ** The leaderboard *)

(** [players.sort((a, b) => b.score - a.score)]. The sort of the language
    is stable: its result is the one arrangement in descending order of
    score that keeps players of equal score in the order they had.
    Inserting the elements from the right, each before the first element
    whose score is not higher, computes it. *)
Fixpoint insertByScore (p : string * PlayerDoc)
    (sorted : list (string * PlayerDoc)) : list (string * PlayerDoc) :=
  match sorted with
  | [] => [p]
  | x :: rest =>
      if score p.2 <? score x.2 then x :: insertByScore p rest
      else p :: sorted
  end.

Definition sortByScore (players : list (string * PlayerDoc))
  : list (string * PlayerDoc) :=
  foldr insertByScore [] players.

(** [sortedPlayers] of the results screen. *)
Definition sortedPlayers (players : list (string * PlayerDoc))
  : list (string * PlayerDoc) :=
  sortByScore (activePlayersOf players).

(** Descending order of score. *)
Definition byScore (a b : string * PlayerDoc) : Prop := score b.2 ≤ score a.2.

(** ** Rounds of the host *)

(** The button Reveal Answers Now, which is disabled while the scores are
    written. *)
Definition revealNow (h : HostScreen) : HostScreen :=
  if isScoring h then h else set_showAnswers true h.

(** The host reveals the answers and presses the button below them at time
    [now]; and a sequence of such rounds, one at each of the given times. *)
Definition hostRound (code userId : string) (st : Firestore * HostScreen)
    (now : Z) : Firestore * HostScreen :=
  advance code userId now (st.1, revealNow st.2).

Definition hostRounds (code userId : string) (times : list Z)
    (st : Firestore * HostScreen) : Firestore * HostScreen :=
  foldl (hostRound code userId) st times.

(** ** The Gemini service *)

(** The body of a response as [res.json()] delivers it, as far as
    [callGeminiApi] reads it: the [error] field with its message, the text
    of the first part of the first candidate, and the finish reason of the
    first candidate. *)
Record GeminiJson := mkGeminiJson {
  jsonError : option (option string);
  candidateText : option string;
  finishReason : option string
}.

(** A response: [resText] is [None] when [res.text()] rejects, and
    [resJson] is the message of the error when [res.json()] rejects. *)
Record Response := mkResponse {
  resOk : bool;
  resStatus : string;
  resStatusText : string;
  resText : option string;
  resJson : string + GeminiJson
}.

(** What one call of [fetch] delivers. *)
Inductive FetchResult :=
  | FetchRejected (message : string)
  | FetchResolved (res : Response).

(** The body of the [try] block of [callGeminiApi]: the message of the
    error it throws, or the text it returns. *)
Definition attemptOnce (f : FetchResult) : string + string :=
  match f with
  | FetchRejected message => inl message
  | FetchResolved res =>
      if negb (resOk res) then
        let body := default EmptyString (resText res) in
        inl ("Gemini API " +:+ resStatus res +:+ ": " +:+ resStatusText res
             +:+ " " +:+ body)
      else
        match resJson res with
        | inl message => inl message
        | inr json =>
            match jsonError json with
            | Some message =>
                inl (if truthy_string message
                     then default EmptyString message
                     else "Gemini returned an error field.")
            | None =>
                if truthy_string (candidateText json)
                then inr (default EmptyString (candidateText json))
                else if bool_decide (finishReason json = Some "SAFETY"%string)
                then inl "Response blocked by safety filters."
                else inl "Empty/malformed Gemini response."
            end
        end
  end.

(** How a call of [callGeminiApi] ends. The function returns [undefined]
    when its loop ends without an attempt. *)
Inductive ApiOutcome :=
  | Returned (text : string)
  | Threw (message : string)
  | ReturnedUndefined.

(** The loop of [callGeminiApi] from the attempt [attempt] on; [fetch i] is
    what the call of [fetch] in attempt [i] delivers, [fuel] counts the
    iterations left up to [retries], and [delays] are the waits so far, in
    milliseconds. *)
Fixpoint callLoop (fetch : nat → FetchResult) (retries attempt fuel : nat)
    (delays : list Z) : ApiOutcome * list Z :=
  match fuel with
  | O => (ReturnedUndefined, delays)
  | S fuel' =>
      match attemptOnce (fetch attempt) with
      | inr text => (Returned text, delays)
      | inl err =>
          if Z.of_nat attempt =? Z.of_nat retries - 1 then (Threw err, delays)
          else
            let delay := 2 ^ Z.of_nat attempt * 1000 in
            callLoop fetch retries (S attempt) fuel' (delays ++ [delay])
      end
  end.

(** [callGeminiApi(payload, { retries })], with the outcome of the call and
    the waits between its attempts. *)
Definition callGeminiApi (apiKey : string) (fetch : nat → FetchResult)
    (retries : nat) : ApiOutcome * list Z :=
  if negb (nonEmpty apiKey) then (Threw "Gemini API key not provided.", [])
  else callLoop fetch retries 0 retries [].

(** The waits before the attempt [k]: 1000 ms, doubled after each
    failure. *)
Definition backoffDelays (k : nat) : list Z :=
  (λ i, 2 ^ Z.of_nat i * 1000) <$> seq 0 k.

(** The errors [generateQuestions(topic)] of the service throws: the error
    of [callGeminiApi], passed on; [Failed parsing JSON: ...] with the
    message of the parser; and [Invalid or empty question array from
    Gemini.] *)
Inductive GenerateError :=
  | ApiFailed (message : string)
  | ParseFailed
  | InvalidArray.

(** [generateQuestions(topic)] of the service, from the outcome of
    [callGeminiApi] on. [parse] stands for [JSON.parse] and the reading of
    the entries: [None] when the text is not JSON, [Some None] when it is
    JSON but not an array. [JSON.parse(undefined)] throws. The function
    throws ([inl]) or returns the formatted questions. *)
Definition generateQuestionsFrom (random : nat → nat → Random)
    (parse : string → option (option (list RawQuestion)))
    (api : ApiOutcome) : GenerateError + list Question :=
  match api with
  | Threw message => inl (ApiFailed message)
  | ReturnedUndefined => inl ParseFailed
  | Returned text =>
      match parse text with
      | None => inl ParseFailed
      | Some None => inl InvalidArray
      | Some (Some raw) =>
          if (length raw =? 0)%nat then inl InvalidArray
          else inr (generateQuestions random raw)
      end
  end.

(** [fetchQuestions] of the hook [useGeminiApi]: an error becomes the
    empty list. *)
Definition fetchQuestions (random : nat → nat → Random)
    (parse : string → option (option (list RawQuestion)))
    (api : ApiOutcome) : list Question :=
  match generateQuestionsFrom random parse api with
  | inr q => q
  | inl _ => []
  end.

(** ** The configuration validator *)

(** The variables of the loop that looks for the closing brace of the
    configuration object. *)
Record ScanState := mkScanState {
  braceCount : Z;
  inString : bool;
  escape : bool
}.

Definition openBrace : ascii := "{"%char.
Definition closeBrace : ascii := "}"%char.
Definition backslash : ascii := "\"%char.

(** One iteration of the loop on the character [char]: the state after
    it, and whether the loop has set [end] and stops. *)
Definition scanChar (st : ScanState) (char : ascii) : ScanState * bool :=
  if escape st then (mkScanState (braceCount st) (inString st) false, false)
  else if Ascii.eqb char backslash
  then (mkScanState (braceCount st) (inString st) true, false)
  else if Ascii.eqb char quoteChar
  then (mkScanState (braceCount st) (negb (inString st)) false, false)
  else if negb (inString st) then
    let count1 :=
      if Ascii.eqb char openBrace then braceCount st + 1 else braceCount st in
    if Ascii.eqb char closeBrace then
      let count2 := count1 - 1 in
      (mkScanState count2 (inString st) false, count2 =? 0)
    else (mkScanState count1 (inString st) false, false)
  else (st, false).

(** The loop from the index [i] on, over the characters from there to the
    end of the text: the value of [end] when it is found, [None] for the
    -1 the loop ends with otherwise. *)
Fixpoint scanFrom (st : ScanState) (chars : list ascii) (i : nat)
  : option nat :=
  match chars with
  | [] => None
  | char :: rest =>
      let (st', found) := scanChar st char in
      if found then Some (i + 1)%nat else scanFrom st' rest (i + 1)
  end.

Definition findClosingBrace (html : string) (start : nat) : option nat :=
  scanFrom (mkScanState 0 false false)
    (drop start (list_ascii_of_string html)) start.

(** The text between two quotes of a string literal: characters other
    than the quote and the backslash, and backslashes followed by any
    character. *)
Inductive StringBody : list ascii → Prop :=
  | SB_nil : StringBody []
  | SB_char c s :
      c ≠ quoteChar → c ≠ backslash → StringBody s → StringBody (c :: s)
  | SB_escape c s : StringBody s → StringBody (backslash :: c :: s).

(** The text between the braces of an object: other characters, string
    literals and nested objects. *)
Inductive ObjectBody : list ascii → Prop :=
  | OB_nil : ObjectBody []
  | OB_plain c b :
      c ≠ openBrace → c ≠ closeBrace → c ≠ quoteChar → c ≠ backslash →
      ObjectBody b → ObjectBody (c :: b)
  | OB_string s b :
      StringBody s → ObjectBody b →
      ObjectBody (quoteChar :: s ++ quoteChar :: b)
  | OB_object a b :
      ObjectBody a → ObjectBody b →
      ObjectBody (openBrace :: a ++ closeBrace :: b).

(** ** The form of the home screen *)

(** [routePrefilledCode] of [App]: the code of the route, when the route
    has one. *)
Definition routePrefilledCode (prefillFromRoute : bool)
    (routeCode : option string) : option string :=
  if prefillFromRoute && truthy_string routeCode
  then Some (substring 0 4 (toUpperCase (default EmptyString routeCode)))
  else None.

(** The state of the form: the screen name, which [App] holds, the code in
    the input, and the code the form was given. *)
Record HomeForm := mkHomeForm {
  formScreenName : string;
  inputCode : string;
  prefilledCode : option string
}.

(** The form as it is mounted: [useState(prefilledCode || '')]. *)
Definition mountHome (prefilledCode : option string) : HomeForm :=
  mkHomeForm EmptyString
    (if truthy_string prefilledCode then default EmptyString prefilledCode
     else EmptyString)
    prefilledCode.

(** The user changes the text of one of the inputs to [value]. *)
Inductive HomeEvent :=
  | ChangeName (value : string)
  | ChangeCode (value : string).

Definition homeEvent (f : HomeForm) (e : HomeEvent) : HomeForm :=
  match e with
  | ChangeName value =>
      mkHomeForm (substring 0 15 value) (inputCode f) (prefilledCode f)
  | ChangeCode value =>
      if negb (truthy_string (prefilledCode f))
      then mkHomeForm (formScreenName f) (substring 0 4 (toUpperCase value))
             (prefilledCode f)
      else f
  end.

(** The [disabled] attribute of the Join button. *)
Definition joinDisabled (f : HomeForm) : bool :=
  negb (nonEmpty (trim (formScreenName f)))
  || negb (String.length (inputCode f) =? 4)%nat.

(** [handleJoinClick]: the error it shows, or the code it passes to
    [onJoin]. *)
Definition handleJoinClick (f : HomeForm) : string + string :=
  if negb (nonEmpty (trim (formScreenName f)))
  then inl "Please enter a screen name."
  else if negb (nonEmpty (trim (inputCode f)))
          || negb (String.length (trim (inputCode f)) =? 4)%nat
  then inl "Please enter a 4-letter game code."
  else inr (inputCode f).

(** A click on the Join button: the code [handleJoinGame] is called with,
    if it is called. *)
Definition joinClick (f : HomeForm) : option string :=
  if joinDisabled f then None
  else
    match handleJoinClick f with
    | inr code => Some code
    | inl _ => None
    end.

(** ** A game played through *)

(** A press on an answer button: who presses, which option, and when. *)
Record Submission := mkSubmission {
  subUser : string;
  subAnswer : string;
  subTime : Z
}.

(** The presses of a round, in the order the database receives them. *)
Definition submitAll (code : string) (subs : list Submission)
    (db : Firestore) : Firestore :=
  foldl
    (λ db s, submitAnswer code (subUser s) (subAnswer s) (subTime s) db)
    db subs.

(** One round on the host screen: the players answer, each on a screen
    that shows the database as it is, the host reveals the answers, the
    hook writes the scores, and the host presses the button below the
    answers at the time [r.2]. *)
Definition playRound (code hostId : string) (st : Firestore * HostScreen)
    (r : list Submission * Z) : Firestore * HostScreen :=
  let answered := submitAll code r.1 st.1 in
  let scored := scoringEffect code (answered, revealNow st.2) in
  advance code hostId r.2 scored.

Definition playRounds (code hostId : string)
    (rounds : list (list Submission * Z)) (st : Firestore * HostScreen)
  : Firestore * HostScreen :=
  foldl (playRound code hostId) st rounds.

(** What one press does to the document of the player [uid]. *)
Definition acceptSubmission (q : Question) (uid : string) (p : PlayerDoc)
    (s : Submission) : PlayerDoc :=
  if bool_decide (subUser s = uid) && bool_decide (subAnswer s ∈ options q)
     && negb (truthy_string (lastAnswer p))
  then set_answer (Some (subAnswer s)) (Some (subTime s)) p
  else p.

(** The first press of the player [uid] on an option of the question. *)
Definition firstAnswer (q : Question) (uid : string)
    (subs : list Submission) : option Submission :=
  find
    (λ s, bool_decide (subUser s = uid)
          && bool_decide (subAnswer s ∈ options q))
    subs.

(** The points of the player [uid] for a round on the question [q] that
    started at [start]: the score of the response time of the first press,
    when that was on the correct answer. *)
Definition roundPoints (q : Question) (start : option Z) (uid : string)
    (subs : list Submission) : Z :=
  match firstAnswer q uid subs with
  | Some s =>
      if bool_decide (subAnswer s = correctAnswer q)
      then calculateScore (inject_Z (subTime s - to_number start))
      else 0
  | None => 0
  end.

(** The points the press of the button below the question [q] adds for
    the player [uid], when the question [next] follows and the press is
    made at [now]: the answer the player gave to [q] is still stored when
    the hook runs on [next], so it earns the score of its timestamp against
    the new start time [now] when it equals the correct answer of
    [next]. *)
Definition carriedPoints (q next : Question) (now : Z) (uid : string)
    (subs : list Submission) : Z :=
  match firstAnswer q uid subs with
  | Some s =>
      if bool_decide (subAnswer s = correctAnswer next)
      then calculateScore (inject_Z (subTime s - now))
      else 0
  | None => 0
  end.

(** The carried points of the rounds on the questions [qs]. *)
Fixpoint carriedGamePoints (qs : list Question) (uid : string)
    (rounds : list (list Submission * Z)) {struct rounds} : Z :=
  match rounds, qs with
  | r :: rounds', q :: qs' =>
      match qs' with
      | next :: _ => carriedPoints q next r.2 uid r.1
      | [] => 0
      end
      + carriedGamePoints qs' uid rounds'
  | _, _ => 0
  end.

(** The points of the player over the rounds on the questions [qs], the
    first of which started at [start], all on one host screen: the round
    points of the first question, and the carried points of every round
    that a further question follows. The reveal of a later question adds
    nothing, the hook having marked the question when it was reached. *)
Definition gamePoints (qs : list Question) (start : option Z) (uid : string)
    (rounds : list (list Submission * Z)) : Z :=
  match rounds, qs with
  | r :: _, q :: _ =>
      roundPoints q start uid r.1 + carriedGamePoints qs uid rounds
  | _, _ => 0
  end.

(** The sample session in the lobby, as the handlers build it: the host
    has created the game, Ann has joined and the host has loaded two
    questions. *)
Definition readyDb : Firestore :=
  uploadCSV "AB12" "host" (λ _ _, randomZero) sampleCsv
    (handleJoinGame "ann" "Ann" "ab12" 6
       (handleCreateGame "host" "Hana" [10; 11; 1; 2]%nat 5 emptyDb).1).1.

(** A session whose two questions have the same correct answer, in the
    lobby with its questions loaded, and started by the host. *)
Definition repeatCsv : string :=
  "Capital of France?,Paris,Rome,Oslo
Largest city of France?,Paris,Lyon".

Definition repeatReadyDb : Firestore :=
  uploadCSV "AB12" "host" (λ _ _, randomZero) repeatCsv
    (handleJoinGame "ann" "Ann" "ab12" 6
       (handleCreateGame "host" "Hana" [10; 11; 1; 2]%nat 5 emptyDb).1).1.

Definition repeatDb : Firestore :=
  startGame "AB12" "host" 1000000 repeatReadyDb.

(** That session when Ann has answered the first question after six
    seconds and the host has revealed the answers. *)
Definition repeatRevealed : Firestore * HostScreen :=
  scoringEffect "AB12"
    (submitAnswer "AB12" "ann" "Paris" 1006000 repeatDb,
     revealNow mountHostScreen).

(** The sample session started by the host, and the same after Ann has
    pressed Paris on her screen. *)
Definition startedDb : Firestore := startGame "AB12" "host" 1000000 readyDb.

Definition pressedDb : Firestore :=
  pressAnswer "AB12" "ann" "Paris" 1006000 startedDb startedDb.

(** Two rounds of Ann in that session: the correct answer after six
    seconds, and the correct answer two seconds after the host has moved
    on. *)
Definition repeatRounds : list (list Submission * Z) :=
  [ ([mkSubmission "ann" "Paris" 1006000], 1031000);
    ([mkSubmission "ann" "Paris" 1033000], 1062000) ].

(** Two rounds of Ann: the correct answer after six seconds, then a wrong
    answer followed by the correct one. *)
Definition sampleRounds : list (list Submission * Z) :=
  [ ([mkSubmission "ann" "Paris" 1006000], 1031000);
    ([mkSubmission "ann" "5" 1040000; mkSubmission "ann" "4" 1041000],
     1062000) ].

(** Games and player documents belong together: the host of a game has a
    player document in it, and a player document lies in a game. *)
Definition noOrphans (db : Firestore) : Prop :=
  (∀ code g, gameDocs db !! code = Some g →
     is_Some (playersOf db code !! hostUserId g))
  ∧ (∀ code uid p, playersOf db code !! uid = Some p →
       is_Some (gameDocs db !! code)).

(** * Properties *)

(** ** The scoring service *)

Section Rounding.

Lemma Math_round_mono (x y : Q) : (x <= y)%Q → Math_round x ≤ Math_round y.
Proof.
  intros Hxy. unfold Math_round. apply Qfloor_resp_le.
  apply Qplus_le_compat; [exact Hxy | apply Qle_refl].
Qed.

Lemma Math_round_inject (n : Z) : Math_round (inject_Z n) = n.
Proof.
  unfold Math_round, Qfloor, inject_Z, Qplus; simpl.
  rewrite Z.mul_1_r.
  replace (n * 2 + 1) with (1 + n * 2) by lia.
  rewrite Z.div_add by lia. reflexivity.
Qed.

End Rounding.

Section CalculateScore.

Local Open Scope Q_scope.

Lemma calculateScore_nonneg (rt : Q) :
  0 <= rt →
  calculateScore rt
  = Z.max MIN_SCORE
      (Math_round (inject_Z MAX_SCORE
                   - (inject_Z MAX_SCORE - inject_Z MIN_SCORE) * timeRatio rt)).
Proof.
  intros Hrt. unfold calculateScore.
  apply Qle_bool_iff in Hrt. by rewrite Hrt.
Qed.

Lemma calculateScore_negative (rt : Q) : rt < 0 → calculateScore rt = MIN_SCORE.
Proof.
  intros Hrt. unfold calculateScore.
  destruct (Qle_bool 0 rt) eqn:Hle; [|done].
  apply Qle_bool_iff in Hle. exfalso. lra.
Qed.

Lemma timeRatio_mono (rt1 rt2 : Q) : rt1 <= rt2 → timeRatio rt1 <= timeRatio rt2.
Proof.
  intros H12. unfold timeRatio. apply Q.min_le_compat_r.
  unfold Qdiv. repeat apply Qmult_le_compat_r; try exact H12; by vm_compute.
Qed.

Lemma timeRatio_range (rt : Q) : 0 <= rt → 0 <= timeRatio rt <= 1.
Proof.
  intros Hrt. unfold timeRatio. split; [|apply Q.le_min_r].
  apply Q.min_glb; [|by vm_compute].
  unfold Qdiv. repeat apply Qmult_le_0_compat; try exact Hrt; by vm_compute.
Qed.

Lemma calculateScore_antitone (rt1 rt2 : Q) :
  0 <= rt1 → rt1 <= rt2 → (calculateScore rt2 ≤ calculateScore rt1)%Z.
Proof.
  intros H1 H12. rewrite !calculateScore_nonneg by lra.
  apply Z.max_le_compat_l, Math_round_mono.
  pose proof (timeRatio_mono rt1 rt2 H12) as Hr.
  change (inject_Z MAX_SCORE) with 1000. change (inject_Z MIN_SCORE) with 500.
  lra.
Qed.

Lemma calculateScore_range (rt : Q) :
  (MIN_SCORE ≤ calculateScore rt ≤ MAX_SCORE)%Z.
Proof.
  destruct (Qlt_le_dec rt 0) as [Hneg|Hpos].
  - rewrite calculateScore_negative by done. by vm_compute.
  - rewrite calculateScore_nonneg by done. split; [apply Z.le_max_l|].
    apply Z.max_lub; [by vm_compute|].
    etransitivity;
      [apply (Math_round_mono _ (inject_Z MAX_SCORE))
      |by rewrite Math_round_inject].
    pose proof (timeRatio_range rt Hpos) as [Hr _].
    change (inject_Z MAX_SCORE) with 1000. change (inject_Z MIN_SCORE) with 500.
    lra.
Qed.

(** On a response time that is not negative the inline formula of the host
    screen and the scoring service agree. *)
Lemma inlineScore_calculateScore (rt : Q) :
  0 <= rt → inlineScore rt = calculateScore rt.
Proof.
  intros Hrt. rewrite calculateScore_nonneg by done.
  unfold inlineScore. rewrite Z.max_comm. reflexivity.
Qed.

End CalculateScore.

Lemma pointsAwarded_incorrect (q : Question) (start : option Z) (p : PlayerDoc) :
  lastAnswer p ≠ Some (correctAnswer q) → pointsAwarded q start p = 0.
Proof.
  intros Hne. unfold pointsAwarded, scoreIncrease.
  by rewrite (bool_decide_eq_false_2 _ Hne).
Qed.

Lemma pointsAwarded_correct (q : Question) (start : option Z) (p : PlayerDoc)
    (ts : Z) :
  lastAnswer p = Some (correctAnswer q) →
  answerTimestamp p = Some ts → ts ≠ 0 →
  pointsAwarded q start p = calculateScore (inject_Z (ts - to_number start)).
Proof.
  intros Hans Hts Hne. unfold pointsAwarded, scoreIncrease.
  rewrite (bool_decide_eq_true_2 _ Hans), Hts. simpl.
  apply Z.eqb_neq in Hne. by rewrite Hne.
Qed.

(** C3. For response times [t1 <= t2] within the 30 seconds of a question
    the score of a correct answer does not increase from [t1] to [t2], it
    lies between 500 and 1000, it is 1000 at 0 seconds and 500 at 30
    seconds. A player whose answer is the correct one, given at time [ts],
    receives the score of the response time [ts - start]; a player whose
    answer is absent or not the correct one receives 0 points. *)
Theorem score_decays_linearly (t1 t2 : Q) (q : Question) (start : option Z)
    (p : PlayerDoc) (ts : Z) :
  (0 <= t1)%Q → (t1 <= t2)%Q → (t2 <= 30)%Q →
  scoreAtSeconds t2 ≤ scoreAtSeconds t1
  ∧ 500 ≤ scoreAtSeconds t1 ≤ 1000
  ∧ scoreAtSeconds 0 = 1000
  ∧ scoreAtSeconds 30 = 500
  ∧ (lastAnswer p = Some (correctAnswer q) →
     answerTimestamp p = Some ts → ts ≠ 0 →
     pointsAwarded q start p
     = calculateScore (inject_Z (ts - to_number start)))
  ∧ (lastAnswer p ≠ Some (correctAnswer q) → pointsAwarded q start p = 0).
Proof.
  intros H0 H12 H30. unfold scoreAtSeconds.
  split; [apply calculateScore_antitone; lra|].
  split; [apply calculateScore_range|].
  split; [reflexivity|]. split; [reflexivity|].
  split; [apply pointsAwarded_correct | apply pointsAwarded_incorrect].
Qed.

Lemma score_decays_linearly_witness :
  scoreAtSeconds 20 ≤ scoreAtSeconds 10
  ∧ 500 ≤ scoreAtSeconds 10 ≤ 1000
  ∧ scoreAtSeconds 0 = 1000
  ∧ scoreAtSeconds 30 = 500
  ∧ pointsAwarded (mkQuestion (CsvId 0) "2+2?" "4" ["4"; "5"]) (Some 1000000)
      (mkPlayerDoc "Bob" 0 false (Some "5"%string) (Some 1003000) 7) = 0.
Proof.
  destruct (score_decays_linearly 10 20
              (mkQuestion (CsvId 0) "2+2?" "4" ["4"; "5"]) (Some 1000000)
              (mkPlayerDoc "Bob" 0 false (Some "5"%string) (Some 1003000) 7)
              1003000)
    as (Hm & Hr & H0 & H30 & _ & Hw); [by vm_compute..|].
  assert (Hi : pointsAwarded (mkQuestion (CsvId 0) "2+2?" "4" ["4"; "5"])
                 (Some 1000000)
                 (mkPlayerDoc "Bob" 0 false (Some "5"%string) (Some 1003000) 7)
               = 0) by (apply Hw; discriminate).
  exact (conj Hm (conj Hr (conj H0 (conj H30 Hi)))).
Defined.

Lemma pointsAwarded_correct_range (q : Question) (start : option Z)
    (p : PlayerDoc) :
  lastAnswer p = Some (correctAnswer q) →
  MIN_SCORE ≤ pointsAwarded q start p ≤ MAX_SCORE.
Proof.
  intros Hans. unfold pointsAwarded, scoreIncrease.
  rewrite (bool_decide_eq_true_2 _ Hans). simpl.
  destruct (truthy_number _); apply calculateScore_range.
Qed.

Lemma pointsAwarded_range (q : Question) (start : option Z) (p : PlayerDoc) :
  0 ≤ pointsAwarded q start p ≤ MAX_SCORE.
Proof.
  unfold pointsAwarded, scoreIncrease.
  destruct (bool_decide _); simpl; [|by vm_compute].
  destruct (truthy_number _);
    match goal with
    | |- _ ≤ calculateScore ?rt ≤ _ =>
        pose proof (calculateScore_range rt) as [Hlo Hhi]
    end; split; try exact Hhi;
    (etransitivity; [|exact Hlo]); by vm_compute.
Qed.

(** ** The database *)

Section FirestoreFacts.

Implicit Types (db : Firestore) (code uid : string).

Lemma Firestore_eq db1 db2 :
  gameDocs db1 = gameDocs db2 → playerDocs db1 = playerDocs db2 → db1 = db2.
Proof. destruct db1, db2; simpl; intros -> ->; reflexivity. Qed.

Lemma playersOf_setPlayerDoc code uid p db k :
  playersOf (setPlayerDoc code uid p db) code !! k
  = if decide (uid = k) then Some p else playersOf db code !! k.
Proof.
  unfold playersOf at 1, setPlayerDoc; simpl.
  rewrite lookup_insert_eq; simpl. apply lookup_insert.
Qed.

Lemma playerDocs_setPlayerDoc_ne code uid p db c :
  c ≠ code → playerDocs (setPlayerDoc code uid p db) !! c = playerDocs db !! c.
Proof. intros Hc. unfold setPlayerDoc; simpl. by rewrite lookup_insert_ne. Qed.

Lemma playersOf_setPlayerDoc_ne code uid p db c :
  c ≠ code → playersOf (setPlayerDoc code uid p db) c = playersOf db c.
Proof.
  intros Hc. unfold playersOf. by rewrite playerDocs_setPlayerDoc_ne.
Qed.

Lemma updatePlayerDoc_Some code uid f db p :
  playersOf db code !! uid = Some p →
  updatePlayerDoc code uid f db = Some (setPlayerDoc code uid (f p) db).
Proof. intros Hp. unfold updatePlayerDoc. by rewrite Hp. Qed.

Lemma playersOf_updateAllPlayers code f db :
  playersOf (updateAllPlayers code f db) code = f <$> playersOf db code.
Proof.
  unfold updateAllPlayers, playersOf.
  destruct (playerDocs db !! code) as [ps|] eqn:Hps; simpl.
  - by rewrite lookup_insert_eq.
  - rewrite Hps; simpl. by rewrite fmap_empty.
Qed.

Lemma playersOf_updateAllPlayers_ne code f db c :
  c ≠ code → playersOf (updateAllPlayers code f db) c = playersOf db c.
Proof.
  intros Hc. unfold updateAllPlayers, playersOf.
  destruct (playerDocs db !! code); simpl; [|done].
  by rewrite lookup_insert_ne.
Qed.

Lemma gameDocs_updateAllPlayers code f db :
  gameDocs (updateAllPlayers code f db) = gameDocs db.
Proof. unfold updateAllPlayers. by destruct (playerDocs db !! code). Qed.

Lemma gameDocs_setGameDoc code g db c :
  gameDocs (setGameDoc code g db) !! c
  = if decide (code = c) then Some g else gameDocs db !! c.
Proof. unfold setGameDoc; simpl. apply lookup_insert. Qed.

Lemma set_score_same p : set_score (score p) p = p.
Proof. by destruct p. Qed.

End FirestoreFacts.

(** ** The [useScoring] hook *)

Section UseScoring.

Variables (code : string) (q : Question) (start : option Z).

Lemma scoreOnePlayer_step db k v :
  playersOf db code !! k = Some v →
  ∃ db1,
    scoreOnePlayer code q start (db, true) (k, v) = (db1, true)
    ∧ gameDocs db1 = gameDocs db
    ∧ (∀ c, c ≠ code → playerDocs db1 !! c = playerDocs db !! c)
    ∧ (is_Some (playerDocs db !! code) → is_Some (playerDocs db1 !! code))
    ∧ (∀ k', playersOf db1 code !! k'
             = if decide (k = k') then Some (awardedPlayer q start v)
               else playersOf db code !! k').
Proof.
  intros Hk. unfold scoreOnePlayer, awardedPlayer, pointsAwarded; simpl.
  destruct (scoreIncrease q start v) as [inc|] eqn:Hinc; simpl.
  - rewrite (updatePlayerDoc_Some _ _ _ _ _ Hk).
    eexists; split; [reflexivity|]. split; [reflexivity|].
    split; [intros c Hc; by apply playerDocs_setPlayerDoc_ne|].
    split; [intros _; unfold setPlayerDoc; simpl;
            rewrite lookup_insert_eq; eauto|].
    intros k'. apply playersOf_setPlayerDoc.
  - exists db. repeat split; try done.
    intros k'. rewrite Z.add_0_r, set_score_same.
    case_decide; by subst.
Qed.

Lemma scoreFold_spec (l : list (string * PlayerDoc)) : ∀ db,
  NoDup l.*1 →
  (∀ k v, (k, v) ∈ l → playersOf db code !! k = Some v) →
  ∃ db',
    foldl (scoreOnePlayer code q start) (db, true) l = (db', true)
    ∧ gameDocs db' = gameDocs db
    ∧ (∀ c, c ≠ code → playerDocs db' !! c = playerDocs db !! c)
    ∧ (is_Some (playerDocs db !! code) → is_Some (playerDocs db' !! code))
    ∧ (∀ k v, (k, v) ∈ l →
              playersOf db' code !! k = Some (awardedPlayer q start v))
    ∧ (∀ k, k ∉ l.*1 → playersOf db' code !! k = playersOf db code !! k).
Proof.
  induction l as [|[k v] l IH]; intros db Hnd Hin.
  - exists db. repeat split; try done.
    intros k v Hkv. by apply elem_of_nil in Hkv.
  - simpl in Hnd. apply NoDup_cons in Hnd as [Hk Hnd].
    destruct (scoreOnePlayer_step db k v)
      as (db1 & Hstep & Hg1 & Hc1 & Hs1 & Hl1).
    { apply Hin. left. }
    destruct (IH db1 Hnd) as (db' & Hfold & Hg & Hc & Hs & Hl & Hnl).
    { intros k' v' Hkv'. rewrite Hl1. case_decide as Hkk.
      - subst k'. exfalso. apply Hk. apply list_elem_of_fmap.
        by exists (k, v').
      - apply Hin. by right. }
    exists db'. simpl. rewrite Hstep. split; [exact Hfold|].
    split; [congruence|].
    split; [intros c Hcc; rewrite Hc, Hc1; done|].
    split; [auto|].
    split.
    + intros k' v' Hkv'. apply elem_of_cons in Hkv' as [Heq|Hkv'].
      * inversion Heq; subst k' v'. rewrite Hnl by exact Hk.
        rewrite Hl1. by rewrite decide_True.
      * by apply Hl.
    + intros k' Hk'. apply not_elem_of_cons in Hk' as [Hne Hk'].
      rewrite Hnl by exact Hk'. rewrite Hl1. by rewrite decide_False.
Qed.

(** A scoring run over the current snapshot rejects no update, and leaves
    the database as if every player document had been mapped through
    [scoredPlayer]. *)
Lemma scoreFold_snapshot db :
  foldl (scoreOnePlayer code q start) (db, true)
    (activePlayersOf (playersSnapshot db code))
  = (updateAllPlayers code (scoredPlayer q start) db, true).
Proof.
  set (l := activePlayersOf (playersSnapshot db code)).
  assert (Hl : ∀ k v, (k, v) ∈ l
                      ↔ playersOf db code !! k = Some v ∧ isHost v = false).
  { intros k v. unfold l, activePlayersOf, playersSnapshot.
    rewrite list_elem_of_filter, elem_of_map_to_list. simpl. tauto. }
  destruct (scoreFold_spec l db) as (db' & Hfold & Hg & Hc & Hs & Hin & Hout).
  { unfold l, activePlayersOf, playersSnapshot.
    apply NoDup_fmap_fst.
    - intros k v1 v2 [_ H1]%list_elem_of_filter [_ H2]%list_elem_of_filter.
      apply elem_of_map_to_list in H1, H2. congruence.
    - apply NoDup_filter, NoDup_map_to_list. }
  { intros k v Hkv. by apply Hl in Hkv as [? _]. }
  rewrite Hfold. f_equal.
  assert (Hlook : ∀ k, playersOf db' code !! k
                       = scoredPlayer q start <$> playersOf db code !! k).
  { intros k. destruct (playersOf db code !! k) as [v|] eqn:Hv; simpl.
    - unfold scoredPlayer. destruct (isHost v) eqn:Hh.
      + rewrite Hout; [done|]. intros ([k' v'] & -> & Hkv)%list_elem_of_fmap.
        apply Hl in Hkv as [Hkv Hh']. simpl in *. congruence.
      + apply Hin. by apply Hl.
    - rewrite Hout; [done|]. intros ([k' v'] & -> & Hkv)%list_elem_of_fmap.
      apply Hl in Hkv as [Hkv _]. simpl in *. congruence. }
  apply Firestore_eq.
  - by rewrite gameDocs_updateAllPlayers.
  - apply map_eq. intros c. unfold updateAllPlayers.
    destruct (decide (c = code)) as [->|Hne].
    + destruct (playerDocs db !! code) as [ps|] eqn:Hps; simpl.
      * rewrite lookup_insert_eq.
        destruct Hs as [ps' Hps']; [eauto|]. rewrite Hps'. f_equal.
        apply map_eq. intros k. specialize (Hlook k).
        unfold playersOf in Hlook. rewrite Hps', Hps in Hlook. simpl in Hlook.
        by rewrite lookup_fmap.
      * destruct (playerDocs db' !! code) as [ps'|] eqn:Hps'; [|by rewrite Hps].
        rewrite Hps. exfalso.
        (* without a players collection the snapshot is empty *)
        assert (l = []) as Hnil.
        { unfold l, activePlayersOf, playersSnapshot, playersOf.
          rewrite Hps. simpl. by rewrite map_to_list_empty. }
        rewrite Hnil in Hfold. simpl in Hfold. inversion Hfold; subst db'.
        congruence.
    + rewrite Hc by done.
      destruct (playerDocs db !! code); simpl; [|done].
      by rewrite lookup_insert_ne.
Qed.

End UseScoring.

Section ScoringEffect.

Variable code : string.

Lemma scoringEffect_run db h g q :
  gameDocs db !! code = Some g →
  currentQuestionOf (Some g) = Some q →
  code ≠ EmptyString →
  showAnswers h = true →
  lastRunQuestionId h ≠ Some (qid q) →
  scoringEffect code (db, h)
  = (updateAllPlayers code (scoredPlayer q (currentQuestionStartTime g)) db,
     set_lastRunQuestionId (Some (qid q)) h).
Proof.
  intros Hg Hq Hcode Hshow Hlast. unfold scoringEffect, useScoring_run; simpl.
  rewrite Hg, Hq, Hshow.
  rewrite (bool_decide_eq_false_2 _ Hcode); simpl.
  rewrite (bool_decide_eq_false_2 _ Hlast).
  by rewrite scoreFold_snapshot.
Qed.

Lemma scoringEffect_marked db h g q :
  gameDocs db !! code = Some g →
  currentQuestionOf (Some g) = Some q →
  lastRunQuestionId h = Some (qid q) →
  scoringEffect code (db, h) = (db, h).
Proof.
  intros Hg Hq Hlast. unfold scoringEffect, useScoring_run; simpl.
  rewrite Hg, Hq.
  destruct (bool_decide (code = EmptyString) || negb (showAnswers h));
    [done|].
  by rewrite (bool_decide_eq_true_2 _ Hlast).
Qed.

Lemma scoringEffect_cases db h :
  scoringEffect code (db, h) = (db, h)
  ∨ ∃ g q, gameDocs db !! code = Some g
           ∧ currentQuestionOf (Some g) = Some q
           ∧ showAnswers h = true
           ∧ lastRunQuestionId h ≠ Some (qid q)
           ∧ scoringEffect code (db, h)
             = (updateAllPlayers code
                  (scoredPlayer q (currentQuestionStartTime g)) db,
                set_lastRunQuestionId (Some (qid q)) h).
Proof.
  destruct (gameDocs db !! code) as [g|] eqn:Hg; cycle 1.
  { left. unfold scoringEffect, useScoring_run; simpl. rewrite Hg. done. }
  destruct (currentQuestionOf (Some g)) as [q|] eqn:Hq; cycle 1.
  { left. unfold scoringEffect, useScoring_run; simpl. by rewrite Hg, Hq. }
  destruct (decide (code = EmptyString)) as [Hcode|Hcode].
  { left. unfold scoringEffect, useScoring_run; simpl. rewrite Hg, Hq.
    by rewrite (bool_decide_eq_true_2 _ Hcode). }
  destruct (showAnswers h) eqn:Hshow; cycle 1.
  { left. unfold scoringEffect, useScoring_run; simpl.
    rewrite Hg, Hq, Hshow. by rewrite orb_true_r. }
  destruct (decide (lastRunQuestionId h = Some (qid q))) as [Hlast|Hlast].
  { left. by apply (scoringEffect_marked db h g q). }
  right. exists g, q. do 4 (split; [done|]).
  by apply scoringEffect_run.
Qed.

(** The hook writes to player documents only, and of the state of the
    screen it changes the marker only. *)
Lemma gameDocs_scoringEffect st :
  gameDocs (scoringEffect code st).1 = gameDocs st.1.
Proof.
  destruct st as [db h].
  destruct (scoringEffect_cases db h)
    as [-> | (g & q & _ & _ & _ & _ & ->)]; [done|].
  apply gameDocs_updateAllPlayers.
Qed.

Lemma scoringEffect_screen st :
  showAnswers (scoringEffect code st).2 = showAnswers st.2
  ∧ isScoring (scoringEffect code st).2 = isScoring st.2
  ∧ revealTimer (scoringEffect code st).2 = revealTimer st.2.
Proof.
  destruct st as [db h].
  by destruct (scoringEffect_cases db h)
    as [-> | (g & q & _ & _ & _ & _ & ->)].
Qed.


End ScoringEffect.



(** On the sample session three deliveries leave Ann, who answered
    correctly after 6 seconds, with 900 points, and Bob, who answered
    wrongly, with none. *)
Example scoring_sample_scores :
  let db' :=
    (Nat.iter 3 (scoringEffect "AB12") (sampleDb, revealedHostScreen)).1 in
  score <$> playersOf db' "AB12" !! "ann"%string = Some 900
  ∧ score <$> playersOf db' "AB12" !! "bob"%string = Some 0
  ∧ score <$> playersOf db' "AB12" !! "host"%string = Some 0.
Proof. by vm_compute. Qed.

(** The inline scoring effect of the earlier host screen has no marker: a
    second run for the same question, once the first has settled, adds the
    points again. *)
Example inlineScoringEffect_twice :
  let st1 := inlineScoringEffect "AB12" (sampleDb, revealedHostScreen) in
  let st2 := inlineScoringEffect "AB12" st1 in
  score <$> playersOf st1.1 "AB12" !! "ann"%string = Some 900
  ∧ score <$> playersOf st2.1 "AB12" !! "ann"%string = Some 1800.
Proof. by vm_compute. Qed.

(** A host screen that is mounted again has lost the marker of the hook:
    when it reveals the answers of the first question once more, the question
    is scored once more. *)
Example scoring_after_remount :
  score
    <$> playersOf
          (scoringEffect "AB12"
             ((scoringEffect "AB12" (sampleDb, revealedHostScreen)).1,
              revealedHostScreen)).1
          "AB12" !! "ann"%string
  = Some 1800.
Proof. by vm_compute. Qed.

(** *** A correct answer without a timestamp *)

(** The claim that a correct answer without [answerTimestamp] is worth
    [MIN_SCORE] fails: such a player receives 1000 points, from the hook and
    from the inline effect alike. *)
Lemma missing_timestamp_not_min :
  ¬ (∀ (q : Question) (start : option Z) (p : PlayerDoc),
       isHost p = false →
       lastAnswer p = Some (correctAnswer q) →
       answerTimestamp p = None →
       pointsAwarded q start p = MIN_SCORE).
Proof.
  intros H.
  specialize (H (mkQuestion (CsvId 0) "2+2?" "4" ["4"; "5"]) (Some 1000000)
                (mkPlayerDoc "Ann" 0 false (Some "4"%string) None 6)
                eq_refl eq_refl eq_refl).
  vm_compute in H. discriminate H.
Qed.

Lemma pointsAwarded_missing_timestamp (q : Question) (start : option Z)
    (p : PlayerDoc) :
  lastAnswer p = Some (correctAnswer q) →
  answerTimestamp p = None →
  pointsAwarded q start p = MAX_SCORE ∧ inlineIncrease q start p = MAX_SCORE.
Proof.
  intros Hans Hts. unfold pointsAwarded, scoreIncrease, inlineIncrease.
  rewrite (bool_decide_eq_true_2 _ Hans), Hts. by vm_compute.
Qed.

(** C2, amended. When a reveal is scored, a non-host player whose
    [lastAnswer] is the correct answer and whose [answerTimestamp] is missing
    is awarded [MAX_SCORE = 1000] points for the question: the hook scores the
    answer as given at response time 0, and the stored score grows by 1000. *)
Theorem missing_timestamp_awards_max (code : string) (db : Firestore)
    (h : HostScreen) (g : GameDoc) (q : Question) (uid : string)
    (p : PlayerDoc) :
  gameDocs db !! code = Some g →
  currentQuestionOf (Some g) = Some q →
  code ≠ EmptyString →
  showAnswers h = true →
  lastRunQuestionId h ≠ Some (qid q) →
  playersOf db code !! uid = Some p →
  isHost p = false →
  lastAnswer p = Some (correctAnswer q) →
  answerTimestamp p = None →
  pointsAwarded q (currentQuestionStartTime g) p = MAX_SCORE
  ∧ playersOf (scoringEffect code (db, h)).1 code !! uid
    = Some (set_score (score p + 1000) p).
Proof.
  intros Hg Hq Hcode Hshow Hlast Hp Hhost Hans Hts.
  destruct (pointsAwarded_missing_timestamp q (currentQuestionStartTime g) p
              Hans Hts) as [Hpts _].
  split; [exact Hpts|].
  rewrite (scoringEffect_run code db h g q) by done. simpl.
  rewrite playersOf_updateAllPlayers, lookup_fmap, Hp. simpl.
  unfold scoredPlayer, awardedPlayer. by rewrite Hhost, Hpts.
Qed.

Lemma missing_timestamp_awards_max_witness :
  pointsAwarded
    (mkQuestion (CsvId 0) "Capital of France?" "Paris" ["Rome"; "Paris"; "Oslo"])
    (Some 1000000)
    (mkPlayerDoc "Ann" 200 false (Some "Paris"%string) None 6)
  = MAX_SCORE
  ∧ playersOf
      (scoringEffect "AB12"
         (setPlayerDoc "AB12" "ann"
            (mkPlayerDoc "Ann" 200 false (Some "Paris"%string) None 6)
            sampleDb,
          revealedHostScreen)).1
      "AB12" !! "ann"%string
    = Some (mkPlayerDoc "Ann" 1200 false (Some "Paris"%string) None 6).
Proof.
  apply (missing_timestamp_awards_max "AB12"
           (setPlayerDoc "AB12" "ann"
              (mkPlayerDoc "Ann" 200 false (Some "Paris"%string) None 6)
              sampleDb)
           revealedHostScreen
           (sampleGame PLAYING 0 (Some 1000000))
           (mkQuestion (CsvId 0) "Capital of France?" "Paris"
              ["Rome"; "Paris"; "Oslo"])
           "ann"
           (mkPlayerDoc "Ann" 200 false (Some "Paris"%string) None 6));
    by vm_compute.
Defined.

(** ** The CSV parser *)

Section Shuffle.

Context {A : Type}.
Implicit Types (copy array : list A) (random : nat → Random).

Lemma randomValue_bounds (r : Random) : (0 <= randomValue r < 1)%Q.
Proof.
  destruct r as [v Hv]; simpl.
  apply andb_prop in Hv as [H0 H1]. split; [by apply Qle_bool_iff|].
  apply Qnot_le_lt. intros Hle. apply Qle_bool_iff in Hle.
  by rewrite Hle in H1.
Qed.

(** The index drawn in the iteration at [i] lies within [0..i]. *)
Lemma randomBelow_lt (r : Random) (n : nat) :
  (0 < n)%nat → (randomBelow r n < n)%nat.
Proof.
  intros Hn. unfold randomBelow.
  pose proof (randomValue_bounds r) as [H0 H1].
  set (x := (randomValue r * inject_Z (Z.of_nat n))%Q).
  assert (Hx : (x < inject_Z (Z.of_nat n))%Q).
  { unfold x. rewrite <- (Qmult_1_l (inject_Z (Z.of_nat n))) at 2.
    apply Qmult_lt_compat_r; [|exact H1].
    change 0%Q with (inject_Z 0). rewrite <- Zlt_Qlt. lia. }
  assert (Hf : Qfloor x < Z.of_nat n).
  { rewrite Zlt_Qlt. eapply Qle_lt_trans; [apply Qfloor_le|exact Hx]. }
  lia.
Qed.

Lemma swap_Permutation (i j : nat) copy : swap i j copy ≡ₚ copy.
Proof.
  unfold swap.
  destruct (copy !! i) as [x|] eqn:Hi; [|done].
  destruct (copy !! j) as [y|] eqn:Hj; [|done].
  by apply Permutation_insert_swap.
Qed.

Lemma swap_length (i j : nat) copy : length (swap i j copy) = length copy.
Proof. apply Permutation_length, swap_Permutation. Qed.

(** Within the array the swap exchanges the two elements. *)
Lemma swap_lookup (i j : nat) copy x y :
  copy !! i = Some x → copy !! j = Some y →
  swap i j copy !! i = Some y ∧ swap i j copy !! j = Some x.
Proof.
  intros Hi Hj. unfold swap. rewrite Hi, Hj.
  pose proof (lookup_lt_Some _ _ _ Hi). pose proof (lookup_lt_Some _ _ _ Hj).
  destruct (decide (i = j)) as [->|Hne].
  - assert (x = y) as -> by congruence.
    rewrite list_lookup_insert_eq by (by rewrite length_insert). done.
  - rewrite list_lookup_insert_ne by done.
    rewrite list_lookup_insert_eq by done.
    rewrite list_lookup_insert_eq by (by rewrite length_insert). done.
Qed.

Lemma shuffleLoop_Permutation random (i : nat) copy :
  shuffleLoop random i copy ≡ₚ copy.
Proof.
  revert copy. induction i as [|i IH]; intros copy; simpl; [done|].
  by rewrite IH, swap_Permutation.
Qed.

Lemma shuffleArray_Permutation random array :
  shuffleArray random array ≡ₚ array.
Proof. apply shuffleLoop_Permutation. Qed.

End Shuffle.

Section ParseCSV.

Implicit Types (random : nat → Random) (line : string) (q : Question).

Lemma keptOptions_length (fields : list string) :
  (length (keptOptions fields) ≤ 5)%nat.
Proof. unfold keptOptions. rewrite length_take. lia. Qed.

Lemma keptOptions_nonEmpty (fields : list string) :
  Forall (λ o, o ≠ EmptyString) (keptOptions fields).
Proof.
  unfold keptOptions. apply Forall_take, Forall_forall.
  intros o [Ho _]%list_elem_of_filter. unfold nonEmpty in Ho.
  intros ->. by rewrite bool_decide_eq_true_2 in Ho.
Qed.

(** With a correct answer that is not empty the kept options are the
    correct answer followed by the first four distractors that are not
    empty. *)
Lemma keptOptions_cons (correct : string) (distractors : list string) :
  correct ≠ EmptyString →
  keptOptions (correct :: distractors)
  = correct :: take 4 (filter (λ o, nonEmpty o = true) distractors).
Proof.
  intros Hne. unfold keptOptions. rewrite filter_cons_True; [done|].
  unfold nonEmpty. by rewrite bool_decide_eq_false_2.
Qed.

Lemma parseLine_Some random (index : nat) line q :
  parseLine random index line = Some q →
  ∃ text distractors,
    lineParts line = text :: correctAnswer q :: distractors
    ∧ qid q = CsvId index
    ∧ question q = text
    ∧ options q
      = shuffleArray random (keptOptions (correctAnswer q :: distractors))
    ∧ (2 ≤ length (keptOptions (correctAnswer q :: distractors)))%nat.
Proof.
  unfold parseLine.
  destruct (lineParts line) as [|text [|correct distractors]]; [done..|].
  destruct (length (keptOptions (correct :: distractors)) <? 2)%nat eqn:Hlen;
    [done|].
  intros [= <-]. simpl. exists text, distractors.
  apply Nat.ltb_ge in Hlen. done.
Qed.

Lemma parseCSV_elem (random : nat → nat → Random) (csvText : string) q :
  q ∈ parseCSV random csvText →
  ∃ index line,
    csvLines csvText !! index = Some line
    ∧ parseLine (random index) index line = Some q.
Proof.
  unfold parseCSV. destruct (negb (nonEmpty csvText)).
  { by intros ?%elem_of_nil. }
  intros (o & Ho & Hq)%list_elem_of_omap. simpl in Hq. subst o.
  apply list_elem_of_lookup in Ho as [index Ho].
  rewrite list_lookup_imap in Ho.
  destruct (csvLines csvText !! index) as [line|] eqn:Hline; [|done].
  simpl in Ho. inversion Ho as [Hp]. by exists index, line.
Qed.

(** The options of a parsed question are not empty strings. *)
Lemma parseCSV_options_nonEmpty (random : nat → nat → Random)
    (csvText : string) q :
  q ∈ parseCSV random csvText →
  Forall (λ o, o ≠ EmptyString) (options q).
Proof.
  intros (index & line & _ & Hparse)%parseCSV_elem.
  apply parseLine_Some in Hparse as (text & distractors & _ & _ & _ & Hopts & _).
  rewrite Hopts, shuffleArray_Permutation. apply keptOptions_nonEmpty.
Qed.

(** An upload leaves the game with questions whose options are not empty
    strings, when it replaces the question list. *)
Lemma handleCSVUpload_options_nonEmpty (code : string)
    (random : nat → nat → Random) (csvText : string) (db : Firestore)
    (g' : GameDoc) q :
  handleCSVUpload code random csvText db ≠ db →
  gameDocs (handleCSVUpload code random csvText db) !! code = Some g' →
  q ∈ questions g' →
  status g' = UPLOAD ∧ Forall (λ o, o ≠ EmptyString) (options q).
Proof.
  unfold handleCSVUpload.
  destruct (length (parseCSV random csvText) =? 0)%nat; [done|].
  unfold updateGameDoc.
  destruct (gameDocs db !! code) as [g|] eqn:Hg; [|done]. simpl.
  intros _. rewrite lookup_insert_eq. intros [= <-]. simpl.
  intros Hq. split; [done|]. by eapply parseCSV_options_nonEmpty.
Qed.

End ParseCSV.

(** The claim that the correct answer occurs exactly once among the options
    of every retained question fails: the parser keeps a repeated answer
    field, and the line [Q,A,A,B] gives a question whose options hold [A]
    twice. *)
Lemma parseCSV_correct_answer_twice :
  ¬ (∀ (random : nat → nat → Random) (csvText : string) (q : Question),
       q ∈ parseCSV random csvText →
       count_occ string_dec (options q) (correctAnswer q) = 1%nat).
Proof.
  intros H.
  specialize (H (λ _ _, randomZero) "Q,A,A,B"%string
                (mkQuestion (CsvId 0) "Q" "A" ["A"; "B"; "A"])).
  assert (Hin : mkQuestion (CsvId 0) "Q" "A" ["A"; "B"; "A"]
                ∈ parseCSV (λ _ _, randomZero) "Q,A,A,B"%string).
  { apply (list_elem_of_lookup_2 _ 0%nat). by vm_compute. }
  specialize (H Hin). vm_compute in H. discriminate H.
Qed.

(** C10, amended. Every question retained by [parseCSV] comes from a line
    of the text that is not blank; its options are a permutation of the
    first at most five non-empty answer fields of that line (the
    correct-answer field and the distractors, in this order), of which there
    are at least two; and when the correct-answer field is not empty, the
    correct answer is among the options once more often than among the (at
    most four) kept distractors, so exactly once unless a kept distractor
    repeats it. *)
Theorem parseCSV_options (random : nat → nat → Random) (csvText : string)
    (q : Question) :
  q ∈ parseCSV random csvText →
  ∃ line text distractors,
    line ∈ csvLines csvText
    ∧ lineParts line = text :: correctAnswer q :: distractors
    ∧ options q ≡ₚ keptOptions (correctAnswer q :: distractors)
    ∧ (2 ≤ length (options q) ≤ 5)%nat
    ∧ (correctAnswer q ≠ EmptyString →
       count_occ string_dec (options q) (correctAnswer q)
       = S (count_occ string_dec
              (take 4 (filter (λ o, nonEmpty o = true) distractors))
              (correctAnswer q))).
Proof.
  intros (index & line & Hline & Hparse)%parseCSV_elem.
  apply parseLine_Some in Hparse
    as (text & distractors & Hparts & _ & _ & Hopts & Hlen).
  exists line, text, distractors.
  assert (Hperm : options q ≡ₚ keptOptions (correctAnswer q :: distractors)).
  { rewrite Hopts. apply shuffleArray_Permutation. }
  split; [by eapply list_elem_of_lookup_2|].
  split; [exact Hparts|]. split; [exact Hperm|].
  split.
  { rewrite (Permutation_length Hperm).
    split; [exact Hlen | apply keptOptions_length]. }
  intros Hne.
  pose proof (proj1 (Permutation_count_occ string_dec _ _) Hperm
                (correctAnswer q)) as Hcount.
  rewrite Hcount, keptOptions_cons by done. simpl.
  by destruct (string_dec (correctAnswer q) (correctAnswer q)).
Qed.

Lemma parseCSV_options_witness :
  ∃ line text distractors,
    line ∈ csvLines "Capital of France?,Paris,Rome,Oslo"
    ∧ lineParts line = text :: "Paris"%string :: distractors
    ∧ ["Rome"; "Oslo"; "Paris"]
      ≡ₚ keptOptions ("Paris"%string :: distractors)
    ∧ (2 ≤ 3 ≤ 5)%nat
    ∧ ("Paris"%string ≠ EmptyString →
       count_occ string_dec ["Rome"; "Oslo"; "Paris"] "Paris"%string
       = S (count_occ string_dec
              (take 4 (filter (λ o, nonEmpty o = true) distractors))
              "Paris"%string)).
Proof.
  apply (parseCSV_options (λ _ _, randomZero)
           "Capital of France?,Paris,Rome,Oslo"
           (mkQuestion (CsvId 0) "Capital of France?" "Paris"
              ["Rome"; "Oslo"; "Paris"])).
  apply (list_elem_of_lookup_2 _ 0%nat). by vm_compute.
Defined.

(** A line whose correct-answer field is empty is retained when two
    distractors remain, with a correct answer that is none of the
    options. *)
Example parseCSV_empty_correct_answer :
  parseCSV (λ _ _, randomZero) "Q,,A,B"
  = [mkQuestion (CsvId 0) "Q" EmptyString ["B"; "A"]].
Proof. by vm_compute. Qed.

(** ** Room codes and the creation of a game *)

Section GameCode.

Lemma radix36Char_upper (d : nat) :
  (d < 36)%nat → isUpperAlnum (toUpperCaseChar (radix36Char d)) = true.
Proof.
  intros Hd.
  do 36 (destruct d as [|d]; [reflexivity|]). lia.
Qed.

(** The code is made of the first four digits of the fraction. *)
Lemma generateGameCode_digits (fraction : list nat) :
  generateGameCode fraction
  = string_of_list_ascii
      ((λ d, toUpperCaseChar (radix36Char d)) <$> take 4 fraction).
Proof.
  destruct fraction as [|a [|b [|c [|d rest]]]]; try reflexivity.
  unfold generateGameCode, substring, toString36. simpl.
  match goal with
  | |- context [String.substring 0 0 ?s] => by destruct s
  end.
Qed.

Lemma length_string_of_list_ascii (l : list ascii) :
  String.length (string_of_list_ascii l) = length l.
Proof. induction l as [|c l IH]; simpl; congruence. Qed.

Lemma generateGameCode_length (fraction : list nat) :
  String.length (generateGameCode fraction) = (length fraction `min` 4)%nat.
Proof.
  rewrite generateGameCode_digits, length_string_of_list_ascii.
  rewrite length_fmap, length_take. lia.
Qed.

Lemma generateGameCode_upper (fraction : list nat) :
  Forall (λ d, (d < 36)%nat) fraction →
  Forall (λ c, isUpperAlnum c = true)
    (list_ascii_of_string (generateGameCode fraction)).
Proof.
  intros Hdigits. rewrite generateGameCode_digits.
  rewrite list_ascii_of_string_of_list_ascii.
  apply Forall_fmap, Forall_take.
  eapply Forall_impl; [exact Hdigits|]. intros d Hd. simpl.
  by apply radix36Char_upper.
Qed.

Lemma nonEmpty_length (s : string) :
  (0 < String.length s)%nat → nonEmpty s = true.
Proof. destruct s; simpl; [lia|done]. Qed.

End GameCode.

(** The claim about room codes fails on both counts. A random number that
    prints with fewer than four digits gives a shorter code: one half prints
    as [0.i] and gives the code [I]. And a new game whose code equals that of
    a live game is created all the same, replacing the game document of the
    live game: no code is generated a second time. *)
Lemma createGame_code_counterexample :
  generateGameCode [18%nat] = "I"%string
  ∧ status <$> gameDocs sampleDb !! "AB12"%string = Some PLAYING
  ∧ (handleCreateGame "eve" "Eve" [10; 11; 1; 2]%nat 9 sampleDb).2
    = Some "AB12"%string
  ∧ gameDocs (handleCreateGame "eve" "Eve" [10; 11; 1; 2]%nat 9 sampleDb).1
      !! "AB12"%string
    = Some (mkGameDoc "AB12" "eve" LOBBY [] (-1) None).
Proof. by vm_compute. Qed.

(** C9, amended. A room code produced by creating a game consists of
    uppercase alphanumeric characters only, and of exactly four of them
    whenever the random number prints with at least four radix-36 digits.
    Creating a game makes no check for a collision: the game document and the
    host's player document are written under the generated code whatever the
    database holds, so a live game with the same code is replaced. *)
Theorem createGame_code (userId screenName : string) (fraction : list nat)
    (now : Z) (db : Firestore) :
  nonEmpty userId = true →
  nonEmpty screenName = true →
  Forall (λ d, (d < 36)%nat) fraction →
  (4 ≤ length fraction)%nat →
  String.length (generateGameCode fraction) = 4%nat
  ∧ Forall (λ c, isUpperAlnum c = true)
      (list_ascii_of_string (generateGameCode fraction))
  ∧ handleCreateGame userId screenName fraction now db
    = (setPlayerDoc (generateGameCode fraction) userId
         (mkPlayerDoc screenName 0 true None None now)
         (setGameDoc (generateGameCode fraction)
            (mkGameDoc (generateGameCode fraction) userId LOBBY [] (-1) None)
            db),
       Some (generateGameCode fraction))
  ∧ gameDocs (handleCreateGame userId screenName fraction now db).1
      !! generateGameCode fraction
    = Some (mkGameDoc (generateGameCode fraction) userId LOBBY [] (-1) None).
Proof.
  intros Huser Hname Hdigits Hlen.
  assert (Hcode : String.length (generateGameCode fraction) = 4%nat).
  { rewrite generateGameCode_length. lia. }
  assert (Hcreate :
    handleCreateGame userId screenName fraction now db
    = (setPlayerDoc (generateGameCode fraction) userId
         (mkPlayerDoc screenName 0 true None None now)
         (setGameDoc (generateGameCode fraction)
            (mkGameDoc (generateGameCode fraction) userId LOBBY [] (-1) None)
            db),
       Some (generateGameCode fraction))).
  { unfold handleCreateGame. rewrite Huser, Hname; simpl.
    rewrite nonEmpty_length by lia. done. }
  split; [exact Hcode|]. split; [by apply generateGameCode_upper|].
  split; [exact Hcreate|].
  rewrite Hcreate. simpl. apply lookup_insert_eq.
Qed.

Lemma createGame_code_witness :
  String.length (generateGameCode [10; 11; 1; 2; 35]%nat) = 4%nat
  ∧ Forall (λ c, isUpperAlnum c = true)
      (list_ascii_of_string (generateGameCode [10; 11; 1; 2; 35]%nat))
  ∧ handleCreateGame "eve" "Eve" [10; 11; 1; 2; 35]%nat 9 sampleDb
    = (setPlayerDoc (generateGameCode [10; 11; 1; 2; 35]%nat) "eve"
         (mkPlayerDoc "Eve" 0 true None None 9)
         (setGameDoc (generateGameCode [10; 11; 1; 2; 35]%nat)
            (mkGameDoc (generateGameCode [10; 11; 1; 2; 35]%nat) "eve" LOBBY
               [] (-1) None)
            sampleDb),
       Some (generateGameCode [10; 11; 1; 2; 35]%nat))
  ∧ gameDocs (handleCreateGame "eve" "Eve" [10; 11; 1; 2; 35]%nat 9 sampleDb).1
      !! generateGameCode [10; 11; 1; 2; 35]%nat
    = Some (mkGameDoc (generateGameCode [10; 11; 1; 2; 35]%nat) "eve" LOBBY []
              (-1) None).
Proof.
  apply (createGame_code "eve" "Eve" [10; 11; 1; 2; 35]%nat 9 sampleDb);
    [reflexivity | reflexivity | | simpl; lia].
  repeat first [apply List.Forall_cons; [lia|] | apply List.Forall_nil].
Defined.

(** ** Joining a game *)

Section JoinGame.

Implicit Types (db : Firestore) (userId screenName code : string).


Lemma gameDocs_setPlayerDoc code uid p db :
  gameDocs (setPlayerDoc code uid p db) = gameDocs db.
Proof. reflexivity. Qed.

Lemma handleJoinGame_open userId screenName code now db g :
  nonEmpty userId = true → nonEmpty screenName = true →
  gameDocs db !! toUpperCase code = Some g →
  status g = LOBBY ∨ status g = UPLOAD →
  handleJoinGame userId screenName code now db
  = (setPlayerDoc (toUpperCase code) userId
       (mkPlayerDoc screenName 0 false None None now) db,
     Joined).
Proof.
  intros Hu Hn Hg Hst. unfold handleJoinGame. rewrite Hu, Hn, Hg; simpl.
  by destruct Hst as [-> | ->].
Qed.


End JoinGame.




(** ** Starting the game *)

Section StartGame.

Implicit Types (db : Firestore) (code userId : string).

Lemma length_playersSnapshot db code :
  length (playersSnapshot db code) = size (playersOf db code).
Proof. unfold playersSnapshot. by rewrite length_map_to_list. Qed.

Lemma updateGameDoc_Some code f db g :
  gameDocs db !! code = Some g →
  updateGameDoc code f db = Some (setGameDoc code (f g) db).
Proof. intros Hg. unfold updateGameDoc. by rewrite Hg. Qed.

Lemma screenOf_lobby db code userId g :
  gameDocs db !! code = Some g →
  status g = LOBBY ∨ status g = UPLOAD →
  screenOf db code userId = LobbyScreen.
Proof.
  intros Hg Hst. unfold screenOf. rewrite Hg. by destruct Hst as [-> | ->].
Qed.

(** What a start of the game writes. *)
Lemma startGame_started db code userId now g :
  gameDocs db !! code = Some g →
  status g = LOBBY ∨ status g = UPLOAD →
  hostUserId g = userId →
  (1 ≤ length (questions g))%nat →
  (2 ≤ size (playersOf db code))%nat →
  startGame code userId now db
  = setGameDoc code (start_playing now g)
      (updateAllPlayers code reset_for_start db).
Proof.
  intros Hg Hst Hhost Hq Hp. unfold startGame.
  rewrite (screenOf_lobby db code userId g Hg Hst).
  rewrite Hg. unfold startButtonDisabled, isHostOf, questionCount.
  rewrite length_playersSnapshot.
  rewrite (bool_decide_eq_true_2 _ Hhost), bool_decide_eq_true_2 by done.
  destruct (length (questions g) =? 0)%nat eqn:Hq0;
    [apply Nat.eqb_eq in Hq0; lia|].
  destruct (size (playersOf db code) <? 2)%nat eqn:Hp2;
    [apply Nat.ltb_lt in Hp2; lia|].
  simpl. unfold handleStartGame. rewrite Hq0. simpl.
  rewrite (updateGameDoc_Some _ _ _ g);
    [done | by rewrite gameDocs_updateAllPlayers].
Qed.

(** Outside the lobby, without a question, without a second player or for
    another user than the host nothing is written. *)
Lemma startGame_refused db code userId now g :
  gameDocs db !! code = Some g →
  (status g ≠ LOBBY ∧ status g ≠ UPLOAD)
  ∨ hostUserId g ≠ userId
  ∨ length (questions g) = 0%nat
  ∨ (size (playersOf db code) < 2)%nat →
  startGame code userId now db = db.
Proof.
  intros Hg Hno. unfold startGame. rewrite Hg.
  unfold startButtonDisabled, isHostOf, questionCount.
  rewrite length_playersSnapshot.
  destruct Hno as [[H1 H2] | [Hhost | [Hq | Hp]]].
  - assert (Hscreen : screenOf db code userId ≠ LobbyScreen).
    { unfold screenOf, isHostOf. rewrite Hg.
      destruct (status g); try done.
      by destruct (bool_decide (hostUserId g = userId)). }
    by rewrite (bool_decide_eq_false_2 _ Hscreen).
  - rewrite (bool_decide_eq_false_2 _ Hhost).
    by rewrite andb_false_r.
  - rewrite Hq. simpl. by rewrite andb_false_r.
  - apply Nat.ltb_lt in Hp. rewrite Hp, orb_true_r. by rewrite andb_false_r.
Qed.

End StartGame.

(** The claim that a start needs two players beside the host fails: the
    sample lobby holds the host and one player, and the game starts. *)
Lemma startGame_one_player_suffices :
  nonHostCount sampleLobbyDb "AB12" = 1%nat
  ∧ status <$> gameDocs (startGame "AB12" "host" 777 sampleLobbyDb)
                 !! "AB12"%string
    = Some PLAYING.
Proof. by vm_compute. Qed.

(** C5, amended. In the lobby (status LOBBY or UPLOAD) the host starts the
    game when it has at least one question and at least two player records,
    the host's own record counted; otherwise the request writes nothing and
    raises no error. A start sets the status to PLAYING, the current question
    index to 0 and the start timestamp to the current time, and resets the
    score of every player to 0 and the answer and its timestamp to null. *)
Theorem startGame_requirements (code userId : string) (now : Z)
    (db : Firestore) (g : GameDoc) :
  gameDocs db !! code = Some g →
  ((status g = LOBBY ∨ status g = UPLOAD)
   ∧ hostUserId g = userId
   ∧ (1 ≤ length (questions g))%nat
   ∧ (2 ≤ size (playersOf db code))%nat →
   gameDocs (startGame code userId now db) !! code
   = Some (mkGameDoc (gameCode g) (hostUserId g) PLAYING (questions g) 0
             (Some now))
   ∧ ∀ uid p,
       playersOf db code !! uid = Some p →
       playersOf (startGame code userId now db) code !! uid
       = Some (mkPlayerDoc (name p) 0 (isHost p) None None (timestamp p)))
  ∧ ((status g ≠ LOBBY ∧ status g ≠ UPLOAD)
     ∨ hostUserId g ≠ userId
     ∨ length (questions g) = 0%nat
     ∨ (size (playersOf db code) < 2)%nat →
     startGame code userId now db = db).
Proof.
  intros Hg. split.
  - intros (Hst & Hhost & Hq & Hp).
    rewrite (startGame_started db code userId now g) by done.
    split; [apply lookup_insert_eq|].
    intros uid p Hp'.
    change (playersOf (setGameDoc code (start_playing now g)
                         (updateAllPlayers code reset_for_start db))
              code)
      with (playersOf (updateAllPlayers code reset_for_start db) code).
    by rewrite playersOf_updateAllPlayers, lookup_fmap, Hp'.
  - by apply startGame_refused.
Qed.

Lemma startGame_requirements_witness :
  gameDocs (startGame "AB12" "host" 777 sampleLobbyDb) !! "AB12"%string
  = Some (mkGameDoc "AB12" "host" PLAYING sampleQuestions 0 (Some 777))
  ∧ startGame "AB12" "ann" 777 sampleLobbyDb = sampleLobbyDb.
Proof.
  destruct (startGame_requirements "AB12" "host" 777 sampleLobbyDb
              (sampleGame UPLOAD (-1) None) eq_refl)
    as [Hstart _].
  destruct (startGame_requirements "AB12" "ann" 777 sampleLobbyDb
              (sampleGame UPLOAD (-1) None) eq_refl)
    as [_ Hrefused].
  split.
  - apply Hstart. split; [by right|]. repeat split; vm_compute; lia.
  - apply Hrefused. right. left. discriminate.
Defined.

(** ** Submitting an answer *)

Section SubmitAnswer.

Implicit Types (db : Firestore) (code userId answer : string).

(** Finding a player in the snapshot by id is the lookup of the player
    document. *)
Lemma findPlayer_snapshot db code userId :
  findPlayer (playersSnapshot db code) userId
  = (λ p, (userId, p)) <$> playersOf db code !! userId.
Proof.
  unfold findPlayer, playersSnapshot.
  destruct (find _ _) as [[k v]|] eqn:Hfind.
  - apply find_some in Hfind as [Hin Hk]. simpl in Hk.
    apply bool_decide_eq_true_1 in Hk. subst k.
    apply list_elem_of_In, elem_of_map_to_list in Hin. by rewrite Hin.
  - destruct (playersOf db code !! userId) as [v|] eqn:Hv; [|done].
    exfalso.
    apply elem_of_map_to_list, list_elem_of_In in Hv.
    pose proof (find_none _ _ Hfind _ Hv) as Hk. simpl in Hk.
    by rewrite bool_decide_eq_true_2 in Hk.
Qed.

Lemma truthy_string_Some (a : string) :
  a ≠ EmptyString → truthy_string (Some a) = true.
Proof. intros Ha. simpl. by rewrite bool_decide_eq_false_2. Qed.

Lemma screenOf_player db code userId :
  screenOf db code userId = PlayerGameScreen →
  ∃ g, gameDocs db !! code = Some g
       ∧ status g = PLAYING ∧ hostUserId g ≠ userId.
Proof.
  unfold screenOf. destruct (gameDocs db !! code) as [g|]; [|done].
  destruct (status g) eqn:Hst; try done. simpl.
  destruct (bool_decide (hostUserId g = userId)) eqn:Hh; [done|].
  apply bool_decide_eq_false_1 in Hh. intros _. by exists g.
Qed.

Lemma screenOf_player_intro db code uid g :
  gameDocs db !! code = Some g →
  status g = PLAYING → hostUserId g ≠ uid →
  screenOf db code uid = PlayerGameScreen.
Proof.
  intros Hg Hst Hh. unfold screenOf. rewrite Hg, Hst. simpl.
  by rewrite bool_decide_eq_false_2.
Qed.

(** A press that passes the guard of its render writes the answer,
    whatever the database holds for the player and for the game. *)
Lemma pressAnswer_accepted rendered db code uid answer now g q pr p :
  code ≠ EmptyString →
  gameDocs rendered !! code = Some g →
  status g = PLAYING → hostUserId g ≠ uid →
  currentQuestionOf (Some g) = Some q →
  answer ∈ options q →
  playersOf rendered code !! uid = Some pr →
  truthy_string (lastAnswer pr) = false →
  playersOf db code !! uid = Some p →
  pressAnswer code uid answer now rendered db
  = setPlayerDoc code uid (set_answer (Some answer) (Some now) p) db.
Proof.
  intros Hcode Hg Hst Hh Hq Hopt Hpr Ha Hp. unfold pressAnswer.
  rewrite Hg, Hq, (screenOf_player_intro rendered code uid g Hg Hst Hh).
  rewrite !bool_decide_eq_true_2 by done. simpl.
  unfold handleAnswerSubmit, nonEmpty.
  rewrite (bool_decide_eq_false_2 _ Hcode). simpl.
  rewrite findPlayer_snapshot, Hpr. simpl. rewrite Ha.
  by rewrite (updatePlayerDoc_Some _ _ _ _ _ Hp).
Qed.

(** A player who has answered cannot answer again. *)
Lemma submitAnswer_locked db code userId answer now p a :
  playersOf db code !! userId = Some p →
  lastAnswer p = Some a → a ≠ EmptyString →
  submitAnswer code userId answer now db = db.
Proof.
  intros Hp Ha Hne. unfold submitAnswer, pressAnswer.
  destruct (currentQuestionOf _); [|done].
  destruct (_ && _); [|done].
  unfold handleAnswerSubmit. destruct (negb (nonEmpty code)); [done|].
  rewrite findPlayer_snapshot, Hp. simpl.
  by rewrite Ha, (truthy_string_Some a Hne).
Qed.

(** A submission that writes happens on the player screen of a game in
    play, for an option of the current question, by a player whose answer
    is null; it sets the answer and its timestamp and nothing else. *)
Lemma submitAnswer_written db code userId answer now p :
  playersOf db code !! userId = Some p →
  lastAnswer p ≠ Some EmptyString →
  submitAnswer code userId answer now db ≠ db →
  (∃ g q, gameDocs db !! code = Some g ∧ status g = PLAYING
          ∧ currentQuestionOf (Some g) = Some q ∧ answer ∈ options q)
  ∧ lastAnswer p = None
  ∧ submitAnswer code userId answer now db
    = setPlayerDoc code userId (set_answer (Some answer) (Some now) p) db.
Proof.
  intros Hp Hne. unfold submitAnswer, pressAnswer.
  destruct (currentQuestionOf _) as [q|] eqn:Hq; [|done].
  destruct (bool_decide (screenOf db code userId = PlayerGameScreen))
    eqn:Hscreen; [|done].
  destruct (bool_decide (answer ∈ options q)) eqn:Hopt; [|done]. simpl.
  apply bool_decide_eq_true_1 in Hscreen, Hopt.
  apply screenOf_player in Hscreen as (g & Hg & Hst & _).
  unfold handleAnswerSubmit. destruct (negb (nonEmpty code)); [done|].
  rewrite findPlayer_snapshot, Hp. simpl.
  destruct (lastAnswer p) as [a|] eqn:Ha.
  { rewrite truthy_string_Some; [done|]. congruence. }
  simpl. rewrite (updatePlayerDoc_Some _ _ _ _ _ Hp). simpl. intros _.
  split; [|done]. exists g, q. rewrite Hg in Hq. done.
Qed.

End SubmitAnswer.

(** ** Reachable databases *)

Section Invariant.

Implicit Types (db : Firestore) (code uid : string).

Lemma answersNonEmpty_setGameDoc code g db :
  optionsNonEmpty g → answersNonEmpty db →
  answersNonEmpty (setGameDoc code g db).
Proof.
  intros Hg [Hq Hp]. split; [|exact Hp].
  intros c g' Hc. unfold setGameDoc in Hc; simpl in Hc.
  rewrite lookup_insert in Hc. case_decide; [|by eapply Hq].
  by inversion Hc; subst.
Qed.

Lemma answersNonEmpty_setPlayerDoc code uid p db :
  answerNonEmpty p → answersNonEmpty db →
  answersNonEmpty (setPlayerDoc code uid p db).
Proof.
  intros Hnew [Hq Hp]. split; [exact Hq|].
  intros c u p' Hc. destruct (decide (c = code)) as [->|Hne].
  - rewrite playersOf_setPlayerDoc in Hc. case_decide; [|by eapply Hp].
    by inversion Hc; subst.
  - rewrite playersOf_setPlayerDoc_ne in Hc by done. by eapply Hp.
Qed.

Lemma answersNonEmpty_updateGameDoc code (f : GameDoc → GameDoc) db :
  (∀ g, optionsNonEmpty g → optionsNonEmpty (f g)) →
  answersNonEmpty db →
  answersNonEmpty (default db (updateGameDoc code f db)).
Proof.
  intros Hf Hdb. unfold updateGameDoc.
  destruct (gameDocs db !! code) as [g|] eqn:Hg; [|done]. simpl.
  apply answersNonEmpty_setGameDoc; [|done].
  apply Hf. by eapply (proj1 Hdb).
Qed.

Lemma answersNonEmpty_updatePlayerDoc code uid (f : PlayerDoc → PlayerDoc) db :
  (∀ p, answerNonEmpty p → answerNonEmpty (f p)) →
  answersNonEmpty db →
  answersNonEmpty (default db (updatePlayerDoc code uid f db)).
Proof.
  intros Hf Hdb. unfold updatePlayerDoc.
  destruct (playersOf db code !! uid) as [p|] eqn:Hp; [|done]. simpl.
  apply answersNonEmpty_setPlayerDoc; [|done].
  apply Hf. by eapply (proj2 Hdb).
Qed.

Lemma answersNonEmpty_updateAllPlayers code (f : PlayerDoc → PlayerDoc) db :
  (∀ p, answerNonEmpty p → answerNonEmpty (f p)) →
  answersNonEmpty db →
  answersNonEmpty (updateAllPlayers code f db).
Proof.
  intros Hf [Hq Hp]. split.
  - intros c g. rewrite gameDocs_updateAllPlayers. apply Hq.
  - intros c u p' Hc. destruct (decide (c = code)) as [->|Hne].
    + rewrite playersOf_updateAllPlayers, lookup_fmap in Hc.
      destruct (playersOf db code !! u) as [p|] eqn:Hu; [|done].
      inversion Hc; subst. apply Hf. by eapply Hp.
    + rewrite playersOf_updateAllPlayers_ne in Hc by done. by eapply Hp.
Qed.

Lemma answersNonEmpty_handleEndGame code (isHost : bool) db :
  answersNonEmpty db → answersNonEmpty (handleEndGame code isHost db).
Proof.
  intros [Hq Hp]. unfold handleEndGame. destruct isHost; [|done]. simpl.
  split.
  - intros c g Hc. simpl in Hc. apply lookup_delete_Some in Hc as [_ Hc].
    by eapply Hq.
  - intros c u p Hc. unfold playersOf in Hc; simpl in Hc.
    destruct (decide (c = code)) as [->|Hne].
    + by rewrite lookup_delete_eq in Hc.
    + rewrite lookup_delete_ne in Hc by done. by eapply Hp.
Qed.

Lemma set_questions_optionsNonEmpty (qs : list Question) g :
  (∀ q, q ∈ qs → Forall (λ o, o ≠ EmptyString) (options q)) →
  optionsNonEmpty (set_questions qs g).
Proof. intros Hqs q Hq. by apply Hqs. Qed.

(** The options of a generated question are not empty strings. *)
Lemma truthyStrings_nonEmpty (l : list (option string)) :
  Forall (λ o, o ≠ EmptyString) (truthyStrings l).
Proof.
  unfold truthyStrings. apply Forall_forall. intros o Ho.
  apply list_elem_of_omap in Ho as ([s|] & _ & Hs); [|done].
  simpl in Hs. destruct (bool_decide (s = EmptyString)) eqn:Hd; [done|].
  inversion Hs; subst. by apply bool_decide_eq_false_1 in Hd.
Qed.

Lemma formatQuestion_options (random : nat → Random) (idx : nat)
    (r : RawQuestion) q :
  formatQuestion random idx r = Some q →
  options q
  = shuffleArray random
      (truthyStrings
         [rawCorrectAnswer r; rawDistractor1 r; rawDistractor2 r;
          rawDistractor3 r]).
Proof.
  unfold formatQuestion. destruct (negb _); [done|]. by intros [= <-].
Qed.

Lemma generateQuestions_options_nonEmpty (random : nat → nat → Random)
    (raw : list RawQuestion) q :
  q ∈ generateQuestions random raw →
  Forall (λ o, o ≠ EmptyString) (options q).
Proof.
  unfold generateQuestions.
  intros (o & Ho & Hq)%list_elem_of_omap. simpl in Hq. subst o.
  apply list_elem_of_lookup in Ho as [idx Ho].
  rewrite list_lookup_imap in Ho.
  destruct (raw !! idx) as [r|]; [|done].
  injection Ho as Hf. rewrite (formatQuestion_options _ _ _ _ Hf).
  rewrite shuffleArray_Permutation. apply truthyStrings_nonEmpty.
Qed.

Lemma answersNonEmpty_scoreFold code q (start : option Z)
    (l : list (string * PlayerDoc)) : ∀ acc,
  answersNonEmpty acc.1 →
  answersNonEmpty (foldl (scoreOnePlayer code q start) acc l).1.
Proof.
  induction l as [|entry l IH]; intros acc Hacc; [done|].
  simpl. apply IH. unfold scoreOnePlayer.
  destruct (scoreIncrease q start entry.2) as [inc|]; [|done].
  pose proof (answersNonEmpty_updatePlayerDoc code entry.1
                (set_score (score entry.2 + inc)) acc.1) as Hupd.
  destruct (updatePlayerDoc code entry.1 _ acc.1); simpl in *; [|done].
  by apply Hupd.
Qed.

Lemma answersNonEmpty_scoringEffect code (st : Firestore * HostScreen) :
  answersNonEmpty st.1 → answersNonEmpty (scoringEffect code st).1.
Proof.
  intros Hst. unfold scoringEffect, useScoring_run.
  destruct (currentQuestionOf _) as [q|]; [|done].
  destruct (gameDocs st.1 !! code) as [g|]; [|done].
  destruct (_ || _); [done|]. destruct (bool_decide _); [done|].
  pose proof (answersNonEmpty_scoreFold code q (currentQuestionStartTime g)
                (activePlayersOf (playersSnapshot st.1 code)) (st.1, true) Hst)
    as Hfold.
  by destruct (foldl _ _ _).2.
Qed.

Lemma answersNonEmpty_advance code uid now (st : Firestore * HostScreen) :
  answersNonEmpty st.1 → answersNonEmpty (advance code uid now st).1.
Proof.
  intros Hst. unfold advance.
  destruct (gameDocs st.1 !! code) as [g|]; [|done].
  destruct (_ && _); [|done]. unfold handleNextQuestion.
  destruct (_ <? _).
  - pose proof (answersNonEmpty_updateGameDoc code
                  (set_question (currentQuestionIndex g + 1) now) st.1
                  (λ _ H, H) Hst) as Hupd.
    destruct (updateGameDoc code _ st.1) as [db1|]; [|done]. simpl in *.
    apply answersNonEmpty_updateAllPlayers; [done|].
    by apply (answersNonEmpty_scoringEffect code (db1, st.2)).
  - pose proof (answersNonEmpty_updateGameDoc code (set_status RESULTS) st.1
                  (λ _ H, H) Hst) as Hupd.
    by destruct (updateGameDoc code _ st.1).
Qed.

Lemma answersNonEmpty_pressAnswer code uid answer now rendered db :
  answersNonEmpty rendered → answersNonEmpty db →
  answersNonEmpty (pressAnswer code uid answer now rendered db).
Proof.
  intros Hrendered Hdb. unfold pressAnswer.
  destruct (currentQuestionOf _) as [q|] eqn:Hq; [|done].
  destruct (bool_decide (screenOf _ _ _ = _)); [|done].
  destruct (bool_decide (answer ∈ options q)) eqn:Hopt; [|done]. simpl.
  apply bool_decide_eq_true_1 in Hopt.
  unfold handleAnswerSubmit. destruct (negb _); [done|].
  destruct (findPlayer _ _) as [player|]; [|done].
  destruct (truthy_string _); [done|].
  apply answersNonEmpty_updatePlayerDoc; [|done].
  intros p _. unfold answerNonEmpty; simpl. intros [= ->].
  destruct (gameDocs rendered !! code) as [g|] eqn:Hg; [|done].
  assert (Hqin : q ∈ questions g).
  { unfold currentQuestionOf in Hq.
    destruct (currentQuestionIndex g <? 0); [done|].
    by eapply list_elem_of_lookup_2. }
  pose proof (proj1 Hrendered code g Hg q Hqin) as Hall.
  rewrite Forall_forall in Hall. by apply (Hall _ Hopt).
Qed.

Lemma answersNonEmpty_submitAnswer code uid answer now db :
  answersNonEmpty db → answersNonEmpty (submitAnswer code uid answer now db).
Proof. intros Hdb. by apply answersNonEmpty_pressAnswer. Qed.

Lemma answersNonEmpty_generateAndSave code uid topic random raw rendered db :
  answersNonEmpty db →
  answersNonEmpty (generateAndSave code uid topic random raw rendered db).
Proof.
  intros Hdb. unfold generateAndSave. destruct (bool_decide _); [|done].
  unfold handleGenerateQuestions. destruct (_ || _); [done|].
  destruct (_ =? _)%nat; [done|].
  apply answersNonEmpty_updateGameDoc; [|done].
  intros g _. apply set_questions_optionsNonEmpty.
  intros q. apply generateQuestions_options_nonEmpty.
Qed.

(** In every reachable database the options of the questions and the
    stored answers of the players are not empty strings. *)
Lemma Reachable_answersNonEmpty db : Reachable db → answersNonEmpty db.
Proof.
  induction 1 as [ | userId screenName fraction now db _ IH
                   | userId screenName code now db _ IH
                   | code userId random csvText db _ IH
                   | code userId topic random raw db _ IH
                   | code userId topic random raw rendered db _ _ _ IH
                   | code userId now db _ IH
                   | code userId answer now db _ IH
                   | code userId answer now rendered db _ IHr _ IH
                   | code h db _ IH
                   | code userId now h db _ IH
                   | code userId db _ IH ].
  - split; [intros c g Hc | intros c u p Hc]; by rewrite ?lookup_empty in Hc.
  - unfold handleCreateGame. destruct (_ || _); [done|].
    destruct (negb _); [done|]. simpl.
    apply answersNonEmpty_setPlayerDoc; [done|].
    apply answersNonEmpty_setGameDoc; [|done].
    intros q Hq. by apply elem_of_nil in Hq.
  - unfold handleJoinGame. destruct (_ || _); [done|].
    destruct (gameDocs db !! _); [|done]. destruct (_ && _); [done|]. simpl.
    by apply answersNonEmpty_setPlayerDoc.
  - unfold uploadCSV. destruct (_ && _); [|done]. unfold handleCSVUpload.
    destruct (_ =? _)%nat; [done|].
    apply answersNonEmpty_updateGameDoc; [|done].
    intros g _. apply set_questions_optionsNonEmpty.
    intros q. apply parseCSV_options_nonEmpty.
  - by apply answersNonEmpty_generateAndSave.
  - by apply answersNonEmpty_generateAndSave.
  - unfold startGame. destruct (_ && _); [|done]. unfold handleStartGame.
    destruct (gameDocs db !! code); [|done]. destruct (_ || _); [done|].
    apply answersNonEmpty_updateGameDoc; [by intros g' Hg'|].
    by apply answersNonEmpty_updateAllPlayers.
  - by apply answersNonEmpty_submitAnswer.
  - by apply answersNonEmpty_pressAnswer.
  - by apply (answersNonEmpty_scoringEffect code (db, h)).
  - by apply (answersNonEmpty_advance code userId now (db, h)).
  - unfold endGame. destruct (bool_decide _); [|done].
    by apply answersNonEmpty_handleEndGame.
Qed.

End Invariant.

(** On a screen that shows the database as it is, the first answer
    stands: a submission that writes finds the game in status PLAYING and
    the answer of the player null, and sets the answer and its timestamp;
    once the player has an answer, a further submission leaves the database
    unchanged. *)
Lemma submitAnswer_on_current_screen (code userId answer : string) (now : Z)
    (db : Firestore) (p : PlayerDoc) :
  Reachable db →
  playersOf db code !! userId = Some p →
  (submitAnswer code userId answer now db ≠ db →
   (∃ g, gameDocs db !! code = Some g ∧ status g = PLAYING)
   ∧ lastAnswer p = None
   ∧ playersOf (submitAnswer code userId answer now db) code !! userId
     = Some (mkPlayerDoc (name p) (score p) (isHost p) (Some answer)
               (Some now) (timestamp p)))
  ∧ (lastAnswer p ≠ None →
     submitAnswer code userId answer now db = db
     ∧ playersOf (submitAnswer code userId answer now db) code !! userId
       = Some p).
Proof.
  intros Hreach Hp.
  assert (Hne : lastAnswer p ≠ Some EmptyString).
  { apply Reachable_answersNonEmpty in Hreach as [_ Hanswers].
    by apply (Hanswers code userId p). }
  split.
  - intros Hchanged.
    destruct (submitAnswer_written db code userId answer now p Hp Hne Hchanged)
      as ((g & q & Hg & Hst & _) & Hnull & Hsub).
    split; [by exists g|]. split; [exact Hnull|].
    rewrite Hsub, playersOf_setPlayerDoc. by rewrite decide_True.
  - intros Hset. destruct (lastAnswer p) as [a|] eqn:Ha; [|done].
    assert (Hlocked : submitAnswer code userId answer now db = db).
    { apply (submitAnswer_locked db code userId answer now p a Hp Ha).
      congruence. }
    by rewrite Hlocked.
Qed.

(** C4. The first write does not always win. [handleAnswerSubmit] tests
    the [lastAnswer] of the player of its render, not the one in the
    database, and it does not test the status of the game. A press on a
    player screen that was rendered while the game was in play and the
    answer of the player was null writes the answer and its timestamp,
    whatever answer the player document holds by then and whatever status
    the game has by then; the score stays. *)
Theorem press_on_rendered_screen_overwrites (code uid answer : string)
    (now : Z) (rendered db : Firestore) (g : GameDoc) (q : Question)
    (pr p : PlayerDoc) :
  code ≠ EmptyString →
  gameDocs rendered !! code = Some g →
  status g = PLAYING → hostUserId g ≠ uid →
  currentQuestionOf (Some g) = Some q →
  answer ∈ options q →
  playersOf rendered code !! uid = Some pr →
  lastAnswer pr = None →
  playersOf db code !! uid = Some p →
  playersOf (pressAnswer code uid answer now rendered db) code !! uid
  = Some (mkPlayerDoc (name p) (score p) (isHost p) (Some answer)
            (Some now) (timestamp p))
  ∧ gameDocs (pressAnswer code uid answer now rendered db) = gameDocs db.
Proof.
  intros Hcode Hg Hst Hh Hq Hopt Hpr Ha Hp.
  rewrite (pressAnswer_accepted rendered db code uid answer now g q pr p)
    by (try done; by rewrite Ha).
  split; [|apply gameDocs_setPlayerDoc].
  rewrite playersOf_setPlayerDoc. by rewrite decide_True.
Qed.

(** In the sample session Ann presses Paris at 1006000 and, before her
    screen is rendered anew, Oslo at 1006001: the second write replaces the
    answer and the timestamp of the first. *)
Lemma press_on_rendered_screen_overwrites_witness :
  playersOf pressedDb "AB12" !! "ann"%string
  = Some (mkPlayerDoc "Ann" 0 false (Some "Paris"%string) (Some 1006000) 6)
  ∧ playersOf (pressAnswer "AB12" "ann" "Oslo" 1006001 startedDb pressedDb)
      "AB12" !! "ann"%string
    = Some (mkPlayerDoc "Ann" 0 false (Some "Oslo"%string) (Some 1006001) 6).
Proof.
  assert (Hcode : "AB12"%string ≠ EmptyString) by discriminate.
  assert (Hg : gameDocs startedDb !! "AB12"%string
               = Some (mkGameDoc "AB12" "host" PLAYING
                         (parseCSV (λ _ _, randomZero) sampleCsv) 0
                         (Some 1000000)))
    by (vm_compute; reflexivity).
  assert (Hh : "host"%string ≠ "ann"%string) by discriminate.
  assert (Hq : currentQuestionOf
                 (Some (mkGameDoc "AB12" "host" PLAYING
                          (parseCSV (λ _ _, randomZero) sampleCsv) 0
                          (Some 1000000)))
               = Some (mkQuestion (CsvId 0) "Capital of France?" "Paris"
                         ["Rome"; "Oslo"; "Paris"]))
    by (vm_compute; reflexivity).
  assert (Hopt : "Oslo"%string ∈ ["Rome"; "Oslo"; "Paris"]%string)
    by (apply list_elem_of_further, list_elem_of_here).
  assert (Hpr : playersOf startedDb "AB12" !! "ann"%string
                = Some (mkPlayerDoc "Ann" 0 false None None 6))
    by (vm_compute; reflexivity).
  assert (Hp : playersOf pressedDb "AB12" !! "ann"%string
               = Some (mkPlayerDoc "Ann" 0 false (Some "Paris"%string)
                         (Some 1006000) 6))
    by (vm_compute; reflexivity).
  split; [exact Hp|].
  exact (proj1 (press_on_rendered_screen_overwrites "AB12" "ann" "Oslo"
                  1006001 startedDb pressedDb _ _ _ _ Hcode Hg eq_refl Hh Hq
                  Hopt Hpr eq_refl Hp)).
Defined.

(** The sample session evaluated: the two presses of Ann on one render;
    a further press on the screen that shows the first answer, which writes
    nothing; and a press on the screen of the second question, made when
    the host has just put the game into status RESULTS, which is written to
    the finished game. *)
Example second_press_overwrites_answer :
  let rendered := startGame "AB12" "host" 1000000 readyDb in
  let first := pressAnswer "AB12" "ann" "Paris" 1006000 rendered rendered in
  let second := pressAnswer "AB12" "ann" "Oslo" 1006001 rendered first in
  let asked := hostRound "AB12" "host" (first, mountHostScreen) 1031000 in
  let ended := hostRound "AB12" "host" asked 1062000 in
  let late := pressAnswer "AB12" "ann" "4" 1062001 asked.1 ended.1 in
  playersOf rendered "AB12" !! "ann"%string
  = Some (mkPlayerDoc "Ann" 0 false None None 6)
  ∧ playersOf first "AB12" !! "ann"%string
    = Some (mkPlayerDoc "Ann" 0 false (Some "Paris"%string) (Some 1006000) 6)
  ∧ playersOf second "AB12" !! "ann"%string
    = Some (mkPlayerDoc "Ann" 0 false (Some "Oslo"%string) (Some 1006001) 6)
  ∧ pressAnswer "AB12" "ann" "Oslo" 1006001 first first = first
  ∧ status <$> gameDocs asked.1 !! "AB12"%string = Some PLAYING
  ∧ status <$> gameDocs ended.1 !! "AB12"%string = Some RESULTS
  ∧ playersOf late "AB12" !! "ann"%string
    = Some (mkPlayerDoc "Ann" 0 false (Some "4"%string) (Some 1062001) 6).
Proof. by vm_compute. Qed.

(** ** Advancing to the next question *)

Section Advance.

Implicit Types (db : Firestore) (code userId : string) (h : HostScreen).

Lemma screenOf_host db code userId g :
  gameDocs db !! code = Some g →
  status g = PLAYING → hostUserId g = userId →
  screenOf db code userId = HostGameScreen.
Proof.
  intros Hg Hst Hhost. unfold screenOf. rewrite Hg, Hst. simpl.
  by rewrite bool_decide_eq_true_2.
Qed.

Lemma advance_handleNextQuestion db h code userId now g :
  gameDocs db !! code = Some g →
  status g = PLAYING → hostUserId g = userId →
  showAnswers h = true → isScoring h = false →
  advance code userId now (db, h)
  = handleNextQuestion code g now (scoringEffect code) (db, h).
Proof.
  intros Hg Hst Hhost Hshow Hsc. unfold advance; simpl.
  rewrite Hg, (screenOf_host db code userId g Hg Hst Hhost), Hshow, Hsc.
  by rewrite bool_decide_eq_true_2.
Qed.

(** The press when a further question exists: the game write, the run of
    the hook on the database it leaves, the resets, and the hiding of the
    answers. *)
Lemma advance_next db h code userId now g :
  gameDocs db !! code = Some g →
  status g = PLAYING → hostUserId g = userId →
  showAnswers h = true → isScoring h = false →
  currentQuestionIndex g + 1 < Z.of_nat (length (questions g)) →
  advance code userId now (db, h)
  = (updateAllPlayers code (set_answer None None)
       (scoringEffect code
          (setGameDoc code
             (set_question (currentQuestionIndex g + 1) now g) db, h)).1,
     mkHostScreen false false
       (revealTimer h)
       (lastRunQuestionId
          (scoringEffect code
             (setGameDoc code
                (set_question (currentQuestionIndex g + 1) now g) db, h)).2)).
Proof.
  intros Hg Hst Hhost Hshow Hsc Hlt.
  rewrite (advance_handleNextQuestion db h code userId now g) by done.
  unfold handleNextQuestion. cbn [fst snd].
  apply Z.ltb_lt in Hlt. rewrite Hlt, (updateGameDoc_Some _ _ _ g Hg).
  by destruct (scoringEffect_screen code
                 (setGameDoc code
                    (set_question (currentQuestionIndex g + 1) now g) db, h))
    as (_ & _ & ->).
Qed.

(** The press on the last question. *)
Lemma advance_last db h code userId now g :
  gameDocs db !! code = Some g →
  status g = PLAYING → hostUserId g = userId →
  showAnswers h = true → isScoring h = false →
  Z.of_nat (length (questions g)) ≤ currentQuestionIndex g + 1 →
  advance code userId now (db, h)
  = (setGameDoc code (set_status RESULTS g) db, h).
Proof.
  intros Hg Hst Hhost Hshow Hsc Hge.
  rewrite (advance_handleNextQuestion db h code userId now g) by done.
  unfold handleNextQuestion. cbn [fst snd].
  apply Z.ltb_ge in Hge. by rewrite Hge, (updateGameDoc_Some _ _ _ g Hg).
Qed.

(** What the press does to the game document and to the answers: the
    index grows by 1, the start time becomes the time of the press, every
    answer and answer timestamp becomes null, and no name, host flag or
    join time changes. The scores are those the hook leaves. *)
Lemma advance_next_writes db h code userId now g :
  gameDocs db !! code = Some g →
  status g = PLAYING → hostUserId g = userId →
  showAnswers h = true → isScoring h = false →
  currentQuestionIndex g + 1 < Z.of_nat (length (questions g)) →
  gameDocs (advance code userId now (db, h)).1 !! code
  = Some (mkGameDoc (gameCode g) (hostUserId g) PLAYING (questions g)
            (currentQuestionIndex g + 1) (Some now))
  ∧ showAnswers (advance code userId now (db, h)).2 = false
  ∧ isScoring (advance code userId now (db, h)).2 = false
  ∧ ∀ uid p,
      playersOf db code !! uid = Some p →
      ∃ s, playersOf (advance code userId now (db, h)).1 code !! uid
           = Some (mkPlayerDoc (name p) s (isHost p) None None
                     (timestamp p))
           ∧ score p ≤ s ≤ score p + MAX_SCORE.
Proof.
  intros Hg Hst Hhost Hshow Hsc Hlt.
  rewrite (advance_next db h code userId now g) by done. cbn [fst snd].
  set (g1 := set_question (currentQuestionIndex g + 1) now g).
  split.
  { rewrite gameDocs_updateAllPlayers, gameDocs_scoringEffect. cbn [fst].
    unfold setGameDoc; cbn [gameDocs]. rewrite lookup_insert_eq.
    unfold g1, set_question. by rewrite Hst. }
  split; [done|]. split; [done|].
  intros uid p Hp. rewrite playersOf_updateAllPlayers, lookup_fmap.
  assert (Hp1 : playersOf (setGameDoc code g1 db) code !! uid = Some p)
    by exact Hp.
  destruct (scoringEffect_cases code (setGameDoc code g1 db) h)
    as [-> | (g' & q & _ & _ & _ & _ & ->)]; cbn [fst].
  - rewrite Hp1. exists (score p). split; [done|]. unfold MAX_SCORE. lia.
  - rewrite playersOf_updateAllPlayers, lookup_fmap, Hp1.
    pose proof (pointsAwarded_range q (currentQuestionStartTime g') p)
      as Hrange.
    unfold scoredPlayer, awardedPlayer, set_answer, set_score.
    unfold MAX_SCORE in *.
    destruct (isHost p) eqn:Hhostp; cbn; rewrite ?Hhostp;
      (eexists; split; [reflexivity|]); cbn [score]; lia.
Qed.

(** The press below a revealed question that another question follows:
    the hook scores the stored answers against the question reached. *)
Lemma advance_next_player code hostId uid dbS hS g q' pS (now : Z) :
  code ≠ EmptyString →
  gameDocs dbS !! code = Some g →
  status g = PLAYING → hostUserId g = hostId →
  showAnswers hS = true → isScoring hS = false →
  currentQuestionIndex g + 1 < Z.of_nat (length (questions g)) →
  currentQuestionOf (Some (set_question (currentQuestionIndex g + 1) now g))
  = Some q' →
  lastRunQuestionId hS ≠ Some (qid q') →
  playersOf dbS code !! uid = Some pS → isHost pS = false →
  ∃ db' h',
    advance code hostId now (dbS, hS) = (db', h')
    ∧ gameDocs db' !! code
      = Some (set_question (currentQuestionIndex g + 1) now g)
    ∧ isScoring h' = false
    ∧ lastRunQuestionId h' = Some (qid q')
    ∧ (∀ u pu, playersOf db' code !! u = Some pu → lastAnswer pu = None)
    ∧ playersOf db' code !! uid
      = Some (set_answer None None
                (set_score (score pS + pointsAwarded q' (Some now) pS) pS)).
Proof.
  intros Hcode Hg Hst Hh Hshow Hsc Hlt Hq' Hm Hp Hhost.
  rewrite (advance_next dbS hS code hostId now g) by done.
  set (g1 := set_question (currentQuestionIndex g + 1) now g) in *.
  assert (Hg1 : gameDocs (setGameDoc code g1 dbS) !! code = Some g1).
  { rewrite gameDocs_setGameDoc. by rewrite decide_True. }
  rewrite (scoringEffect_run code (setGameDoc code g1 dbS) hS g1 q')
    by done.
  cbn [fst snd]. eexists _, _. split; [reflexivity|].
  split; [by rewrite !gameDocs_updateAllPlayers|].
  split; [done|]. split; [done|]. split.
  { intros u pu. rewrite playersOf_updateAllPlayers, lookup_fmap.
    destruct (playersOf _ code !! u); [|done]. by intros [= <-]. }
  rewrite !playersOf_updateAllPlayers, !lookup_fmap.
  change (playersOf (setGameDoc code g1 dbS) code)
    with (playersOf dbS code).
  rewrite Hp. simpl. unfold scoredPlayer. by rewrite Hhost.
Qed.

End Advance.

(** C8. Pressing Next changes scores. [handleNextQuestion] writes the
    game document first and hides the answers last, so the hook
    [useScoring] runs in between, on the question reached and on the
    answers of the question that was revealed, which are still stored.
    The press moves the index up by 1, sets the start time to the time of
    the press, clears the answer and the answer timestamp of the player and
    hides the answers, and it adds to the score of a player who is not the
    host the points of the stored answer for the question reached: at
    least 500 when the stored answer equals the correct answer of that
    question. The hook marks the question reached as scored. *)
Theorem advance_scores_stored_answers (code hostId uid : string) (now : Z)
    (db : Firestore) (h : HostScreen) (g : GameDoc) (next : Question)
    (p : PlayerDoc) :
  code ≠ EmptyString →
  gameDocs db !! code = Some g →
  status g = PLAYING → hostUserId g = hostId →
  showAnswers h = true → isScoring h = false →
  0 ≤ currentQuestionIndex g →
  questions g !! Z.to_nat (currentQuestionIndex g + 1) = Some next →
  lastRunQuestionId h ≠ Some (qid next) →
  playersOf db code !! uid = Some p → isHost p = false →
  gameDocs (advance code hostId now (db, h)).1 !! code
  = Some (mkGameDoc (gameCode g) (hostUserId g) PLAYING (questions g)
            (currentQuestionIndex g + 1) (Some now))
  ∧ playersOf (advance code hostId now (db, h)).1 code !! uid
    = Some (mkPlayerDoc (name p)
              (score p + pointsAwarded next (Some now) p) false None None
              (timestamp p))
  ∧ showAnswers (advance code hostId now (db, h)).2 = false
  ∧ lastRunQuestionId (advance code hostId now (db, h)).2 = Some (qid next)
  ∧ (lastAnswer p = Some (correctAnswer next) →
     MIN_SCORE ≤ pointsAwarded next (Some now) p ≤ MAX_SCORE).
Proof.
  intros Hcode Hg Hst Hh Hshow Hsc Hidx Hnext Hm Hp Hhost.
  assert (Hlt : currentQuestionIndex g + 1
                < Z.of_nat (length (questions g))).
  { apply lookup_lt_Some in Hnext. lia. }
  assert (Hq : currentQuestionOf
                 (Some (set_question (currentQuestionIndex g + 1) now g))
               = Some next).
  { unfold currentQuestionOf. simpl.
    destruct (currentQuestionIndex g + 1 <? 0) eqn:Hneg;
      [apply Z.ltb_lt in Hneg; lia|done]. }
  destruct (advance_next_player code hostId uid db h g next p now Hcode Hg
              Hst Hh Hshow Hsc Hlt Hq Hm Hp Hhost)
    as (db' & h' & Hadv & Hg' & _ & Hm' & _ & Hp').
  pose proof (advance_next_writes db h code hostId now g Hg Hst Hh Hshow Hsc
                Hlt) as (Hgame & Hhidden & _).
  split; [exact Hgame|]. rewrite Hadv in *. cbn [fst snd] in *.
  split. { rewrite Hp'. unfold set_answer, set_score. simpl.
           by rewrite Hhost. }
  split; [exact Hhidden|]. split; [exact Hm'|].
  apply pointsAwarded_correct_range.
Qed.

(** The session whose two questions both have the answer Paris: Ann has
    answered the first question after six seconds and holds 900 points
    when the answers are revealed; the press at 1031000 raises her score
    to 1400. *)
Lemma advance_scores_stored_answers_witness :
  playersOf repeatRevealed.1 "AB12" !! "ann"%string
  = Some (mkPlayerDoc "Ann" 900 false (Some "Paris"%string) (Some 1006000) 6)
  ∧ playersOf
      (advance "AB12" "host" 1031000 (repeatRevealed.1, repeatRevealed.2)).1
      "AB12" !! "ann"%string
    = Some (mkPlayerDoc "Ann" 1400 false None None 6).
Proof.
  assert (Hcode : "AB12"%string ≠ EmptyString) by discriminate.
  assert (Hg : gameDocs repeatRevealed.1 !! "AB12"%string
               = Some (mkGameDoc "AB12" "host" PLAYING
                         (parseCSV (λ _ _, randomZero) repeatCsv) 0
                         (Some 1000000)))
    by (vm_compute; reflexivity).
  assert (Hshow : showAnswers repeatRevealed.2 = true)
    by (vm_compute; reflexivity).
  assert (Hsc : isScoring repeatRevealed.2 = false)
    by (vm_compute; reflexivity).
  assert (Hidx : 0 ≤ 0) by lia.
  assert (Hnext : parseCSV (λ _ _, randomZero) repeatCsv
                    !! Z.to_nat (0 + 1)
                  = Some (mkQuestion (CsvId 1) "Largest city of France?"
                            "Paris" ["Lyon"; "Paris"]))
    by (vm_compute; reflexivity).
  assert (Hm : lastRunQuestionId repeatRevealed.2 ≠ Some (CsvId 1))
    by (vm_compute; discriminate).
  assert (Hp : playersOf repeatRevealed.1 "AB12" !! "ann"%string
               = Some (mkPlayerDoc "Ann" 900 false (Some "Paris"%string)
                         (Some 1006000) 6))
    by (vm_compute; reflexivity).
  split; [exact Hp|].
  destruct (advance_scores_stored_answers "AB12" "host" "ann" 1031000
              repeatRevealed.1 repeatRevealed.2 _ _ _ Hcode Hg eq_refl
              eq_refl Hshow Hsc Hidx Hnext Hm Hp eq_refl)
    as (_ & Hscore & _).
  exact Hscore.
Defined.

(** The same session evaluated to the reveal of the second question: the
    hook has marked the second question at the press, so Ann's correct
    answer to it, given two seconds after the press, earns nothing. *)
Example advance_repeat_session :
  let answered := submitAnswer "AB12" "ann" "Paris" 1006000 repeatDb in
  let revealed := scoringEffect "AB12" (answered, revealNow mountHostScreen) in
  let next := advance "AB12" "host" 1031000 revealed in
  let answered2 := submitAnswer "AB12" "ann" "Paris" 1033000 next.1 in
  let revealed2 := scoringEffect "AB12" (answered2, revealNow next.2) in
  playersOf revealed.1 "AB12" !! "ann"%string
  = Some (mkPlayerDoc "Ann" 900 false (Some "Paris"%string) (Some 1006000) 6)
  ∧ lastRunQuestionId revealed.2 = Some (CsvId 0)
  ∧ (currentQuestionIndex <$> gameDocs next.1 !! "AB12"%string = Some 1
     ∧ currentQuestionStartTime <$> gameDocs next.1 !! "AB12"%string
       = Some (Some 1031000))
  ∧ playersOf next.1 "AB12" !! "ann"%string
    = Some (mkPlayerDoc "Ann" 1400 false None None 6)
  ∧ lastRunQuestionId next.2 = Some (CsvId 1)
  ∧ playersOf answered2 "AB12" !! "ann"%string
    = Some (mkPlayerDoc "Ann" 1400 false (Some "Paris"%string)
              (Some 1033000) 6)
  ∧ playersOf revealed2.1 "AB12" !! "ann"%string
    = Some (mkPlayerDoc "Ann" 1400 false (Some "Paris"%string)
              (Some 1033000) 6).
Proof. by vm_compute. Qed.

(** The sample session advanced twice reaches RESULTS. *)
Example advance_sample_results :
  let st0 := (sampleDb, mkHostScreen true false None (Some (CsvId 0))) in
  let st1 := advance "AB12" "host" 1040000 st0 in
  let st2 := advance "AB12" "host" 1080000 (st1.1, set_showAnswers true st1.2) in
  currentQuestionIndex <$> gameDocs st1.1 !! "AB12"%string = Some 1
  ∧ lastAnswer <$> playersOf st1.1 "AB12" !! "ann"%string = Some None
  ∧ status <$> gameDocs st2.1 !! "AB12"%string = Some RESULTS
  ∧ currentQuestionIndex <$> gameDocs st2.1 !! "AB12"%string = Some 1.
Proof. by vm_compute. Qed.

(** The run of the hook between the writes of [handleNextQuestion] marks
    the next question as scored before it was asked. *)
Example scoring_between_the_writes_of_advance :
  lastRunQuestionId
    (scoringEffect "AB12"
       (default sampleDb
          (updateGameDoc "AB12" (set_question 1 1040000) sampleDb),
        mkHostScreen true false None (Some (CsvId 0)))).2
  = Some (CsvId 1).
Proof. by vm_compute. Qed.

(** ** Revealing the answers *)

Section Reveal.

Implicit Types (h : HostScreen) (g : GameDoc).

(** The answers are shown as soon as every player has answered. *)
Lemma revealEffect_all_answered now g h :
  status g = PLAYING →
  truthy_number (currentQuestionStartTime g) = true →
  showAnswers h = false → isScoring h = false →
  showAnswers (revealEffect now (Some g) true h) = true.
Proof.
  intros Hst Hstart Hshow Hsc. unfold revealEffect.
  rewrite bool_decide_eq_true_2, Hstart, Hshow, Hsc by done. done.
Qed.

(** The timer is set 30000 ms after the run of the effect, whatever the
    start timestamp of the question is. *)
Lemma revealEffect_deadline now g (allAnswered : bool) h :
  status g = PLAYING →
  truthy_number (currentQuestionStartTime g) = true →
  revealTimer (revealEffect now (Some g) allAnswered h) = Some (now + 30000).
Proof.
  intros Hst Hstart. unfold revealEffect.
  rewrite bool_decide_eq_true_2, Hstart by done. simpl.
  by destruct (allAnswered && _ && _).
Qed.

(** Before the timer is due nothing is revealed; when it is due the
    answers are shown. *)
Lemma revealTimeout_early now h fireAt :
  revealTimer h = Some fireAt → now < fireAt → revealTimeout now h = h.
Proof.
  intros Ht Hlt. unfold revealTimeout. rewrite Ht.
  apply Z.leb_gt in Hlt. by rewrite Hlt.
Qed.

Lemma revealTimeout_due now h fireAt :
  revealTimer h = Some fireAt → fireAt ≤ now →
  isScoring h = false →
  showAnswers (revealTimeout now h) = true.
Proof.
  intros Ht Hle Hsc. unfold revealTimeout. rewrite Ht.
  apply Z.leb_le in Hle. rewrite Hle, Hsc.
  by destruct (showAnswers h) eqn:Hshow; simpl.
Qed.

(** A second trigger for a question whose answers are shown changes
    nothing but the timer. *)
Lemma reveal_again_noop now (lobbyState : option GameDoc)
    (allAnswered : bool) h :
  showAnswers h = true →
  showAnswers (revealEffect now lobbyState allAnswered h) = true
  ∧ isScoring (revealEffect now lobbyState allAnswered h) = isScoring h
  ∧ lastRunQuestionId (revealEffect now lobbyState allAnswered h)
    = lastRunQuestionId h
  ∧ showAnswers (revealTimeout now h) = true
  ∧ isScoring (revealTimeout now h) = isScoring h
  ∧ lastRunQuestionId (revealTimeout now h) = lastRunQuestionId h.
Proof.
  intros Hshow. unfold revealEffect, revealTimeout. rewrite Hshow.
  rewrite andb_false_r. simpl.
  destruct lobbyState as [g|]; [destruct (_ && _)|];
    destruct (revealTimer h) as [fireAt|]; try destruct (fireAt <=? now);
    simpl; by rewrite ?Hshow.
Qed.

End Reveal.

(** No deadline is recomputed after a restart of the host. The first
    question of the sample session started at 1000000 and Bob has not
    answered; the client of the host shows the host screen. When the page
    of the host is loaded again at 1020000 its state is [loadApp]: it shows
    the home screen, and the attempt to enter the game again is refused,
    the game being in progress. No host screen exists on that client, so it
    has no timer: the deadline 1030000 is not recomputed from the start
    time the game document holds, and at that time nothing is revealed
    there. *)
Lemma host_restart_recomputes_nothing :
  currentQuestionStartTime <$> gameDocs sampleOpenDb !! "AB12"%string
  = Some (Some 1000000)
  ∧ allAnsweredOf (playersSnapshot sampleOpenDb "AB12") = false
  ∧ App_screen (mkApp "AB12" Mode_LOBBY) "host" sampleOpenDb
    = Some HostGameScreen
  ∧ App_screen loadApp "host" sampleOpenDb = None
  ∧ handleJoinGame "host" "Hana" "AB12" 1020000 sampleOpenDb
    = (sampleOpenDb, JoinInProgress)
  ∧ App_handleJoinGame "host" "Hana" "AB12" 1020000 (loadApp, sampleOpenDb)
    = (loadApp, sampleOpenDb)
  ∧ App_revealTimer loadApp "host" 1020000 sampleOpenDb = None
  ∧ App_revealTimer loadApp "host" 1020000 sampleOpenDb
    ≠ Some (1000000 + 30000).
Proof. repeat split; by vm_compute. Qed.

(** C7. For the question of a game in play, the answers are revealed on
    the first of two events: every player who is not the host has an
    answer, which the reveal effect of the host screen sees on its next
    run; or the timer fires that the effect set on its last run, 30000 ms
    after that run. The timer lives in the memory of the host screen and
    counts from the run of the effect at [rendered], whatever start time
    the game document holds, of which the effect tests only that it is
    set. Before the timer is due, and while somebody has not answered,
    nothing is revealed. A second trigger, by the effect or by the timer,
    for a question whose answers are shown changes neither [showAnswers]
    nor the state of the scoring. *)
Theorem reveal_on_answers_or_timer (code : string) (rendered now : Z)
    (db : Firestore) (h : HostScreen) (g : GameDoc) :
  gameDocs db !! code = Some g →
  status g = PLAYING →
  truthy_number (currentQuestionStartTime g) = true →
  showAnswers h = false → isScoring h = false →
  let armed := revealEffectOf code rendered (db, h) in
  (allAnsweredOf (playersSnapshot db code) = true →
   showAnswers armed = true)
  ∧ (allAnsweredOf (playersSnapshot db code) = false →
     showAnswers armed = false
     ∧ revealTimer armed = Some (rendered + 30000)
     ∧ (now < rendered + 30000 → revealTimeout now armed = armed)
     ∧ (rendered + 30000 ≤ now →
        showAnswers (revealTimeout now armed) = true))
  ∧ (∀ (shown : HostScreen) (lobbyState : option GameDoc)
       (allAnswered : bool),
       showAnswers shown = true →
       showAnswers (revealEffect now lobbyState allAnswered shown) = true
       ∧ isScoring (revealEffect now lobbyState allAnswered shown)
         = isScoring shown
       ∧ lastRunQuestionId (revealEffect now lobbyState allAnswered shown)
         = lastRunQuestionId shown
       ∧ showAnswers (revealTimeout now shown) = true
       ∧ isScoring (revealTimeout now shown) = isScoring shown
       ∧ lastRunQuestionId (revealTimeout now shown)
         = lastRunQuestionId shown).
Proof.
  intros Hg Hst Hstart Hshow Hsc armed.
  assert (Htimer : revealTimer armed = Some (rendered + 30000)).
  { unfold armed, revealEffectOf. cbn [fst snd]. rewrite Hg.
    by apply revealEffect_deadline. }
  split; [|split].
  - intros Hall. unfold armed, revealEffectOf. cbn [fst snd].
    rewrite Hg, Hall. by apply revealEffect_all_answered.
  - intros Hopen.
    assert (Hhidden : showAnswers armed = false ∧ isScoring armed = false).
    { unfold armed, revealEffectOf, revealEffect. cbn [fst snd].
      rewrite Hg, Hopen, Hstart. rewrite bool_decide_eq_true_2 by done.
      done. }
    destruct Hhidden as [Hhidden Hidle].
    split; [exact Hhidden|]. split; [exact Htimer|]. split.
    + intros Hearly. by apply (revealTimeout_early now armed _ Htimer).
    + intros Hdue. by apply (revealTimeout_due now armed _ Htimer).
  - intros shown lobbyState allAnswered Hshown.
    by apply reveal_again_noop.
Qed.

Lemma reveal_on_answers_or_timer_witness :
  showAnswers (revealEffectOf "AB12" 1000040 (sampleOpenDb, mountHostScreen))
  = false
  ∧ revealTimer (revealEffectOf "AB12" 1000040 (sampleOpenDb, mountHostScreen))
    = Some 1030040
  ∧ revealTimeout 1030000
      (revealEffectOf "AB12" 1000040 (sampleOpenDb, mountHostScreen))
    = revealEffectOf "AB12" 1000040 (sampleOpenDb, mountHostScreen)
  ∧ showAnswers (revealEffectOf "AB12" 1009000 (sampleDb, mountHostScreen))
    = true.
Proof.
  assert (Hopen : gameDocs sampleOpenDb !! "AB12"%string
                  = Some (sampleGame PLAYING 0 (Some 1000000)))
    by (vm_compute; reflexivity).
  assert (Hg : gameDocs sampleDb !! "AB12"%string
               = Some (sampleGame PLAYING 0 (Some 1000000)))
    by (vm_compute; reflexivity).
  assert (Hwaiting : allAnsweredOf (playersSnapshot sampleOpenDb "AB12")
                     = false) by (vm_compute; reflexivity).
  assert (Hall : allAnsweredOf (playersSnapshot sampleDb "AB12") = true)
    by (vm_compute; reflexivity).
  destruct (reveal_on_answers_or_timer "AB12" 1000040 1030000 sampleOpenDb
              mountHostScreen (sampleGame PLAYING 0 (Some 1000000))
              Hopen eq_refl eq_refl eq_refl eq_refl)
    as (_ & Htimer & _).
  destruct (Htimer Hwaiting) as (Hhidden & Harmed & Hearly & _).
  destruct (reveal_on_answers_or_timer "AB12" 1009000 1009000 sampleDb
              mountHostScreen (sampleGame PLAYING 0 (Some 1000000))
              Hg eq_refl eq_refl eq_refl eq_refl)
    as (Hanswers & _ & _).
  split; [exact Hhidden|]. split; [exact Harmed|].
  split; [apply Hearly; lia|]. exact (Hanswers Hall).
Defined.

(** ** Further properties of the scoring service *)

Section ScoreClosedForm.

Local Open Scope Q_scope.

Lemma timeRatio_within (rt : Z) :
  (0 ≤ rt ≤ 30000)%Z → timeRatio (inject_Z rt) == inject_Z rt / 30000.
Proof.
  intros Hrt. unfold timeRatio.
  assert (Heq : inject_Z rt / 1000 / inject_Z QUESTION_DURATION_SECONDS
                == inject_Z rt / 30000).
  { change (inject_Z QUESTION_DURATION_SECONDS) with 30. field. }
  rewrite Q.min_l; [exact Heq|].
  rewrite Heq. apply Qle_shift_div_r; [reflexivity|].
  change (1 * 30000) with (inject_Z 30000). rewrite <- Zle_Qle. lia.
Qed.

Lemma timeRatio_beyond (rt : Z) :
  (30000 ≤ rt)%Z → timeRatio (inject_Z rt) == 1.
Proof.
  intros Hrt. unfold timeRatio. apply Q.min_r.
  change (inject_Z QUESTION_DURATION_SECONDS) with 30.
  assert (Heq : inject_Z rt / 1000 / 30 == inject_Z rt / 30000) by field.
  rewrite Heq. apply Qle_shift_div_l; [reflexivity|].
  change (1 * 30000) with (inject_Z 30000). rewrite <- Zle_Qle. lia.
Qed.

Lemma Math_round_decay (r : Q) (n : Z) :
  r == inject_Z n / 30000 →
  Math_round (inject_Z MAX_SCORE
              - (inject_Z MAX_SCORE - inject_Z MIN_SCORE) * r)
  = ((60030 - n) / 60)%Z.
Proof.
  intros Hr. unfold Math_round.
  change (inject_Z MAX_SCORE) with 1000. change (inject_Z MIN_SCORE) with 500.
  assert (Heq : 1000 - (1000 - 500) * r + (1 # 2)
                == (60030 - n) # 60).
  { rewrite Hr. rewrite (Qmake_Qdiv (60030 - n) 60).
    replace (60030 - n)%Z with (60030 + - n)%Z by lia.
    rewrite inject_Z_plus, inject_Z_opp. change (inject_Z 60030) with 60030.
    change (inject_Z (Z.pos 60)) with 60. field. }
  rewrite (Qfloor_comp _ _ Heq). reflexivity.
Qed.

End ScoreClosedForm.

(** X1. For a response time of a whole number of milliseconds within the
    30 seconds of a question, [calculateScore] is a whole number nearest to
    [1000 - rt / 60]: the score falls by one point every 60 ms, from 1000
    to 500. Where that value does not lie half-way between two whole
    numbers, the score is the quotient of [60030 - rt] by 60; at the
    half-way points, the response times 30, 90, 150, ..., it is one of the
    two whole numbers next to the value. Beyond 30 seconds and for a
    negative response time the score is 500. *)
Theorem calculateScore_closed_form (rt : Z) :
  (0 ≤ rt ≤ 30000 →
   -30 ≤ 60 * calculateScore (inject_Z rt) - (60000 - rt) ≤ 30
   ∧ (rt mod 60 ≠ 30 → calculateScore (inject_Z rt) = (60030 - rt) / 60))
  ∧ (30000 ≤ rt → calculateScore (inject_Z rt) = 500)
  ∧ (rt < 0 → calculateScore (inject_Z rt) = 500).
Proof.
  split; [|split].
  - intros Hrt.
    assert (Hform : calculateScore (inject_Z rt) = (60030 - rt) / 60).
    { rewrite calculateScore_nonneg
        by (change 0%Q with (inject_Z 0); rewrite <- Zle_Qle; lia).
      rewrite (Math_round_decay _ rt (timeRatio_within rt Hrt)).
      change MIN_SCORE with 500.
      apply Z.max_r, Z.div_le_lower_bound; lia. }
    split; [|by intros _].
    rewrite Hform.
    pose proof (Z.mul_div_le (60030 - rt) 60 ltac:(lia)).
    pose proof (Z.mul_succ_div_gt (60030 - rt) 60 ltac:(lia)).
    lia.
  - intros Hrt. rewrite calculateScore_nonneg
      by (change 0%Q with (inject_Z 0); rewrite <- Zle_Qle; lia).
    rewrite (Math_round_decay _ 30000); [reflexivity|].
    rewrite (timeRatio_beyond rt Hrt). reflexivity.
  - intros Hrt. apply calculateScore_negative.
    change 0%Q with (inject_Z 0). rewrite <- Zlt_Qlt. lia.
Qed.

Lemma calculateScore_closed_form_witness :
  calculateScore (inject_Z 6000) = 900
  ∧ -30 ≤ 60 * calculateScore (inject_Z 29670) - (60000 - 29670) ≤ 30
  ∧ calculateScore (inject_Z 45000) = 500
  ∧ calculateScore (inject_Z (-20)) = 500.
Proof.
  destruct (calculateScore_closed_form 6000) as (Hin & _ & _).
  destruct (calculateScore_closed_form 29670) as (Htie & _ & _).
  destruct (calculateScore_closed_form 45000) as (_ & Hout & _).
  destruct (calculateScore_closed_form (-20)) as (_ & _ & Hneg).
  split; [|split; [|split]].
  - destruct Hin as [_ Hin]; [lia|]. rewrite Hin; [reflexivity|].
    by vm_compute.
  - destruct Htie as [Htie _]; [lia|]. exact Htie.
  - apply Hout. lia.
  - apply Hneg. lia.
Defined.

Lemma div_1000_bounds (e : Z) : 1000 * (e / 1000) ≤ e < 1000 * (e / 1000) + 1000.
Proof.
  pose proof (Z.mul_div_le e 1000 ltac:(lia)).
  pose proof (Z.mul_succ_div_gt e 1000 ltac:(lia)). lia.
Qed.

(** X2. The countdown of [useTimer] for a question that started at [start]
    and lasts [d] seconds: from the start on it stays between 0 and [d], it
    never grows as time passes, it is 0 exactly when [d] seconds have passed
    since the start, and with the default duration it is what
    [getRemainingTime] of the scoring service computes. *)
Theorem useTimer_countdown (now later start d : Z) :
  start ≠ 0 → 0 ≤ d → now ≤ later →
  (start ≤ now → 0 ≤ useTimer_remaining now (Some start) d ≤ d)
  ∧ useTimer_remaining later (Some start) d
    ≤ useTimer_remaining now (Some start) d
  ∧ (useTimer_expired now (Some start) d = true ↔ d * 1000 ≤ now - start)
  ∧ useTimer_remaining now (Some start) QUESTION_DURATION_SECONDS
    = getRemainingTime now (Some start).
Proof.
  intros Hstart Hd Hlater.
  unfold useTimer_expired, useTimer_remaining, getRemainingTime. simpl.
  apply Z.eqb_neq in Hstart. rewrite Hstart. simpl.
  pose proof (div_1000_bounds (now - start)) as Hnow.
  pose proof (div_1000_bounds (later - start)) as Hlat.
  split; [lia|]. split; [lia|]. split; [|reflexivity].
  rewrite Z.eqb_eq. lia.
Qed.

Lemma useTimer_countdown_witness :
  0 ≤ useTimer_remaining 1012500 (Some 1000000) 30 ≤ 30
  ∧ useTimer_remaining 1020000 (Some 1000000) 30
    ≤ useTimer_remaining 1012500 (Some 1000000) 30
  ∧ (useTimer_expired 1012500 (Some 1000000) 30 = true
     ↔ 30 * 1000 ≤ 1012500 - 1000000).
Proof.
  destruct (useTimer_countdown 1012500 1020000 1000000 30)
    as (Hrange & Hmono & Hexp & _); [lia..|].
  split; [apply Hrange; lia|]. split; [exact Hmono | exact Hexp].
Defined.

(** ** Further properties of the CSV parser *)

(** X3. [shuffleArray] returns a permutation of its argument, whatever the
    random values are: the same elements, as often, in an array of the same
    length; and the index drawn in each iteration lies within the part of
    the array that is still to be shuffled. *)
Theorem shuffleArray_permutes {A : Type} (random : nat → Random)
    (array : list A) (i : nat) :
  shuffleArray random array ≡ₚ array
  ∧ length (shuffleArray random array) = length array
  ∧ (∀ x, x ∈ shuffleArray random array ↔ x ∈ array)
  ∧ (randomBelow (random i) (i + 1) ≤ i)%nat.
Proof.
  pose proof (shuffleArray_Permutation random array) as Hperm.
  split; [exact Hperm|]. split; [by apply Permutation_length|].
  split; [intros x; by rewrite Hperm|].
  pose proof (randomBelow_lt (random i) (i + 1)). lia.
Qed.

Section ParseLineFacts.

Implicit Types (random : nat → Random) (line : string).

Lemma keptOptions_length_min (fields : list string) :
  length (keptOptions fields)
  = (length (filter (λ o, nonEmpty o = true) fields) `min` 5)%nat.
Proof. unfold keptOptions. rewrite length_take. lia. Qed.

Lemma split_nonnil (sep : ascii) (s : string) : split sep s ≠ [].
Proof.
  destruct s as [|c s]; simpl; [done|].
  destruct (Ascii.eqb c sep); [done|]. by destruct (split sep s).
Qed.

Lemma split_length (sep : ascii) (s : string) :
  length (split sep s) = S (countChar sep s).
Proof.
  induction s as [|c s IH]; simpl; [done|].
  destruct (Ascii.eqb c sep); simpl; [by rewrite IH|].
  pose proof (split_nonnil sep s).
  destruct (split sep s) as [|x xs]; [done|]. simpl in *. lia.
Qed.

Lemma split_app (sep : ascii) (s1 s2 : string) :
  split sep (s1 ++ String sep s2) = split sep s1 ++ split sep s2.
Proof.
  induction s1 as [|c s1 IH]; simpl.
  - by rewrite Ascii.eqb_refl.
  - rewrite IH. destruct (Ascii.eqb c sep); [done|].
    pose proof (split_nonnil sep s1).
    by destruct (split sep s1) as [|x xs].
Qed.

Lemma csvLines_app (s1 s2 : string) :
  csvLines (s1 ++ String newlineChar s2) = csvLines s1 ++ csvLines s2.
Proof. unfold csvLines. by rewrite split_app, filter_app. Qed.

End ParseLineFacts.

(** X4. A line yields a question exactly when at least two of its answer
    fields (the fields after the first) are not empty; a line without a
    comma, with one answer or with blank answers is skipped. The number of
    fields of a line is the number of its commas plus one: a comma inside
    quotes separates fields like any other. *)
Theorem parseLine_retained (random : nat → Random) (index : nat)
    (line : string) :
  (is_Some (parseLine random index line)
   ↔ (2 ≤ length (filter (λ o, nonEmpty o = true) (tail (lineParts line))))%nat)
  ∧ length (lineParts line) = S (countChar commaChar line).
Proof.
  split.
  - unfold parseLine.
    destruct (lineParts line) as [|text [|correct distractors]]; simpl.
    + split; [by intros [? ?] | lia].
    + split; [by intros [? ?] | lia].
    + pose proof (keptOptions_length_min (correct :: distractors)) as Hlen.
      destruct (length (keptOptions (correct :: distractors)) <? 2)%nat
        eqn:Hlt.
      * apply Nat.ltb_lt in Hlt. split; [by intros [? ?] | lia].
      * apply Nat.ltb_ge in Hlt. split; [lia | eauto].
  - unfold lineParts. by rewrite length_fmap, split_length.
Qed.

Section IndexedQuestions.

Context {A : Type}.
Implicit Types (f : nat → A → option Question) (l : list A).

(** Questions built from the elements of an array, each carrying the index
    of its element: the identifiers grow along the result. *)
Lemma indexed_ids_from f l (k : nat) :
  (∀ i x q, f i x = Some q → qidIndex (qid q) = (k + i)%nat) →
  NoDup (qidIndex ∘ qid <$> omap id (imap f l))
  ∧ Forall (λ n, k ≤ n < k + length l)%nat
      (qidIndex ∘ qid <$> omap id (imap f l)).
Proof.
  revert f k. induction l as [|x l IH]; intros f k Hf.
  { split; [apply NoDup_nil_2 | apply Forall_nil_2]. }
  destruct (IH (f ∘ S) (S k)) as [Hnd Hall].
  { intros i y q Hq. simpl in Hq. rewrite (Hf _ _ _ Hq). lia. }
  assert (Hall' : Forall (λ n, k ≤ n < k + length (x :: l))%nat
            (qidIndex ∘ qid <$> omap id (imap (f ∘ S) l))).
  { eapply Forall_impl; [exact Hall|]. intros n Hn. simpl in *. lia. }
  simpl. destruct (f 0%nat x) as [q|] eqn:Hq; simpl; [|by split].
  pose proof (Hf _ _ _ Hq) as Hk. split.
  - apply NoDup_cons_2; [|exact Hnd].
    intros Hin. rewrite Forall_forall in Hall.
    specialize (Hall _ Hin). simpl in Hall. lia.
  - apply Forall_cons_2; [simpl in *; lia | exact Hall'].
Qed.

Lemma indexed_ids_NoDup f l :
  (∀ i x q, f i x = Some q → qidIndex (qid q) = i) →
  NoDup (qid <$> omap id (imap f l)).
Proof.
  intros Hf. destruct (indexed_ids_from f l 0 Hf) as [Hnd _].
  rewrite list_fmap_compose in Hnd. by apply NoDup_fmap_1 in Hnd.
Qed.

Lemma indexed_length f l : (length (omap id (imap f l)) ≤ length l)%nat.
Proof.
  revert f. induction l as [|x l IH]; intros f; [simpl; lia|].
  specialize (IH (f ∘ S)). rewrite imap_cons.
  change (omap id (f 0%nat x :: imap (f ∘ S) l))
    with (match f 0%nat x with
          | Some q => q :: omap id (imap (f ∘ S) l)
          | None => omap id (imap (f ∘ S) l)
          end).
  destruct (f 0%nat x); cbn [length]; lia.
Qed.

End IndexedQuestions.

Lemma parseCSV_lines (random : nat → nat → Random) (csvText : string) :
  parseCSV random csvText
  = omap id
      (imap (λ index line, parseLine (random index) index line)
         (csvLines csvText)).
Proof. unfold parseCSV. by destruct csvText. Qed.

(** X5. The questions [parseCSV] returns carry pairwise distinct
    identifiers: each is the index of its line among the lines that are not
    blank, so it lies below the count the Upload button announces, and the
    number of questions is at most that count. *)
Theorem parseCSV_ids (random : nat → nat → Random) (csvText : string) :
  NoDup (qid <$> parseCSV random csvText)
  ∧ (∀ q, q ∈ parseCSV random csvText →
       ∃ index, qid q = CsvId index
                ∧ (index < uploadLabelCount csvText)%nat)
  ∧ (length (parseCSV random csvText) ≤ uploadLabelCount csvText)%nat.
Proof.
  split; [|split].
  - rewrite parseCSV_lines. apply indexed_ids_NoDup.
    intros i line q (_ & _ & _ & -> & _)%parseLine_Some. done.
  - intros q (index & line & Hline & Hq)%parseCSV_elem.
    exists index. apply parseLine_Some in Hq as (_ & _ & _ & -> & _).
    split; [done|]. by apply lookup_lt_Some in Hline.
  - rewrite parseCSV_lines. apply indexed_length.
Qed.

Section BlankLines.

Lemma trimStart_blank (s : string) :
  trim s = EmptyString → trimStart s = EmptyString.
Proof.
  unfold trim. induction s as [|c s IH]; simpl; [done|].
  destruct (isWhiteSpace c) eqn:Hc; [exact IH|].
  simpl. destruct (trimEnd s); by rewrite ?Hc.
Qed.

Lemma blank_trim (s : string) :
  trimStart s = EmptyString → trim s = EmptyString.
Proof. unfold trim. by intros ->. Qed.

Lemma split_blank (sep : ascii) (s : string) :
  trimStart s = EmptyString →
  Forall (λ p, trimStart p = EmptyString) (split sep s).
Proof.
  induction s as [|c s IH]; simpl.
  { intros _. by apply Forall_cons_2. }
  destruct (isWhiteSpace c) eqn:Hc; [|done]. intros Hs.
  specialize (IH Hs). destruct (Ascii.eqb c sep).
  { by apply Forall_cons_2. }
  destruct (split sep s) as [|x xs].
  { apply Forall_cons_2; [|done]. simpl. by rewrite Hc. }
  apply Forall_cons_1 in IH as [Hx Hxs].
  apply Forall_cons_2; [|done]. simpl. by rewrite Hc.
Qed.

Lemma csvLines_blank_text (s : string) :
  trim s = EmptyString → csvLines s = [].
Proof.
  intros Hs%trimStart_blank. unfold csvLines.
  pose proof (split_blank newlineChar s Hs) as Hall.
  induction Hall as [|p ps Hp _ IH]; [done|].
  rewrite filter_cons_False; [exact IH|].
  rewrite (blank_trim p Hp). by vm_compute.
Qed.

End BlankLines.

(** X6. Blank lines do not count: text that consists of white space, put
    before the text, after it or between two of its lines, changes neither
    the questions [parseCSV] returns nor their identifiers. A text of white
    space alone has no questions. *)
Theorem parseCSV_blank_lines (random : nat → nat → Random)
    (blank s1 s2 : string) :
  trim blank = EmptyString →
  parseCSV random blank = []
  ∧ parseCSV random (blank ++ String newlineChar s2) = parseCSV random s2
  ∧ parseCSV random (s1 ++ String newlineChar blank) = parseCSV random s1
  ∧ parseCSV random (s1 ++ String newlineChar (blank ++ String newlineChar s2))
    = parseCSV random (s1 ++ String newlineChar s2).
Proof.
  intros Hblank%csvLines_blank_text.
  rewrite !parseCSV_lines, !csvLines_app, Hblank, app_nil_r. done.
Qed.

Lemma parseCSV_blank_lines_witness :
  parseCSV (λ _ _, randomZero) "  " = []
  ∧ parseCSV (λ _ _, randomZero) (String.append "  " (String newlineChar sampleCsv))
    = parseCSV (λ _ _, randomZero) sampleCsv.
Proof.
  destruct (parseCSV_blank_lines (λ _ _, randomZero) "  " sampleCsv sampleCsv)
    as (H1 & H2 & _); [by vm_compute|].
  exact (conj H1 H2).
Defined.

(** ** Generated questions *)

Lemma omap_length_le {A B : Type} (g : A → option B) (l : list A) :
  (length (omap g l) ≤ length l)%nat.
Proof.
  induction l as [|x l IH]; [simpl; lia|].
  change (omap g (x :: l))
    with (match g x with Some y => y :: omap g l | None => omap g l end).
  destruct (g x); cbn [length]; lia.
Qed.

Lemma truthyStrings_all (l : list (option string)) :
  length (truthyStrings l) = length l →
  Forall2 (λ o s, o = Some s ∧ s ≠ EmptyString) l (truthyStrings l).
Proof.
  induction l as [|o l IH]; [by constructor|].
  assert (Hle : (length (truthyStrings l) ≤ length l)%nat)
    by apply omap_length_le.
  change (truthyStrings (o :: l))
    with (match (if truthy_string o then o else None) with
          | Some s => s :: truthyStrings l
          | None => truthyStrings l
          end).
  destruct o as [s|]; cbn [truthy_string length]; [|lia].
  destruct (bool_decide (s = EmptyString)) eqn:Hs; cbn [negb length]; [lia|].
  intros Hlen. apply Forall2_cons_2; [|apply IH; lia].
  split; [done|]. by apply bool_decide_eq_false_1 in Hs.
Qed.

Lemma formatQuestion_Some (random : nat → Random) (idx : nat)
    (r : RawQuestion) (q : Question) :
  formatQuestion random idx r = Some q →
  ∃ c d1 d2 d3,
    rawCorrectAnswer r = Some c ∧ rawDistractor1 r = Some d1
    ∧ rawDistractor2 r = Some d2 ∧ rawDistractor3 r = Some d3
    ∧ Forall (λ o, o ≠ EmptyString) [c; d1; d2; d3]
    ∧ q = mkQuestion (LlmId idx) (rawQuestion r) c
            (shuffleArray random [c; d1; d2; d3]).
Proof.
  unfold formatQuestion.
  destruct (length _ =? 4)%nat eqn:Hlen; simpl; [|done].
  apply Nat.eqb_eq in Hlen. intros [= <-].
  pose proof (truthyStrings_all _ Hlen) as Hall.
  remember (truthyStrings _) as opts eqn:Hopts. clear Hopts Hlen.
  apply Forall2_cons_inv_l in Hall as (c & t1 & [Hc Hc'] & Hall & ->).
  apply Forall2_cons_inv_l in Hall as (d1 & t2 & [H1 H1'] & Hall & ->).
  apply Forall2_cons_inv_l in Hall as (d2 & t3 & [H2 H2'] & Hall & ->).
  apply Forall2_cons_inv_l in Hall as (d3 & t4 & [H3 H3'] & Hall & ->).
  apply Forall2_nil_inv_l in Hall as ->.
  exists c, d1, d2, d3.
  rewrite Hc, H1, H2, H3, !truthy_string_Some by done.
  do 4 (split; [done|]). split; [|done].
  repeat first [apply Forall_cons_2; [done|] | apply Forall_nil_2].
Qed.

Lemma generateQuestions_elem (random : nat → nat → Random)
    (raw : list RawQuestion) (q : Question) :
  q ∈ generateQuestions random raw ↔
  ∃ idx r, raw !! idx = Some r ∧ formatQuestion (random idx) idx r = Some q.
Proof.
  unfold generateQuestions. rewrite list_elem_of_omap. split.
  - intros (o & Ho & Hq). simpl in Hq. subst o.
    apply list_elem_of_lookup in Ho as [idx Ho].
    rewrite list_lookup_imap in Ho.
    destruct (raw !! idx) as [r|] eqn:Hr; [|done].
    injection Ho as Ho. by exists idx, r.
  - intros (idx & r & Hr & Hq). exists (Some q). split; [|done].
    apply list_elem_of_lookup. exists idx.
    by rewrite list_lookup_imap, Hr, <- Hq.
Qed.

(** X7. Every question [generateQuestions] returns comes from one entry of
    the response, whose position it carries as its identifier: the entry has
    the correct answer and all three distractors, none of them empty; the
    options are these four answers in some order, so the correct answer is
    one of them. An entry with a missing or empty answer is dropped, and no
    two questions share an identifier. *)
Theorem generateQuestions_well_formed (random : nat → nat → Random)
    (raw : list RawQuestion) (q : Question) :
  q ∈ generateQuestions random raw →
  (∃ idx r c d1 d2 d3,
     raw !! idx = Some r ∧ qid q = LlmId idx ∧ question q = rawQuestion r
     ∧ rawCorrectAnswer r = Some c ∧ rawDistractor1 r = Some d1
     ∧ rawDistractor2 r = Some d2 ∧ rawDistractor3 r = Some d3
     ∧ correctAnswer q = c ∧ options q ≡ₚ [c; d1; d2; d3])
  ∧ length (options q) = 4%nat
  ∧ Forall (λ o, o ≠ EmptyString) (options q)
  ∧ correctAnswer q ∈ options q
  ∧ NoDup (qid <$> generateQuestions random raw)
  ∧ (length (generateQuestions random raw) ≤ length raw)%nat.
Proof.
  intros (idx & r & Hr & Hq)%generateQuestions_elem.
  apply formatQuestion_Some in Hq
    as (c & d1 & d2 & d3 & Hc & H1 & H2 & H3 & Hne & ->).
  simpl. pose proof (shuffleArray_Permutation (random idx) [c; d1; d2; d3])
    as Hperm.
  split; [|split; [|split; [|split; [|split]]]].
  - by exists idx, r, c, d1, d2, d3.
  - by rewrite Hperm.
  - by rewrite Hperm.
  - rewrite Hperm. apply list_elem_of_here.
  - apply indexed_ids_NoDup.
    intros i x q' (? & ? & ? & ? & _ & _ & _ & _ & _ & ->)%formatQuestion_Some.
    done.
  - apply indexed_length.
Qed.

Lemma generateQuestions_well_formed_witness :
  length (generateQuestions (λ _ _, randomHalf) sampleRaw) = 2%nat
  ∧ length (options (mkQuestion (LlmId 3) "Red planet?" "Mars"
                       ["Mars"; "Earth"; "Venus"; "Pluto"])) = 4%nat.
Proof.
  split; [by vm_compute|].
  apply (generateQuestions_well_formed (λ _ _, randomHalf) sampleRaw).
  apply (bool_decide_unpack _). by vm_compute.
Defined.

(** ** What each handler writes *)

Section HandlerCases.

Implicit Types (db : Firestore) (code userId : string) (h : HostScreen).

Lemma screenOf_lobby_inv db code userId :
  screenOf db code userId = LobbyScreen →
  ∃ g, gameDocs db !! code = Some g
       ∧ (status g = LOBBY ∨ status g = UPLOAD).
Proof.
  unfold screenOf. destruct (gameDocs db !! code) as [g|]; [|done].
  destruct (status g) eqn:Hst; simpl.
  - intros _. exists g. auto.
  - intros _. exists g. auto.
  - by destruct (bool_decide (hostUserId g = userId)).
  - done.
Qed.

Lemma screenOf_host_inv db code userId :
  screenOf db code userId = HostGameScreen →
  ∃ g, gameDocs db !! code = Some g
       ∧ status g = PLAYING ∧ hostUserId g = userId.
Proof.
  unfold screenOf. destruct (gameDocs db !! code) as [g|]; [|done].
  destruct (status g) eqn:Hst; try done. simpl.
  destruct (bool_decide (hostUserId g = userId)) eqn:Hh; [|done].
  apply bool_decide_eq_true_1 in Hh. intros _. by exists g.
Qed.

Lemma screenOf_results_host db code userId :
  screenOf db code userId = ResultsScreen →
  isHostOf (gameDocs db !! code) userId = true →
  ∃ g, gameDocs db !! code = Some g
       ∧ status g = RESULTS ∧ hostUserId g = userId.
Proof.
  unfold screenOf. destruct (gameDocs db !! code) as [g|]; [|done].
  simpl. intros Hscreen Hh. rewrite Hh in Hscreen.
  apply bool_decide_eq_true_1 in Hh.
  destruct (status g) eqn:Hst; try done. by exists g.
Qed.

Lemma handleCreateGame_cases userId screenName fraction now db :
  handleCreateGame userId screenName fraction now db = (db, None)
  ∨ (userId ≠ EmptyString ∧ screenName ≠ EmptyString
     ∧ generateGameCode fraction ≠ EmptyString
     ∧ handleCreateGame userId screenName fraction now db
       = (setPlayerDoc (generateGameCode fraction) userId
            (mkPlayerDoc screenName 0 true None None now)
            (setGameDoc (generateGameCode fraction)
               (mkGameDoc (generateGameCode fraction) userId LOBBY [] (-1)
                  None) db),
          Some (generateGameCode fraction))).
Proof.
  unfold handleCreateGame, nonEmpty.
  destruct (bool_decide (userId = EmptyString)) eqn:Hu; [by left|].
  destruct (bool_decide (screenName = EmptyString)) eqn:Hn; [by left|].
  destruct (bool_decide (generateGameCode fraction = EmptyString)) eqn:Hc;
    [by left|].
  apply bool_decide_eq_false_1 in Hu, Hn, Hc. simpl. by right.
Qed.

Lemma handleJoinGame_cases userId screenName code now db :
  (handleJoinGame userId screenName code now db).1 = db
  ∨ ∃ g, gameDocs db !! toUpperCase code = Some g
         ∧ (status g = LOBBY ∨ status g = UPLOAD)
         ∧ userId ≠ EmptyString ∧ screenName ≠ EmptyString
         ∧ handleJoinGame userId screenName code now db
           = (setPlayerDoc (toUpperCase code) userId
                (mkPlayerDoc screenName 0 false None None now) db,
              Joined).
Proof.
  unfold handleJoinGame, nonEmpty.
  destruct (bool_decide (userId = EmptyString)) eqn:Hu; [by left|].
  destruct (bool_decide (screenName = EmptyString)) eqn:Hn; [by left|].
  apply bool_decide_eq_false_1 in Hu, Hn. simpl.
  destruct (gameDocs db !! toUpperCase code) as [g|] eqn:Hg; [|by left].
  destruct (status g) eqn:Hst; simpl; [right|right|by left|by left];
    exists g; rewrite ?Hst; auto 10.
Qed.

Lemma uploadCSV_cases code userId random csvText db :
  uploadCSV code userId random csvText db = db
  ∨ ∃ g, gameDocs db !! code = Some g
         ∧ (status g = LOBBY ∨ status g = UPLOAD)
         ∧ hostUserId g = userId
         ∧ parseCSV random csvText ≠ []
         ∧ uploadCSV code userId random csvText db
           = setGameDoc code (set_questions (parseCSV random csvText) g) db.
Proof.
  unfold uploadCSV.
  destruct (bool_decide (screenOf db code userId = LobbyScreen)) eqn:Hs;
    [|by left].
  apply bool_decide_eq_true_1, screenOf_lobby_inv in Hs as (g & Hg & Hst).
  rewrite Hg. simpl.
  destruct (bool_decide (hostUserId g = userId)) eqn:Hh; [|by left].
  apply bool_decide_eq_true_1 in Hh. unfold handleCSVUpload.
  destruct (parseCSV random csvText) as [|q qs] eqn:Hqs; [by left|].
  right. exists g. rewrite (updateGameDoc_Some _ _ _ g Hg). done.
Qed.

Lemma generateAndSave_cases code userId topic random raw rendered db :
  generateAndSave code userId topic random raw rendered db = db
  ∨ ∃ gr g, gameDocs rendered !! code = Some gr
            ∧ (status gr = LOBBY ∨ status gr = UPLOAD)
            ∧ hostUserId gr = userId
            ∧ gameDocs db !! code = Some g
            ∧ generateQuestions random raw ≠ []
            ∧ generateAndSave code userId topic random raw rendered db
              = setGameDoc code
                  (set_questions (generateQuestions random raw) g) db.
Proof.
  unfold generateAndSave.
  destruct (bool_decide (screenOf rendered code userId = LobbyScreen))
    eqn:Hs; [|by left].
  apply bool_decide_eq_true_1, screenOf_lobby_inv in Hs as (gr & Hgr & Hst).
  rewrite Hgr. simpl. unfold handleGenerateQuestions.
  destruct (negb (nonEmpty code)); [by left|].
  destruct (bool_decide (hostUserId gr = userId)) eqn:Hh; [|by left].
  apply bool_decide_eq_true_1 in Hh. simpl.
  destruct (negb (nonEmpty (trim topic))); [by left|].
  destruct (generateQuestions random raw) as [|q qs] eqn:Hqs; [by left|].
  simpl. destruct (gameDocs db !! code) as [g|] eqn:Hg.
  - right. exists gr, g. rewrite (updateGameDoc_Some _ _ _ g Hg). done.
  - left. unfold updateGameDoc. by rewrite Hg.
Qed.

Lemma uploadGenerated_cases code userId topic random raw db :
  uploadGenerated code userId topic random raw db = db
  ∨ ∃ g, gameDocs db !! code = Some g
         ∧ (status g = LOBBY ∨ status g = UPLOAD)
         ∧ hostUserId g = userId
         ∧ generateQuestions random raw ≠ []
         ∧ uploadGenerated code userId topic random raw db
           = setGameDoc code (set_questions (generateQuestions random raw) g)
               db.
Proof.
  unfold uploadGenerated.
  destruct (generateAndSave_cases code userId topic random raw db db)
    as [-> | (gr & g & Hgr & Hst & Hh & Hg & Hqs & ->)]; [by left|].
  right. exists g. assert (gr = g) as -> by congruence. done.
Qed.

Lemma startGame_cases code userId now db :
  startGame code userId now db = db
  ∨ ∃ g, gameDocs db !! code = Some g
         ∧ (status g = LOBBY ∨ status g = UPLOAD)
         ∧ hostUserId g = userId
         ∧ (1 ≤ length (questions g))%nat
         ∧ (2 ≤ size (playersOf db code))%nat
         ∧ startGame code userId now db
           = setGameDoc code (start_playing now g)
               (updateAllPlayers code reset_for_start db).
Proof.
  destruct (gameDocs db !! code) as [g|] eqn:Hg; cycle 1.
  { left. unfold startGame, screenOf. by rewrite Hg. }
  destruct (decide (status g = LOBBY ∨ status g = UPLOAD)) as [Hst|Hst];
    cycle 1.
  { left. apply (startGame_refused db code userId now g Hg). left.
    split; intros ?; apply Hst; auto. }
  destruct (decide (hostUserId g = userId)) as [Hh|Hh]; cycle 1.
  { left. apply (startGame_refused db code userId now g Hg). auto. }
  destruct (decide (length (questions g) = 0%nat)) as [Hq|Hq].
  { left. apply (startGame_refused db code userId now g Hg). auto. }
  destruct (decide (size (playersOf db code) < 2)%nat) as [Hp|Hp].
  { left. apply (startGame_refused db code userId now g Hg). auto. }
  right. exists g. do 2 (split; [done|]). split; [done|].
  split; [lia|]. split; [lia|].
  apply startGame_started; [done..|lia|lia].
Qed.

Lemma pressAnswer_cases code userId answer now rendered db :
  pressAnswer code userId answer now rendered db = db
  ∨ ∃ g q pr p, gameDocs rendered !! code = Some g
                ∧ status g = PLAYING ∧ hostUserId g ≠ userId
                ∧ currentQuestionOf (Some g) = Some q
                ∧ answer ∈ options q
                ∧ playersOf rendered code !! userId = Some pr
                ∧ truthy_string (lastAnswer pr) = false
                ∧ playersOf db code !! userId = Some p
                ∧ pressAnswer code userId answer now rendered db
                  = setPlayerDoc code userId
                      (set_answer (Some answer) (Some now) p) db.
Proof.
  unfold pressAnswer.
  destruct (currentQuestionOf _) as [q|] eqn:Hq; [|by left].
  destruct (bool_decide (screenOf rendered code userId = PlayerGameScreen))
    eqn:Hscreen; [|by left].
  destruct (bool_decide (answer ∈ options q)) eqn:Hopt; [|by left]. simpl.
  apply bool_decide_eq_true_1 in Hscreen, Hopt.
  apply screenOf_player in Hscreen as (g & Hg & Hst & Hh).
  unfold handleAnswerSubmit. destruct (negb (nonEmpty code)); [by left|].
  rewrite findPlayer_snapshot.
  destruct (playersOf rendered code !! userId) as [pr|] eqn:Hpr; [|by left].
  simpl.
  destruct (truthy_string (lastAnswer pr)) eqn:Ha; [by left|].
  destruct (playersOf db code !! userId) as [p|] eqn:Hp.
  - right. exists g, q, pr, p. rewrite (updatePlayerDoc_Some _ _ _ _ _ Hp).
    rewrite Hg in Hq. done.
  - left. unfold updatePlayerDoc. by rewrite Hp.
Qed.

Lemma submitAnswer_cases code userId answer now db :
  submitAnswer code userId answer now db = db
  ∨ ∃ g q p, gameDocs db !! code = Some g
             ∧ status g = PLAYING ∧ hostUserId g ≠ userId
             ∧ currentQuestionOf (Some g) = Some q
             ∧ answer ∈ options q
             ∧ playersOf db code !! userId = Some p
             ∧ truthy_string (lastAnswer p) = false
             ∧ submitAnswer code userId answer now db
               = setPlayerDoc code userId
                   (set_answer (Some answer) (Some now) p) db.
Proof.
  unfold submitAnswer.
  destruct (pressAnswer_cases code userId answer now db db)
    as [-> | (g & q & pr & p & Hg & Hst & Hh & Hq & Ho & Hpr & Ha & Hp & ->)];
    [by left|].
  right. exists g, q, p. assert (pr = p) as -> by congruence. done.
Qed.

Lemma advance_cases code userId now db h :
  advance code userId now (db, h) = (db, h)
  ∨ ∃ g, gameDocs db !! code = Some g
         ∧ status g = PLAYING ∧ hostUserId g = userId
         ∧ showAnswers h = true ∧ isScoring h = false
         ∧ ((currentQuestionIndex g + 1 < Z.of_nat (length (questions g))
             ∧ (advance code userId now (db, h)).1
               = updateAllPlayers code (set_answer None None)
                   (scoringEffect code
                      (setGameDoc code
                         (set_question (currentQuestionIndex g + 1) now g)
                         db, h)).1)
            ∨ (Z.of_nat (length (questions g)) ≤ currentQuestionIndex g + 1
               ∧ advance code userId now (db, h)
                 = (setGameDoc code (set_status RESULTS g) db, h))).
Proof.
  destruct (gameDocs db !! code) as [g|] eqn:Hg; cycle 1.
  { left. unfold advance; simpl. by rewrite Hg. }
  destruct (bool_decide (screenOf db code userId = HostGameScreen))
    eqn:Hscreen; cycle 1.
  { left. unfold advance; simpl. by rewrite Hg, Hscreen. }
  apply bool_decide_eq_true_1, screenOf_host_inv in Hscreen
    as (g' & Hg' & Hst & Hh).
  assert (g' = g) as -> by congruence.
  assert (Hscreen : bool_decide (screenOf db code userId = HostGameScreen)
                    = true).
  { apply bool_decide_eq_true_2. by apply (screenOf_host db code userId g). }
  destruct (showAnswers h) eqn:Hshow; cycle 1.
  { left. unfold advance; simpl. by rewrite Hg, Hscreen, Hshow. }
  destruct (isScoring h) eqn:Hsc.
  { left. unfold advance; simpl. by rewrite Hg, Hscreen, Hshow, Hsc. }
  right. exists g. do 5 (split; [done|]).
  destruct (Z_lt_le_dec (currentQuestionIndex g + 1)
              (Z.of_nat (length (questions g)))) as [Hlt|Hge].
  - left. split; [done|].
    by rewrite (advance_next db h code userId now g).
  - right. split; [done|]. by apply advance_last.
Qed.

Lemma endGame_cases code userId db :
  endGame code userId db = db
  ∨ ∃ g, gameDocs db !! code = Some g
         ∧ status g = RESULTS ∧ hostUserId g = userId
         ∧ endGame code userId db
           = mkFirestore (delete code (gameDocs db))
               (delete code (playerDocs db)).
Proof.
  unfold endGame.
  destruct (bool_decide (screenOf db code userId = ResultsScreen))
    eqn:Hscreen; [|by left].
  apply bool_decide_eq_true_1 in Hscreen. unfold handleEndGame.
  destruct (isHostOf (gameDocs db !! code) userId) eqn:Hh; [|by left].
  destruct (screenOf_results_host db code userId Hscreen Hh)
    as (g & Hg & Hst & Hhost).
  right. by exists g.
Qed.

End HandlerCases.

(** ** Invariants of the session engine *)

Section Preservation.

Variables (P : string → GameDoc → Prop) (Q : PlayerDoc → Prop).

Implicit Types (db : Firestore) (code uid : string).

Lemma dbInvariant_emptyDb : dbInvariant P Q emptyDb.
Proof.
  split; [intros c g Hc | intros c u p Hc]; by rewrite ?lookup_empty in Hc.
Qed.

Lemma dbInvariant_setGameDoc code g db :
  P code g → dbInvariant P Q db → dbInvariant P Q (setGameDoc code g db).
Proof.
  intros Hg [Hq Hp]. split; [|exact Hp].
  intros c g' Hc. unfold setGameDoc in Hc; simpl in Hc.
  rewrite lookup_insert in Hc. case_decide; [|by eapply Hq].
  by inversion Hc; subst.
Qed.

Lemma dbInvariant_setPlayerDoc code uid p db :
  Q p → dbInvariant P Q db → dbInvariant P Q (setPlayerDoc code uid p db).
Proof.
  intros Hnew [Hq Hp]. split; [exact Hq|].
  intros c u p' Hc. destruct (decide (c = code)) as [->|Hne].
  - rewrite playersOf_setPlayerDoc in Hc. case_decide; [|by eapply Hp].
    by inversion Hc; subst.
  - rewrite playersOf_setPlayerDoc_ne in Hc by done. by eapply Hp.
Qed.

Lemma dbInvariant_updateAllPlayers code (f : PlayerDoc → PlayerDoc) db :
  (∀ p, Q p → Q (f p)) →
  dbInvariant P Q db → dbInvariant P Q (updateAllPlayers code f db).
Proof.
  intros Hf [Hq Hp]. split.
  - intros c g. rewrite gameDocs_updateAllPlayers. apply Hq.
  - intros c u p' Hc. destruct (decide (c = code)) as [->|Hne].
    + rewrite playersOf_updateAllPlayers, lookup_fmap in Hc.
      destruct (playersOf db code !! u) as [p|] eqn:Hu; [|done].
      inversion Hc; subst. apply Hf. by eapply Hp.
    + rewrite playersOf_updateAllPlayers_ne in Hc by done. by eapply Hp.
Qed.

Lemma dbInvariant_delete code db :
  dbInvariant P Q db →
  dbInvariant P Q
    (mkFirestore (delete code (gameDocs db)) (delete code (playerDocs db))).
Proof.
  intros [Hq Hp]. split.
  - intros c g Hc. simpl in Hc. apply lookup_delete_Some in Hc as [_ Hc].
    by eapply Hq.
  - intros c u p Hc. unfold playersOf in Hc; simpl in Hc.
    destruct (decide (c = code)) as [->|Hne].
    + by rewrite lookup_delete_eq in Hc.
    + rewrite lookup_delete_ne in Hc by done. by eapply Hp.
Qed.

End Preservation.

Section WellFormed.

Implicit Types (db : Firestore) (code uid : string).

Lemma parseCSV_NoDup (random : nat → nat → Random) (csvText : string) :
  NoDup (qid <$> parseCSV random csvText).
Proof.
  rewrite parseCSV_lines. apply indexed_ids_NoDup.
  intros i line q (_ & _ & _ & -> & _)%parseLine_Some. done.
Qed.

Lemma generateQuestions_NoDup (random : nat → nat → Random)
    (raw : list RawQuestion) :
  NoDup (qid <$> generateQuestions random raw).
Proof.
  apply indexed_ids_NoDup.
  intros i x q' (? & ? & ? & ? & _ & _ & _ & _ & _ & ->)%formatQuestion_Some.
  done.
Qed.

Lemma wellFormedGame_set_questions code g (qs : list Question) :
  wellFormedGame code g →
  qs ≠ [] → NoDup (qid <$> qs) →
  wellFormedGame code (set_questions qs g).
Proof. intros (Hcode & _ & Hst) Hqs Hnd. by repeat split. Qed.

Lemma wellFormedGame_start_playing code g now :
  wellFormedGame code g → (1 ≤ length (questions g))%nat →
  wellFormedGame code (start_playing now g).
Proof.
  intros (Hcode & Hnd & _) Hq. split; [done|]. split; [done|]. simpl.
  split; [lia|eauto].
Qed.

Lemma wellFormedGame_set_question code g now :
  wellFormedGame code g → status g = PLAYING →
  currentQuestionIndex g + 1 < Z.of_nat (length (questions g)) →
  wellFormedGame code (set_question (currentQuestionIndex g + 1) now g).
Proof.
  intros (Hcode & Hnd & Hst) Hplay Hlt. rewrite Hplay in Hst.
  split; [done|]. split; [done|]. simpl. rewrite Hplay.
  split; [lia|eauto].
Qed.

Lemma wellFormedGame_set_status_RESULTS code g :
  wellFormedGame code g → status g = PLAYING →
  wellFormedGame code (set_status RESULTS g).
Proof.
  intros (Hcode & Hnd & Hst) Hplay. rewrite Hplay in Hst.
  split; [done|]. split; [done|]. done.
Qed.

Lemma wellFormedPlayer_scoredPlayer (q : Question) (start : option Z)
    (p : PlayerDoc) :
  wellFormedPlayer p → wellFormedPlayer (scoredPlayer q start p).
Proof.
  intros Hwf. unfold scoredPlayer.
  destruct (isHost p) eqn:Hhost; [exact Hwf|].
  destruct Hwf as (Hs & Hh & Ha).
  pose proof (pointsAwarded_range q start p) as [Hlo _].
  unfold awardedPlayer, wellFormedPlayer; simpl.
  split; [lia|]. split; [by rewrite Hhost|done].
Qed.

(** Every reachable database is well formed. *)
Lemma Reachable_wellFormed db : Reachable db → wellFormed db.
Proof.
  unfold wellFormed.
  induction 1 as [ | userId screenName fraction now db _ IH
                   | userId screenName code now db _ IH
                   | code userId random csvText db _ IH
                   | code userId topic random raw db _ IH
                   | code userId topic random raw rendered db _ _ _ IH
                   | code userId now db _ IH
                   | code userId answer now db _ IH
                   | code userId answer now rendered db _ _ _ IH
                   | code h db _ IH
                   | code userId now h db _ IH
                   | code userId db _ IH ].
  - apply dbInvariant_emptyDb.
  - destruct (handleCreateGame_cases userId screenName fraction now db)
      as [-> | (_ & _ & _ & ->)]; [done|]. simpl.
    apply dbInvariant_setPlayerDoc; [by repeat split|].
    apply dbInvariant_setGameDoc; [|done].
    split; [done|]. split; [apply NoDup_nil_2|done].
  - destruct (handleJoinGame_cases userId screenName code now db)
      as [-> | (g & _ & _ & _ & _ & ->)]; [done|]. simpl.
    apply dbInvariant_setPlayerDoc; [by repeat split|done].
  - destruct (uploadCSV_cases code userId random csvText db)
      as [-> | (g & Hg & Hst & _ & Hqs & ->)]; [done|].
    apply dbInvariant_setGameDoc; [|done].
    apply wellFormedGame_set_questions; [by apply (proj1 IH)|done|].
    apply parseCSV_NoDup.
  - destruct (uploadGenerated_cases code userId topic random raw db)
      as [-> | (g & Hg & Hst & _ & Hqs & ->)]; [done|].
    apply dbInvariant_setGameDoc; [|done].
    apply wellFormedGame_set_questions; [by apply (proj1 IH)|done|].
    apply generateQuestions_NoDup.
  - destruct (generateAndSave_cases code userId topic random raw rendered db)
      as [-> | (gr & g & _ & _ & _ & Hg & Hqs & ->)]; [done|].
    apply dbInvariant_setGameDoc; [|done].
    apply wellFormedGame_set_questions; [by apply (proj1 IH)|done|].
    apply generateQuestions_NoDup.
  - destruct (startGame_cases code userId now db)
      as [-> | (g & Hg & Hst & _ & Hq & _ & ->)]; [done|].
    apply dbInvariant_setGameDoc.
    + apply wellFormedGame_start_playing; [by apply (proj1 IH)|done].
    + apply dbInvariant_updateAllPlayers; [|done].
      intros p _. by repeat split.
  - destruct (submitAnswer_cases code userId answer now db)
      as [-> | (g & q & p & _ & _ & _ & _ & _ & Hp & _ & ->)]; [done|].
    apply dbInvariant_setPlayerDoc; [|done].
    destruct (proj2 IH code userId p Hp) as (Hs & Hh & _).
    split; [done|]. split; [done|]. simpl. split; intros [=].
  - destruct (pressAnswer_cases code userId answer now rendered db)
      as [-> | (g & q & pr & p & _ & _ & _ & _ & _ & _ & _ & Hp & ->)];
      [done|].
    apply dbInvariant_setPlayerDoc; [|done].
    destruct (proj2 IH code userId p Hp) as (Hs & Hh & _).
    split; [done|]. split; [done|]. simpl. split; intros [=].
  - destruct (scoringEffect_cases code db h)
      as [-> | (g & q & _ & _ & _ & _ & ->)]; [done|]. simpl.
    apply dbInvariant_updateAllPlayers; [|done].
    apply wellFormedPlayer_scoredPlayer.
  - destruct (advance_cases code userId now db h)
      as [-> | (g & Hg & Hst & _ & _ & _ & [[Hlt ->] | [Hge ->]])];
      [done| |]; simpl.
    + apply dbInvariant_updateAllPlayers.
      { intros p (Hs & Hh & _). by repeat split. }
      assert (Hwrite : dbInvariant wellFormedGame wellFormedPlayer
                (setGameDoc code
                   (set_question (currentQuestionIndex g + 1) now g) db)).
      { apply dbInvariant_setGameDoc; [|done].
        apply wellFormedGame_set_question; [by apply (proj1 IH)|done..]. }
      destruct (scoringEffect_cases code
                  (setGameDoc code
                     (set_question (currentQuestionIndex g + 1) now g) db) h)
        as [-> | (g' & q & _ & _ & _ & _ & ->)]; [done|]. simpl.
      apply dbInvariant_updateAllPlayers; [|done].
      apply wellFormedPlayer_scoredPlayer.
    + apply dbInvariant_setGameDoc; [|done].
      apply wellFormedGame_set_status_RESULTS; [by apply (proj1 IH)|done].
  - destruct (endGame_cases code userId db)
      as [-> | (g & _ & _ & _ & ->)]; [done|].
    by apply dbInvariant_delete.
Qed.

Lemma playedDb_Reachable : Reachable playedDb.
Proof.
  unfold playedDb.
  apply R_submit, R_start, R_uploadCSV, R_join, R_create, R_empty.
Qed.

Lemma currentQuestionOf_elem (g : GameDoc) (q : Question) :
  currentQuestionOf (Some g) = Some q → q ∈ questions g.
Proof.
  unfold currentQuestionOf.
  destruct (currentQuestionIndex g <? 0); [done|].
  apply list_elem_of_lookup_2.
Qed.

Lemma wellFormedGame_currentQuestion code g :
  wellFormedGame code g →
  status g = PLAYING ∨ status g = RESULTS →
  is_Some (currentQuestionOf (Some g)).
Proof.
  intros (_ & _ & Hst) Hplay.
  assert (Hidx : 0 ≤ currentQuestionIndex g
                   < Z.of_nat (length (questions g))).
  { destruct Hplay as [Hp|Hp]; rewrite Hp in Hst; tauto. }
  unfold currentQuestionOf.
  destruct (currentQuestionIndex g <? 0) eqn:Hneg;
    [apply Z.ltb_lt in Hneg; lia|].
  apply lookup_lt_is_Some. lia.
Qed.

End WellFormed.

(** X8. In every database the clients can reach, a game document is stored
    under its own code and the identifiers of its questions are pairwise
    distinct. A game in status LOBBY has no questions, the index -1 and no
    start time, so no current question; a game in any other status has
    questions. While a game is played the index points at one of the
    questions and a start time is set, so the host screen and the player
    screen always have a current question to show. Nothing is said of the
    index and the start time of a game in status UPLOAD: generated
    questions that are saved after the start put a game in play back into
    status UPLOAD with the index and the start time it had. *)
Theorem reachable_games_well_formed (db : Firestore) (code : string)
    (g : GameDoc) :
  Reachable db →
  gameDocs db !! code = Some g →
  gameCode g = code
  ∧ NoDup (qid <$> questions g)
  ∧ (status g = LOBBY →
     questions g = [] ∧ currentQuestionIndex g = -1
     ∧ currentQuestionStartTime g = None
     ∧ currentQuestionOf (Some g) = None)
  ∧ (status g ≠ LOBBY → questions g ≠ [])
  ∧ (status g = PLAYING →
     is_Some (currentQuestionStartTime g)
     ∧ ∃ q, currentQuestionOf (Some g) = Some q ∧ q ∈ questions g).
Proof.
  intros Hdb Hg. pose proof (proj1 (Reachable_wellFormed db Hdb) code g Hg)
    as Hwf.
  destruct Hwf as (Hcode & Hnd & Hst).
  split; [exact Hcode|]. split; [exact Hnd|]. split; [|split].
  - intros Hlobby. rewrite Hlobby in Hst.
    destruct Hst as (Hqs & Hidx & Hstart). do 3 (split; [done|]).
    unfold currentQuestionOf. by rewrite Hidx.
  - intros Hstarted. destruct (status g); [done|done| |];
      intros Hnil; rewrite Hnil in Hst; simpl in Hst; lia.
  - intros Hplay.
    destruct (wellFormedGame_currentQuestion code g
                (conj Hcode (conj Hnd Hst)) (or_introl Hplay)) as [q Hq].
    rewrite Hplay in Hst. split; [apply Hst|].
    exists q. split; [exact Hq|]. by apply currentQuestionOf_elem.
Qed.

Lemma reachable_games_well_formed_witness :
  ∃ g, gameDocs playedDb !! "AB12"%string = Some g
       ∧ status g = PLAYING
       ∧ gameCode g = "AB12"%string
       ∧ NoDup (qid <$> questions g).
Proof.
  eexists. split; [by vm_compute|]. split; [reflexivity|].
  assert (Hg : gameDocs playedDb !! "AB12"%string
               = Some (mkGameDoc "AB12" "host" PLAYING
                         (parseCSV (λ _ _, randomZero) sampleCsv) 0
                         (Some 1000000)))
    by (vm_compute; reflexivity).
  destruct (reachable_games_well_formed playedDb "AB12" _
              playedDb_Reachable Hg) as (Hcode & Hnd & _).
  exact (conj Hcode Hnd).
Defined.

(** X9. In every database the clients can reach, no score is negative, a
    player document that is marked as the host has the score 0, and a
    player document has an answer exactly when it has an answer timestamp:
    an answer is never stored without the time it was given at. *)
Theorem reachable_players_well_formed (db : Firestore) (code uid : string)
    (p : PlayerDoc) :
  Reachable db →
  playersOf db code !! uid = Some p →
  0 ≤ score p
  ∧ (isHost p = true → score p = 0)
  ∧ (lastAnswer p = None ↔ answerTimestamp p = None).
Proof.
  intros Hdb Hp.
  exact (proj2 (Reachable_wellFormed db Hdb) code uid p Hp).
Qed.

Lemma reachable_players_well_formed_witness :
  ∃ p, playersOf playedDb "AB12" !! "ann"%string = Some p
       ∧ lastAnswer p = Some "Paris"%string
       ∧ 0 ≤ score p.
Proof.
  eexists. split; [by vm_compute|]. split; [reflexivity|].
  eapply (reachable_players_well_formed playedDb "AB12" "ann");
    [apply playedDb_Reachable | by vm_compute].
Defined.

Section Forward.

Implicit Types (db : Firestore) (code : string) (g : GameDoc).

Lemma movesForward_refl g : movesForward g g.
Proof. repeat split; try done; lia. Qed.

Lemma movesForward_set_questions g (qs : list Question) :
  status g = LOBBY ∨ status g = UPLOAD → movesForward g (set_questions qs g).
Proof.
  intros Hst. unfold movesForward; simpl. split; [done|]. split; [done|].
  split; [destruct Hst as [-> | ->]; simpl; lia|].
  intros [Hp|Hp]; destruct Hst; congruence.
Qed.

Lemma movesForward_start_playing g now :
  status g = LOBBY ∨ status g = UPLOAD → movesForward g (start_playing now g).
Proof.
  intros Hst. unfold movesForward; simpl. split; [done|]. split; [done|].
  split; [destruct Hst as [-> | ->]; simpl; lia|].
  intros [Hp|Hp]; destruct Hst; congruence.
Qed.

Lemma movesForward_set_question g now :
  movesForward g (set_question (currentQuestionIndex g + 1) now g).
Proof.
  unfold movesForward; simpl. split; [done|]. split; [done|].
  split; [lia|]. intros _. split; [done|lia].
Qed.

Lemma movesForward_set_status_RESULTS g :
  status g = PLAYING → movesForward g (set_status RESULTS g).
Proof.
  intros Hst. unfold movesForward; simpl. split; [done|]. split; [done|].
  split; [rewrite Hst; simpl; lia|]. intros _. split; [done|lia].
Qed.

End Forward.

(** X10. One write takes a game back, the saving of generated questions
    that arrives after the game has started: it puts the game into status
    UPLOAD with the generated questions and leaves the code, the host, the
    index and the start time as they were. Whatever else a client does on
    a screen that shows the database as it is, the creation of a game under
    the same code apart, a game document that is still there has the same
    code and host, a status that is the same or a later one in the order
    LOBBY, UPLOAD, PLAYING, RESULTS, and, once the game has started, the
    same questions and an index that moved up by at most one. A game
    document disappears only when its host ends the game from the results
    screen. *)
Theorem game_moves_forward (a : Action) (db : Firestore) (code : string)
    (g : GameDoc) :
  gameDocs db !! code = Some g →
  createdCode a ≠ Some code →
  (∃ g', gameDocs (perform a db) !! code = Some g'
         ∧ (movesForward g g'
            ∨ ((status g = PLAYING ∨ status g = RESULTS)
               ∧ ∃ qs, savedQuestions a = Some qs ∧ qs ≠ []
                       ∧ g' = set_questions qs g)))
  ∨ (gameDocs (perform a db) !! code = None
     ∧ status g = RESULTS
     ∧ ∃ userId, a = EndGame code userId ∧ hostUserId g = userId).
Proof.
  intros Hg Hcreated.
  assert (Hsame : ∀ m : gmap string GameDoc, m !! code = gameDocs db !! code →
            (∃ g', m !! code = Some g'
                   ∧ (movesForward g g'
                      ∨ ((status g = PLAYING ∨ status g = RESULTS)
                         ∧ ∃ qs, savedQuestions a = Some qs ∧ qs ≠ []
                                 ∧ g' = set_questions qs g)))
            ∨ (m !! code = None
               ∧ status g = RESULTS
               ∧ ∃ userId, a = EndGame code userId ∧ hostUserId g = userId)).
  { intros m Hm. left. exists g. rewrite Hm.
    split; [done|]. left. apply movesForward_refl. }
  assert (Hset : ∀ c g0 g1,
            gameDocs db !! c = Some g0 →
            movesForward g0 g1 →
            ∃ g', <[c := g1]> (gameDocs db) !! code = Some g'
                  ∧ (movesForward g g'
                     ∨ ((status g = PLAYING ∨ status g = RESULTS)
                        ∧ ∃ qs, savedQuestions a = Some qs ∧ qs ≠ []
                                ∧ g' = set_questions qs g))).
  { intros c g0 g1 Hc Hfw. rewrite lookup_insert.
    case_decide as Hcc.
    - subst c. assert (g0 = g) as -> by congruence. exists g1. auto.
    - exists g. split; [done|]. left. apply movesForward_refl. }
  destruct a as [userId screenName fraction now
                | userId screenName c now
                | c userId random csvText
                | c userId topic random raw rendered
                | c userId now
                | c userId answer now rendered
                | c h
                | c userId now h
                | c userId]; cbn [perform createdCode savedQuestions] in *.
  - destruct (handleCreateGame_cases userId screenName fraction now db)
      as [-> | (_ & _ & _ & ->)]; [by apply Hsame|].
    apply Hsame. cbn [fst]. rewrite gameDocs_setPlayerDoc, gameDocs_setGameDoc.
    case_decide as Hcc; [|done]. congruence.
  - destruct (handleJoinGame_cases userId screenName c now db)
      as [-> | (g0 & _ & _ & _ & _ & ->)]; apply Hsame; [done|].
    cbn [fst]. by rewrite gameDocs_setPlayerDoc.
  - destruct (uploadCSV_cases c userId random csvText db)
      as [-> | (g0 & Hc & Hst & _ & _ & ->)]; [by apply Hsame|].
    left. apply (Hset c g0 (set_questions (parseCSV random csvText) g0));
      [done|].
    by apply movesForward_set_questions.
  - destruct (generateAndSave_cases c userId topic random raw rendered db)
      as [-> | (gr & g0 & _ & _ & _ & Hc & Hqs & ->)]; [by apply Hsame|].
    left. unfold setGameDoc; cbn [gameDocs]. rewrite lookup_insert.
    case_decide as Hcc; cycle 1.
    { exists g. split; [done|]. left. apply movesForward_refl. }
    subst c. assert (g0 = g) as -> by congruence.
    eexists. split; [reflexivity|].
    destruct (status g) eqn:Hst.
    + left. apply movesForward_set_questions. auto.
    + left. apply movesForward_set_questions. auto.
    + right. split; [auto|]. by eexists.
    + right. split; [auto|]. by eexists.
  - destruct (startGame_cases c userId now db)
      as [-> | (g0 & Hc & Hst & _ & _ & _ & ->)]; [by apply Hsame|].
    left. unfold setGameDoc; cbn [gameDocs].
    rewrite gameDocs_updateAllPlayers.
    apply (Hset c g0 (start_playing now g0)); [done|].
    by apply movesForward_start_playing.
  - destruct (pressAnswer_cases c userId answer now rendered db)
      as [-> | (g0 & q & pr & p & _ & _ & _ & _ & _ & _ & _ & _ & ->)];
      apply Hsame; [done|]. by rewrite gameDocs_setPlayerDoc.
  - destruct (scoringEffect_cases c db h)
      as [-> | (g0 & q & _ & _ & _ & _ & ->)]; [by apply Hsame|].
    apply Hsame. cbn [fst]. by rewrite gameDocs_updateAllPlayers.
  - destruct (advance_cases c userId now db h)
      as [-> | (g0 & Hc & Hst & _ & _ & _ & [[Hlt ->] | [Hge ->]])];
      [by apply Hsame| |]; cbn [fst]; left.
    + rewrite gameDocs_updateAllPlayers, gameDocs_scoringEffect. cbn [fst].
      apply (Hset c g0 (set_question (currentQuestionIndex g0 + 1) now g0));
        [done|].
      apply movesForward_set_question.
    + apply (Hset c g0 (set_status RESULTS g0)); [done|].
      by apply movesForward_set_status_RESULTS.
  - destruct (endGame_cases c userId db)
      as [-> | (g0 & Hc & Hst & Hh & ->)]; [by apply Hsame|].
    cbn [gameDocs].
    destruct (decide (c = code)) as [->|Hcc].
    + right. assert (g0 = g) as -> by congruence.
      rewrite lookup_delete_eq. split; [done|]. split; [done|].
      by exists userId.
    + apply Hsame. by rewrite lookup_delete_ne.
Qed.

Lemma game_moves_forward_witness :
  (∃ g', gameDocs (perform (StartGame "AB12" "host" 1000000) sampleLobbyDb)
           !! "AB12"%string = Some g'
         ∧ (movesForward (sampleGame UPLOAD (-1) None) g'
            ∨ ((status (sampleGame UPLOAD (-1) None) = PLAYING
                ∨ status (sampleGame UPLOAD (-1) None) = RESULTS)
               ∧ ∃ qs, savedQuestions (StartGame "AB12" "host" 1000000)
                       = Some qs
                       ∧ qs ≠ []
                       ∧ g' = set_questions qs
                                (sampleGame UPLOAD (-1) None))))
  ∨ (gameDocs (perform (StartGame "AB12" "host" 1000000) sampleLobbyDb)
       !! "AB12"%string = None
     ∧ status (sampleGame UPLOAD (-1) None) = RESULTS
     ∧ ∃ userId, StartGame "AB12" "host" 1000000 = EndGame "AB12" userId
                 ∧ hostUserId (sampleGame UPLOAD (-1) None) = userId).
Proof.
  assert (Hg : gameDocs sampleLobbyDb !! "AB12"%string
               = Some (sampleGame UPLOAD (-1) None))
    by (vm_compute; reflexivity).
  assert (Hc : createdCode (StartGame "AB12" "host" 1000000)
               ≠ Some "AB12"%string) by discriminate.
  exact (game_moves_forward (StartGame "AB12" "host" 1000000) sampleLobbyDb
           "AB12" (sampleGame UPLOAD (-1) None) Hg Hc).
Defined.

(** Generated questions saved after the start: the host presses Generate
    in the lobby of the sample session and starts the game before the
    generator has answered. The write of the questions finds the game in
    play and puts it back into status UPLOAD, with the index and the start
    time of the first question. *)
Example generated_questions_saved_after_start :
  let started := startGame "AB12" "host" 1000000 readyDb in
  gameDocs
    (generateAndSave "AB12" "host" "planets" (λ _ _, randomZero) sampleRaw
       readyDb started) !! "AB12"%string
  = Some (mkGameDoc "AB12" "host" UPLOAD
            (generateQuestions (λ _ _, randomZero) sampleRaw) 0
            (Some 1000000))
  ∧ generateQuestions (λ _ _, randomZero) sampleRaw ≠ [].
Proof. by vm_compute. Qed.

Section ScoringFrame.

Lemma scoredPlayer_frame (q : Question) (start : option Z) (p : PlayerDoc) :
  name (scoredPlayer q start p) = name p
  ∧ isHost (scoredPlayer q start p) = isHost p
  ∧ lastAnswer (scoredPlayer q start p) = lastAnswer p
  ∧ answerTimestamp (scoredPlayer q start p) = answerTimestamp p
  ∧ timestamp (scoredPlayer q start p) = timestamp p
  ∧ score p ≤ score (scoredPlayer q start p) ≤ score p + MAX_SCORE
  ∧ (score (scoredPlayer q start p) ≠ score p →
     isHost p = false ∧ lastAnswer p = Some (correctAnswer q)
     ∧ score p + MIN_SCORE ≤ score (scoredPlayer q start p)).
Proof.
  unfold scoredPlayer. destruct (isHost p) eqn:Hhost.
  { repeat split; try done; unfold MAX_SCORE; lia. }
  pose proof (pointsAwarded_range q start p) as [Hlo Hhi].
  unfold awardedPlayer; simpl. do 5 (split; [done|]). split; [lia|].
  intros Hne.
  destruct (decide (lastAnswer p = Some (correctAnswer q))) as [Hans|Hans].
  - pose proof (pointsAwarded_correct_range q start p Hans) as [Hmin _].
    split; [done|]. split; [done|]. lia.
  - rewrite pointsAwarded_incorrect in Hne by done. lia.
Qed.

End ScoringFrame.

(** X11. A scoring run only raises scores. It leaves the game documents
    as they are and adds or removes no player; of a player document it
    changes nothing but the score, which grows by at most 1000; and a
    score that changes belongs to a player of the scored game who is not
    marked as host and whose answer is the correct answer of the current
    question, and it grows by at least 500. *)
Theorem scoring_only_raises_scores (code : string) (db : Firestore)
    (h : HostScreen) :
  gameDocs (scoringEffect code (db, h)).1 = gameDocs db
  ∧ ∀ c uid,
      match playersOf db c !! uid,
            playersOf (scoringEffect code (db, h)).1 c !! uid with
      | Some p, Some p' =>
          name p' = name p ∧ isHost p' = isHost p
          ∧ lastAnswer p' = lastAnswer p
          ∧ answerTimestamp p' = answerTimestamp p
          ∧ timestamp p' = timestamp p
          ∧ score p ≤ score p' ≤ score p + MAX_SCORE
          ∧ (score p' ≠ score p →
             c = code ∧ isHost p = false
             ∧ (∃ q, currentQuestionOf (gameDocs db !! code) = Some q
                     ∧ lastAnswer p = Some (correctAnswer q))
             ∧ score p + MIN_SCORE ≤ score p')
      | None, None => True
      | _, _ => False
      end.
Proof.
  destruct (scoringEffect_cases code db h)
    as [-> | (g & q & Hg & Hq & _ & _ & ->)]; simpl.
  - split; [done|]. intros c uid.
    destruct (playersOf db c !! uid) as [p|]; [|done].
    repeat split; try done; unfold MAX_SCORE; lia.
  - split; [apply gameDocs_updateAllPlayers|]. intros c uid.
    destruct (decide (c = code)) as [->|Hc].
    + rewrite playersOf_updateAllPlayers, lookup_fmap.
      destruct (playersOf db code !! uid) as [p|]; simpl; [|done].
      destruct (scoredPlayer_frame q (currentQuestionStartTime g) p)
        as (H1 & H2 & H3 & H4 & H5 & H6 & H7).
      do 6 (split; [done|]). intros Hne.
      destruct (H7 Hne) as (Hh & Ha & Hs).
      split; [done|]. split; [done|]. split; [|done].
      exists q. by rewrite Hg.
    + rewrite playersOf_updateAllPlayers_ne by done.
      destruct (playersOf db c !! uid) as [p|]; [|done].
      repeat split; try done; unfold MAX_SCORE; lia.
Qed.

Section Round.

Implicit Types (db : Firestore) (code uid answer : string).

Lemma submitAnswer_accepted db code uid answer now g q p :
  code ≠ EmptyString →
  gameDocs db !! code = Some g →
  status g = PLAYING → hostUserId g ≠ uid →
  currentQuestionOf (Some g) = Some q →
  answer ∈ options q →
  playersOf db code !! uid = Some p →
  truthy_string (lastAnswer p) = false →
  submitAnswer code uid answer now db
  = setPlayerDoc code uid (set_answer (Some answer) (Some now) p) db.
Proof.
  intros Hcode Hg Hst Hh Hq Hopt Hp Ha. unfold submitAnswer, pressAnswer.
  rewrite Hg, Hq, (screenOf_player_intro db code uid g Hg Hst Hh).
  rewrite !bool_decide_eq_true_2 by done. simpl.
  unfold handleAnswerSubmit, nonEmpty.
  rewrite (bool_decide_eq_false_2 _ Hcode). simpl.
  rewrite findPlayer_snapshot, Hp. simpl. rewrite Ha.
  by rewrite (updatePlayerDoc_Some _ _ _ _ _ Hp).
Qed.

Lemma calculateScore_late (rt : Z) :
  30000 ≤ rt → calculateScore (inject_Z rt) = MIN_SCORE.
Proof.
  intros Hrt. rewrite calculateScore_nonneg
    by (change 0%Q with (inject_Z 0); rewrite <- Zle_Qle; lia).
  rewrite (Math_round_decay _ 30000); [reflexivity|].
  rewrite (timeRatio_beyond rt Hrt). reflexivity.
Qed.

End Round.

(** X12. One round of a player: a player of a game in play who has not
    answered presses an option at time [now], and the answers are revealed
    and scored. The answer is stored, however much time has passed since
    the start of the question: the countdown does not close the question.
    The correct answer adds [calculateScore (now - start)] to the score,
    which is 500 from 30 seconds on; any other option leaves the score as
    it is. *)
Theorem answer_scored_after_reveal (code uid answer : string) (now : Z)
    (db : Firestore) (h : HostScreen) (g : GameDoc) (q : Question)
    (p : PlayerDoc) :
  code ≠ EmptyString →
  gameDocs db !! code = Some g →
  status g = PLAYING → hostUserId g ≠ uid →
  currentQuestionOf (Some g) = Some q →
  answer ∈ options q →
  playersOf db code !! uid = Some p →
  isHost p = false → lastAnswer p = None →
  now ≠ 0 →
  showAnswers h = true → lastRunQuestionId h ≠ Some (qid q) →
  ∃ p',
    playersOf
      (scoringEffect code (submitAnswer code uid answer now db, h)).1 code
      !! uid = Some p'
    ∧ lastAnswer p' = Some answer
    ∧ answerTimestamp p' = Some now
    ∧ (answer = correctAnswer q →
       score p'
       = score p
         + calculateScore
             (inject_Z (now - to_number (currentQuestionStartTime g))))
    ∧ (answer = correctAnswer q →
       to_number (currentQuestionStartTime g) + 30000 ≤ now →
       score p' = score p + MIN_SCORE)
    ∧ (answer ≠ correctAnswer q → score p' = score p).
Proof.
  intros Hcode Hg Hst Hh Hq Hopt Hp Hhost Ha Hnow Hshow Hlast.
  rewrite (submitAnswer_accepted db code uid answer now g q p)
    by (try done; by rewrite Ha).
  set (p1 := set_answer (Some answer) (Some now) p).
  rewrite (scoringEffect_run code _ h g q)
    by (try done; by rewrite gameDocs_setPlayerDoc).
  simpl. rewrite playersOf_updateAllPlayers, lookup_fmap.
  rewrite playersOf_setPlayerDoc, decide_True by done. simpl.
  eexists. split; [reflexivity|].
  unfold scoredPlayer. change (isHost p1) with (isHost p). rewrite Hhost.
  unfold awardedPlayer; simpl.
  split; [done|]. split; [done|].
  assert (Hcorrect : answer = correctAnswer q →
            pointsAwarded q (currentQuestionStartTime g) p1
            = calculateScore
                (inject_Z (now - to_number (currentQuestionStartTime g)))).
  { intros ->. by apply (pointsAwarded_correct q _ p1 now). }
  split; [|split].
  - intros Heq. by rewrite (Hcorrect Heq).
  - intros Heq Hlate. rewrite (Hcorrect Heq), calculateScore_late by lia.
    done.
  - intros Hne. rewrite pointsAwarded_incorrect; [lia|].
    simpl. congruence.
Qed.

Lemma answer_scored_after_reveal_witness :
  ∃ p',
    playersOf
      (scoringEffect "AB12"
         (submitAnswer "AB12" "bob" "Paris" 1040000 sampleOpenDb,
          revealedHostScreen)).1 "AB12" !! "bob"%string = Some p'
    ∧ score p' = 0 + MIN_SCORE.
Proof.
  assert (Hcode : "AB12"%string ≠ EmptyString) by discriminate.
  assert (Hg : gameDocs sampleOpenDb !! "AB12"%string
               = Some (sampleGame PLAYING 0 (Some 1000000)))
    by (vm_compute; reflexivity).
  assert (Hhost : hostUserId (sampleGame PLAYING 0 (Some 1000000))
                  ≠ "bob"%string) by discriminate.
  assert (Hopt : "Paris"%string ∈ ["Rome"; "Paris"; "Oslo"]%string)
    by (apply list_elem_of_further, list_elem_of_here).
  assert (Hp : playersOf sampleOpenDb "AB12" !! "bob"%string
               = Some (mkPlayerDoc "Bob" 0 false None None 7))
    by (vm_compute; reflexivity).
  assert (Hnow : 1040000 ≠ 0) by discriminate.
  assert (Hlast : lastRunQuestionId revealedHostScreen ≠ Some (CsvId 0))
    by discriminate.
  destruct (answer_scored_after_reveal "AB12" "bob" "Paris" 1040000
              sampleOpenDb revealedHostScreen
              (sampleGame PLAYING 0 (Some 1000000))
              (mkQuestion (CsvId 0) "Capital of France?" "Paris"
                 ["Rome"; "Paris"; "Oslo"])
              (mkPlayerDoc "Bob" 0 false None None 7)
              Hcode Hg eq_refl Hhost eq_refl Hopt Hp eq_refl eq_refl Hnow
              eq_refl Hlast)
    as (p' & Hp' & _ & _ & _ & Hlate & _).
  exists p'. split; [exact Hp'|]. apply Hlate; [reflexivity|].
  simpl. lia.
Defined.

Section AllAnswered.

Lemma filter_length_all {A : Type} (P : A → Prop) `{∀ x, Decision (P x)}
    (l : list A) :
  length (filter P l) = length l ↔ Forall P l.
Proof.
  induction l as [|x l IH]; [by split; [constructor|]|].
  pose proof (length_filter P l) as Hle.
  destruct (decide (P x)) as [Hx|Hx].
  - rewrite filter_cons_True by done. simpl.
    rewrite Forall_cons. split.
    + intros Hlen. split; [done|]. apply IH. lia.
    + intros [_ Hall]. f_equal. by apply IH.
  - rewrite filter_cons_False by done. simpl. split; [lia|].
    by intros [? _]%Forall_cons.
Qed.

Lemma allAnsweredOf_spec (players : list (string * PlayerDoc)) :
  allAnsweredOf players = true
  ↔ ∀ p, p ∈ players → isHost p.2 = false → lastAnswer p.2 ≠ None.
Proof.
  unfold allAnsweredOf. rewrite Nat.eqb_eq, filter_length_all.
  rewrite Forall_forall. unfold activePlayersOf. split.
  - intros Hall p Hp Hh. apply Hall. by apply list_elem_of_filter.
  - intros Hall p [Hh Hp]%list_elem_of_filter. by apply Hall.
Qed.

End AllAnswered.

(** X13. On the host screen of a question in play whose answers are not
    shown yet, the reveal effect shows the answers at once exactly when
    every player who is not marked as host has an answer that is not null:
    the last answer of the round reveals the question, and so does a round
    without any such player. *)
Theorem reveal_at_once_iff_all_answered (now : Z) (code : string)
    (db : Firestore) (h : HostScreen) (g : GameDoc) :
  gameDocs db !! code = Some g →
  status g = PLAYING →
  truthy_number (currentQuestionStartTime g) = true →
  showAnswers h = false → isScoring h = false →
  showAnswers (revealEffectOf code now (db, h)) = true
  ↔ ∀ uid p, playersOf db code !! uid = Some p →
             isHost p = false → lastAnswer p ≠ None.
Proof.
  intros Hg Hst Hstart Hshow Hsc. unfold revealEffectOf; simpl. rewrite Hg.
  assert (Hall : allAnsweredOf (playersSnapshot db code) = true
                 ↔ ∀ uid p, playersOf db code !! uid = Some p →
                            isHost p = false → lastAnswer p ≠ None).
  { rewrite allAnsweredOf_spec. unfold playersSnapshot. split.
    - intros Hp uid p Hlook. apply (Hp (uid, p)).
      by apply elem_of_map_to_list.
    - intros Hp [uid p] Hin. apply elem_of_map_to_list in Hin.
      by apply (Hp uid p). }
  rewrite <- Hall.
  destruct (allAnsweredOf (playersSnapshot db code)) eqn:Hans.
  - split; [done|]. intros _. by apply revealEffect_all_answered.
  - split; [|done]. unfold revealEffect.
    rewrite bool_decide_eq_true_2, Hstart by done. simpl. by rewrite Hshow.
Qed.

Lemma reveal_at_once_iff_all_answered_witness :
  showAnswers (revealEffectOf "AB12" 1007000 (sampleDb, mountHostScreen))
  = true.
Proof.
  assert (Hg : gameDocs sampleDb !! "AB12"%string
               = Some (sampleGame PLAYING 0 (Some 1000000)))
    by (vm_compute; reflexivity).
  apply (reveal_at_once_iff_all_answered 1007000 "AB12" sampleDb
           mountHostScreen (sampleGame PLAYING 0 (Some 1000000))
           Hg eq_refl eq_refl eq_refl eq_refl).
  intros uid p Hp Hh.
  assert (Hin : (uid, p) ∈ map_to_list (playersOf sampleDb "AB12"))
    by by apply elem_of_map_to_list.
  clear Hp Hg. vm_compute in Hin.
  repeat (apply elem_of_cons in Hin as [Heq|Hin];
          [injection Heq as -> ->; simpl in *; congruence|]).
  by apply elem_of_nil in Hin.
Defined.

(** ** The leaderboard *)

Section Leaderboard.

Implicit Types (p : string * PlayerDoc) (l : list (string * PlayerDoc)).

Lemma insertByScore_Permutation p l : insertByScore p l ≡ₚ p :: l.
Proof.
  induction l as [|x l IH]; simpl; [done|].
  destruct (score p.2 <? score x.2); [|done].
  rewrite IH. apply Permutation_swap.
Qed.

Lemma sortByScore_Permutation l : sortByScore l ≡ₚ l.
Proof.
  induction l as [|x l IH]; simpl; [done|].
  by rewrite insertByScore_Permutation, IH.
Qed.

Lemma insertByScore_sorted p l :
  StronglySorted byScore l → StronglySorted byScore (insertByScore p l).
Proof.
  induction l as [|x l IH]; simpl; intros Hl.
  { apply SSorted_cons; [constructor|apply Forall_nil_2]. }
  apply StronglySorted_inv in Hl as [Hl Hx].
  destruct (score p.2 <? score x.2) eqn:Hlt.
  - apply Z.ltb_lt in Hlt. apply SSorted_cons; [by apply IH|].
    rewrite insertByScore_Permutation. apply Forall_cons_2; [|done].
    unfold byScore. lia.
  - apply Z.ltb_ge in Hlt. apply SSorted_cons.
    + by apply SSorted_cons.
    + apply Forall_cons_2; [done|].
      eapply Forall_impl; [exact Hx|]. unfold byScore. intros y Hy. lia.
Qed.

Lemma sortByScore_sorted l : StronglySorted byScore (sortByScore l).
Proof.
  induction l as [|x l IH]; simpl; [constructor|].
  by apply insertByScore_sorted.
Qed.

Lemma insertByScore_head p l :
  Forall (byScore p) l → insertByScore p l = p :: l.
Proof.
  destruct l as [|x l]; simpl; [done|]. intros [Hx _]%Forall_cons.
  unfold byScore in Hx. apply Z.ltb_ge in Hx. by rewrite Hx.
Qed.

Lemma sortByScore_sorted_id l : StronglySorted byScore l → sortByScore l = l.
Proof.
  induction 1 as [|x l Hl IH Hx]; simpl; [done|].
  rewrite IH. by apply insertByScore_head.
Qed.

Lemma filter_insertByScore (P : string * PlayerDoc → Prop)
    `{∀ x, Decision (P x)} p l :
  StronglySorted byScore l →
  filter P (insertByScore p l)
  = if decide (P p) then insertByScore p (filter P l) else filter P l.
Proof.
  induction l as [|x l IH]; simpl; intros Hl.
  { rewrite filter_cons, filter_nil. by destruct (decide (P p)). }
  apply StronglySorted_inv in Hl as [Hl Hx].
  destruct (score p.2 <? score x.2) eqn:Hlt.
  - rewrite !(filter_cons _ x), (IH Hl).
    destruct (decide (P x)), (decide (P p)); simpl; try done.
    by rewrite Hlt.
  - rewrite (filter_cons _ p). destruct (decide (P p)); [|done].
    rewrite insertByScore_head; [done|].
    apply Z.ltb_ge in Hlt.
    assert (Hall : Forall (byScore p) (x :: l)).
    { apply Forall_cons_2; [done|].
      eapply Forall_impl; [exact Hx|]. unfold byScore. intros y Hy. lia. }
    apply Forall_forall. intros y [_ Hy]%list_elem_of_filter.
    rewrite Forall_forall in Hall. by apply Hall.
Qed.

Lemma filter_sortByScore (P : string * PlayerDoc → Prop)
    `{∀ x, Decision (P x)} l :
  filter P (sortByScore l) = sortByScore (filter P l).
Proof.
  induction l as [|x l IH]; simpl; [done|].
  rewrite filter_insertByScore by apply sortByScore_sorted.
  rewrite filter_cons. destruct (decide (P x)); simpl; by rewrite IH.
Qed.

Lemma insertByScore_stable (s : Z) p l :
  filter (λ x, score x.2 = s) (insertByScore p l)
  = filter (λ x, score x.2 = s) (p :: l).
Proof.
  induction l as [|x l IH]; simpl; [done|].
  destruct (score p.2 <? score x.2) eqn:Hlt; [|done].
  apply Z.ltb_lt in Hlt.
  rewrite (filter_cons _ x), IH, !(filter_cons _ p), (filter_cons _ x).
  destruct (decide (score x.2 = s)), (decide (score p.2 = s)); simpl;
    try done. lia.
Qed.

Lemma sortByScore_stable (s : Z) l :
  filter (λ x, score x.2 = s) (sortByScore l)
  = filter (λ x, score x.2 = s) l.
Proof.
  induction l as [|x l IH]; simpl; [done|].
  rewrite insertByScore_stable, !(filter_cons _ x), IH. done.
Qed.

End Leaderboard.

(** X14. The leaderboard of the results screen lists every player who is
    not marked as host once, and nobody else, in descending order of
    score; players of equal score keep the order of the players array; no
    listed player has a higher score than the one in the first row. The
    array [App] passes on is already sorted by score, which makes no
    difference to the leaderboard. *)
Theorem leaderboard_sorted (players : list (string * PlayerDoc)) :
  sortedPlayers players ≡ₚ activePlayersOf players
  ∧ StronglySorted byScore (sortedPlayers players)
  ∧ (∀ s, filter (λ x, score x.2 = s) (sortedPlayers players)
          = filter (λ x, score x.2 = s) (activePlayersOf players))
  ∧ (∀ first rest p,
       sortedPlayers players = first :: rest →
       p ∈ players → isHost p.2 = false → score p.2 ≤ score first.2)
  ∧ sortedPlayers (sortByScore players) = sortedPlayers players.
Proof.
  unfold sortedPlayers.
  split; [apply sortByScore_Permutation|].
  split; [apply sortByScore_sorted|].
  split; [intros s; apply sortByScore_stable|]. split.
  - intros first rest p Hsorted Hp Hh.
    pose proof (sortByScore_sorted (activePlayersOf players)) as Hs.
    assert (Hin : p ∈ sortByScore (activePlayersOf players)).
    { rewrite sortByScore_Permutation. by apply list_elem_of_filter. }
    rewrite Hsorted in Hs, Hin.
    apply StronglySorted_inv in Hs as [_ Hfirst].
    apply elem_of_cons in Hin as [->|Hin]; [done|].
    rewrite Forall_forall in Hfirst. by apply Hfirst.
  - unfold activePlayersOf. rewrite filter_sortByScore.
    apply sortByScore_sorted_id, sortByScore_sorted.
Qed.

(** ** Closing a room *)

Section EndGame.

Implicit Types (db : Firestore) (code uid : string).

Lemma endGame_host db code uid g :
  gameDocs db !! code = Some g →
  status g = RESULTS → hostUserId g = uid →
  endGame code uid db
  = mkFirestore (delete code (gameDocs db)) (delete code (playerDocs db)).
Proof.
  intros Hg Hst Hh. unfold endGame, screenOf, handleEndGame.
  rewrite Hg, Hst. simpl. by rewrite !bool_decide_eq_true_2.
Qed.

Lemma endGame_refused db code uid g :
  gameDocs db !! code = Some g →
  status g ≠ RESULTS ∨ hostUserId g ≠ uid →
  endGame code uid db = db.
Proof.
  intros Hg Hno.
  destruct (endGame_cases code uid db) as [->|(g' & Hg' & Hst & Hh & _)];
    [done|].
  assert (g' = g) as -> by congruence. by destruct Hno.
Qed.

End EndGame.

(** X15. Only the host can close a room, and only from the results
    screen: for any other user and in any other status of the game the
    handler of the button writes nothing. When the host closes the room,
    the game document and all its player documents are gone, every other
    game and its players are untouched, and a later attempt to join under
    the code is told that the code is invalid. *)
Theorem endGame_closes_room (code uid : string) (db : Firestore)
    (g : GameDoc) :
  gameDocs db !! code = Some g →
  (status g ≠ RESULTS ∨ hostUserId g ≠ uid → endGame code uid db = db)
  ∧ (status g = RESULTS → hostUserId g = uid →
     gameDocs (endGame code uid db) !! code = None
     ∧ playersOf (endGame code uid db) code = ∅
     ∧ (∀ c, c ≠ code →
          gameDocs (endGame code uid db) !! c = gameDocs db !! c
          ∧ playersOf (endGame code uid db) c = playersOf db c)
     ∧ (∀ uid2 name2 typed now,
          uid2 ≠ EmptyString → name2 ≠ EmptyString →
          toUpperCase typed = code →
          handleJoinGame uid2 name2 typed now (endGame code uid db)
          = (endGame code uid db, JoinInvalidCode))).
Proof.
  intros Hg. split; [by apply endGame_refused|].
  intros Hst Hh. rewrite (endGame_host db code uid g Hg Hst Hh).
  split; [simpl; apply lookup_delete_eq|].
  split; [unfold playersOf; simpl; by rewrite lookup_delete_eq|].
  split.
  - intros c Hc. unfold playersOf; simpl.
    by rewrite !lookup_delete_ne.
  - intros uid2 name2 typed now Hu Hn Htyped. unfold handleJoinGame, nonEmpty.
    rewrite (bool_decide_eq_false_2 _ Hu), (bool_decide_eq_false_2 _ Hn).
    simpl. by rewrite Htyped, lookup_delete_eq.
Qed.

Lemma endGame_closes_room_witness :
  gameDocs
    (endGame "AB12" "host"
       (mkFirestore {[ "AB12"%string := sampleGame RESULTS 1 (Some 1000000) ]}
          {[ "AB12"%string := samplePlayers ]})) !! "AB12"%string = None.
Proof.
  assert (Hg : gameDocs
                 (mkFirestore
                    {[ "AB12"%string := sampleGame RESULTS 1 (Some 1000000) ]}
                    {[ "AB12"%string := samplePlayers ]}) !! "AB12"%string
               = Some (sampleGame RESULTS 1 (Some 1000000)))
    by (vm_compute; reflexivity).
  destruct (endGame_closes_room "AB12" "host" _ _ Hg) as [_ Hclose].
  destruct (Hclose eq_refl eq_refl) as [Hgone _]. exact Hgone.
Defined.

(** ** Creating and joining *)

Section CreateJoin.

Lemma toUpperCaseChar_idempotent (c : ascii) :
  toUpperCaseChar (toUpperCaseChar c) = toUpperCaseChar c.
Proof. destruct c as [[] [] [] [] [] [] [] []]; reflexivity. Qed.

Lemma toUpperCase_idempotent (s : string) :
  toUpperCase (toUpperCase s) = toUpperCase s.
Proof.
  induction s as [|c s IH]; simpl; [done|].
  by rewrite toUpperCaseChar_idempotent, IH.
Qed.

End CreateJoin.

(** X16. A game that was created can be joined under its code, typed in
    either case: after the creation the game is in the lobby with the
    creator as host, and a second user who enters any spelling whose upper
    case is the code joins it. Both then are on the lobby screen of the
    game, the creator with a player document marked as host and the
    second user with one that is not, both with the score 0 and no
    answer. The code itself is such a spelling. *)
Theorem create_then_join (uid1 name1 uid2 name2 typed : string)
    (fraction : list nat) (now1 now2 : Z) (db : Firestore) :
  uid1 ≠ EmptyString → name1 ≠ EmptyString →
  generateGameCode fraction ≠ EmptyString →
  uid2 ≠ EmptyString → name2 ≠ EmptyString → uid2 ≠ uid1 →
  toUpperCase typed = generateGameCode fraction →
  let code := generateGameCode fraction in
  let created := handleCreateGame uid1 name1 fraction now1 db in
  let joined := handleJoinGame uid2 name2 typed now2 created.1 in
  created.2 = Some code
  ∧ joined.2 = Joined
  ∧ gameDocs joined.1 !! code = Some (mkGameDoc code uid1 LOBBY [] (-1) None)
  ∧ playersOf joined.1 code !! uid1
    = Some (mkPlayerDoc name1 0 true None None now1)
  ∧ playersOf joined.1 code !! uid2
    = Some (mkPlayerDoc name2 0 false None None now2)
  ∧ screenOf joined.1 code uid1 = LobbyScreen
  ∧ screenOf joined.1 code uid2 = LobbyScreen
  ∧ toUpperCase code = code.
Proof.
  intros Hu1 Hn1 Hcode Hu2 Hn2 Hne Htyped code created joined.
  assert (Hcreated : created
            = (setPlayerDoc code uid1
                 (mkPlayerDoc name1 0 true None None now1)
                 (setGameDoc code (mkGameDoc code uid1 LOBBY [] (-1) None)
                    db),
               Some code)).
  { destruct (handleCreateGame_cases uid1 name1 fraction now1 db)
      as [Hno | (_ & _ & _ & Hyes)]; [|exact Hyes].
    exfalso. revert Hno. unfold handleCreateGame, nonEmpty.
    rewrite (bool_decide_eq_false_2 _ Hu1), (bool_decide_eq_false_2 _ Hn1),
      (bool_decide_eq_false_2 _ Hcode). done. }
  set (db1 := setPlayerDoc code uid1 (mkPlayerDoc name1 0 true None None now1)
                (setGameDoc code (mkGameDoc code uid1 LOBBY [] (-1) None) db))
    in Hcreated.
  assert (Hg1 : gameDocs db1 !! code
                = Some (mkGameDoc code uid1 LOBBY [] (-1) None)).
  { unfold db1. rewrite gameDocs_setPlayerDoc, gameDocs_setGameDoc.
    by rewrite decide_True. }
  assert (Hjoined : joined
            = (setPlayerDoc code uid2
                 (mkPlayerDoc name2 0 false None None now2) db1,
               Joined)).
  { unfold joined. rewrite Hcreated. cbn [fst].
    rewrite (handleJoinGame_open uid2 name2 typed now2 db1
               (mkGameDoc code uid1 LOBBY [] (-1) None)).
    - by rewrite Htyped.
    - unfold nonEmpty. by rewrite (bool_decide_eq_false_2 _ Hu2).
    - unfold nonEmpty. by rewrite (bool_decide_eq_false_2 _ Hn2).
    - by rewrite Htyped.
    - by left. }
  assert (Hg2 : gameDocs joined.1 !! code
                = Some (mkGameDoc code uid1 LOBBY [] (-1) None)).
  { rewrite Hjoined. cbn [fst]. by rewrite gameDocs_setPlayerDoc. }
  split; [by rewrite Hcreated|]. split; [by rewrite Hjoined|].
  split; [exact Hg2|]. split; [|split; [|split; [|split]]].
  - rewrite Hjoined. cbn [fst]. rewrite playersOf_setPlayerDoc.
    rewrite decide_False by done. unfold db1.
    rewrite playersOf_setPlayerDoc. by rewrite decide_True.
  - rewrite Hjoined. cbn [fst]. rewrite playersOf_setPlayerDoc.
    by rewrite decide_True.
  - apply (screenOf_lobby _ _ _ _ Hg2). by left.
  - apply (screenOf_lobby _ _ _ _ Hg2). by left.
  - unfold code, generateGameCode. apply toUpperCase_idempotent.
Qed.

Lemma create_then_join_witness :
  (handleJoinGame "ann" "Ann" "ab12" 6
     (handleCreateGame "host" "Hana" [10; 11; 1; 2]%nat 5 emptyDb).1).2
  = Joined.
Proof.
  assert (Hcode : generateGameCode [10; 11; 1; 2]%nat ≠ EmptyString)
    by (vm_compute; discriminate).
  assert (Htyped : toUpperCase "ab12" = generateGameCode [10; 11; 1; 2]%nat)
    by (vm_compute; reflexivity).
  assert (H1 : "host"%string ≠ EmptyString) by discriminate.
  assert (H2 : "Hana"%string ≠ EmptyString) by discriminate.
  assert (H3 : "ann"%string ≠ EmptyString) by discriminate.
  assert (H4 : "Ann"%string ≠ EmptyString) by discriminate.
  assert (H5 : "ann"%string ≠ "host"%string) by discriminate.
  destruct (create_then_join "host" "Hana" "ann" "Ann" "ab12"
              [10; 11; 1; 2]%nat 5 6 emptyDb H1 H2 Hcode H3 H4 H5 Htyped)
    as (_ & Hjoined & _).
  exact Hjoined.
Defined.

(** ** From the start to the results *)

Section Rounds.

Implicit Types (db : Firestore) (code uid : string) (h : HostScreen).

Lemma hostRound_next db h code uid now g :
  gameDocs db !! code = Some g →
  status g = PLAYING → hostUserId g = uid → isScoring h = false →
  currentQuestionIndex g + 1 < Z.of_nat (length (questions g)) →
  ∃ db' h',
    hostRound code uid (db, h) now = (db', h')
    ∧ gameDocs db' !! code
      = Some (set_question (currentQuestionIndex g + 1) now g)
    ∧ isScoring h' = false.
Proof.
  intros Hg Hst Hh Hsc Hlt. unfold hostRound, revealNow; simpl.
  rewrite Hsc.
  rewrite (advance_next db _ code uid now g) by done.
  eexists _, _. split; [reflexivity|]. split; [|done].
  rewrite gameDocs_updateAllPlayers, gameDocs_scoringEffect. cbn [fst].
  rewrite gameDocs_setGameDoc. by rewrite decide_True.
Qed.

Lemma hostRound_last db h code uid now g :
  gameDocs db !! code = Some g →
  status g = PLAYING → hostUserId g = uid → isScoring h = false →
  Z.of_nat (length (questions g)) ≤ currentQuestionIndex g + 1 →
  gameDocs (hostRound code uid (db, h) now).1 !! code
  = Some (set_status RESULTS g).
Proof.
  intros Hg Hst Hh Hsc Hge. unfold hostRound, revealNow; simpl.
  rewrite Hsc.
  rewrite (advance_last db _ code uid now g) by done. cbn [fst].
  rewrite gameDocs_setGameDoc. by rewrite decide_True.
Qed.

Lemma hostRounds_playing (times : list Z) : ∀ db h code uid g,
  gameDocs db !! code = Some g →
  status g = PLAYING → hostUserId g = uid → isScoring h = false →
  currentQuestionIndex g + Z.of_nat (length times)
    < Z.of_nat (length (questions g)) →
  ∃ db' h' g',
    hostRounds code uid times (db, h) = (db', h')
    ∧ gameDocs db' !! code = Some g'
    ∧ isScoring h' = false
    ∧ status g' = PLAYING ∧ hostUserId g' = uid
    ∧ questions g' = questions g
    ∧ currentQuestionIndex g'
      = currentQuestionIndex g + Z.of_nat (length times).
Proof.
  induction times as [|now times IH]; intros db h code uid g Hg Hst Hh Hsc Hlt.
  { exists db, h, g. simpl. repeat split; try done. lia. }
  simpl in Hlt.
  destruct (hostRound_next db h code uid now g) as (db1 & h1 & Hr & Hg1 & Hsc1);
    [done..|lia|].
  destruct (IH db1 h1 code uid _ Hg1) as (db' & h' & g' & Hrs & Hg' & Hsc' &
    Hst' & Hh' & Hq' & Hi'); [done..|simpl; lia|].
  exists db', h', g'. unfold hostRounds in *. simpl. rewrite Hr.
  split; [exact Hrs|]. do 4 (split; [done|]). split; [done|].
  rewrite Hi'. simpl. lia.
Qed.

End Rounds.

(** X17. A game in play runs to its results: when the host reveals and
    advances round after round, the game stays in play while questions are
    left, each round moving to the next question of the same list, and the
    round after the last question puts the game into status RESULTS. From
    the question at index [i] of [n] questions this takes [n - i]
    rounds. *)
Theorem game_reaches_results (code uid : string) (db : Firestore)
    (h : HostScreen) (g : GameDoc) (times : list Z) (now : Z) :
  gameDocs db !! code = Some g →
  status g = PLAYING → hostUserId g = uid → isScoring h = false →
  currentQuestionIndex g + Z.of_nat (length times)
    < Z.of_nat (length (questions g)) →
  (∃ g', gameDocs (hostRounds code uid times (db, h)).1 !! code = Some g'
         ∧ status g' = PLAYING
         ∧ questions g' = questions g
         ∧ currentQuestionIndex g'
           = currentQuestionIndex g + Z.of_nat (length times))
  ∧ (currentQuestionIndex g + Z.of_nat (length times) + 1
       = Z.of_nat (length (questions g)) →
     ∃ g', gameDocs (hostRounds code uid (times ++ [now]) (db, h)).1 !! code
             = Some g'
           ∧ status g' = RESULTS
           ∧ questions g' = questions g
           ∧ currentQuestionIndex g' + 1 = Z.of_nat (length (questions g))).
Proof.
  intros Hg Hst Hh Hsc Hlt.
  destruct (hostRounds_playing times db h code uid g)
    as (db' & h' & g' & Hrs & Hg' & Hsc' & Hst' & Hh' & Hq' & Hi'); [done..|].
  split.
  - exists g'. rewrite Hrs. done.
  - intros Hlast. exists (set_status RESULTS g').
    unfold hostRounds in *. rewrite foldl_app, Hrs. simpl.
    rewrite (hostRound_last db' h' code uid now g')
      by (try done; rewrite Hq', Hi'; lia).
    split; [done|]. split; [done|]. split; [done|]. simpl.
    rewrite Hi'. lia.
Qed.

Lemma game_reaches_results_witness :
  ∃ g', gameDocs
          (hostRounds "AB12" "host" ([1031000] ++ [1062000])
             (sampleDb, mountHostScreen)).1 !! "AB12"%string = Some g'
        ∧ status g' = RESULTS.
Proof.
  assert (Hg : gameDocs sampleDb !! "AB12"%string
               = Some (sampleGame PLAYING 0 (Some 1000000)))
    by (vm_compute; reflexivity).
  assert (Hlt : currentQuestionIndex (sampleGame PLAYING 0 (Some 1000000))
                + Z.of_nat (length [1031000])
                < Z.of_nat
                    (length (questions (sampleGame PLAYING 0 (Some 1000000)))))
    by (simpl; lia).
  destruct (game_reaches_results "AB12" "host" sampleDb mountHostScreen
              (sampleGame PLAYING 0 (Some 1000000)) [1031000] 1062000
              Hg eq_refl eq_refl eq_refl Hlt)
    as [_ Hend].
  destruct Hend as (g' & Hg' & Hst' & _); [simpl; lia|].
  exists g'. by split.
Defined.

(** ** The Gemini service *)

Section GeminiService.

Implicit Types (fetch : nat → FetchResult) (delays : list Z).

Lemma attemptOnce_text (f : FetchResult) (text : string) :
  attemptOnce f = inr text → text ≠ EmptyString.
Proof.
  unfold attemptOnce. destruct f as [m|res]; [done|].
  destruct (negb (resOk res)); [done|].
  destruct (resJson res) as [m|json]; [done|].
  destruct (jsonError json); [done|].
  destruct (candidateText json) as [t|]; simpl;
    [|destruct (bool_decide (finishReason json = _)); discriminate].
  destruct (bool_decide (t = EmptyString)) eqn:Ht; simpl.
  - destruct (bool_decide (finishReason json = _)); discriminate.
  - apply bool_decide_eq_false_1 in Ht. by intros [= <-].
Qed.

Lemma backoffDelays_S (k : nat) :
  backoffDelays (S k) = backoffDelays k ++ [2 ^ Z.of_nat k * 1000].
Proof. unfold backoffDelays. by rewrite seq_S, fmap_app. Qed.

Lemma backoffDelays_sum (k : nat) :
  foldr Z.add 0 (backoffDelays k) = 1000 * (2 ^ Z.of_nat k - 1).
Proof.
  induction k as [|k IH]; [done|].
  rewrite backoffDelays_S, foldr_app. simpl.
  assert (Hshift : ∀ (l : list Z) (a : Z),
            foldr Z.add a l = foldr Z.add 0 l + a).
  { induction l as [|x l IHl]; intros a; simpl; [lia|]. rewrite IHl. lia. }
  rewrite Hshift, IH. rewrite Nat2Z.inj_succ, Z.pow_succ_r by lia. lia.
Qed.

(** The loop from an attempt on whose predecessors have failed. *)
Lemma callLoop_success fetch (retries k : nat) (text : string) :
  ∀ (fuel attempt : nat),
    (attempt + fuel = retries)%nat →
    (attempt ≤ k < retries)%nat →
    (∀ i, (attempt ≤ i < k)%nat → ∃ e, attemptOnce (fetch i) = inl e) →
    attemptOnce (fetch k) = inr text →
    callLoop fetch retries attempt fuel (backoffDelays attempt)
    = (Returned text, backoffDelays k).
Proof.
  induction fuel as [|fuel IH]; intros attempt Hsum Hk Hfail Hok; [lia|].
  simpl. destruct (decide (attempt = k)) as [->|Hne].
  { by rewrite Hok. }
  destruct (Hfail attempt) as [e He]; [lia|]. rewrite He.
  destruct (Z.of_nat attempt =? Z.of_nat retries - 1) eqn:Hlast;
    [apply Z.eqb_eq in Hlast; lia|].
  rewrite <- backoffDelays_S. apply IH; [lia|lia| |done].
  intros i Hi. apply Hfail. lia.
Qed.

Lemma callLoop_failure fetch (retries : nat) (e : string) :
  ∀ (fuel attempt : nat),
    (attempt + fuel = retries)%nat → (0 < fuel)%nat →
    (∀ i, (attempt ≤ i < retries)%nat → ∃ e', attemptOnce (fetch i) = inl e') →
    attemptOnce (fetch (retries - 1)%nat) = inl e →
    callLoop fetch retries attempt fuel (backoffDelays attempt)
    = (Threw e, backoffDelays (retries - 1)%nat).
Proof.
  induction fuel as [|fuel IH]; intros attempt Hsum Hfuel Hfail Hlast; [lia|].
  simpl. destruct (Hfail attempt) as [e' He']; [lia|]. rewrite He'.
  destruct (Z.of_nat attempt =? Z.of_nat retries - 1) eqn:Hl.
  - apply Z.eqb_eq in Hl.
    assert (attempt = (retries - 1)%nat) as -> by lia.
    rewrite Hlast in He'. by injection He' as ->.
  - apply Z.eqb_neq in Hl. rewrite <- backoffDelays_S.
    apply IH; [lia|lia| |done]. intros i Hi. apply Hfail. lia.
Qed.

End GeminiService.

(** X18. [callGeminiApi] tries at most [retries] times and returns the
    text of the first attempt that succeeds, which is never empty; before
    that attempt it has waited 1000 ms after the first failure and twice
    as long after each further one, [1000 * (2^k - 1)] ms in all before
    the attempt [k]. When every attempt fails it throws the error of the
    last one, without waiting after it. Without an API key it throws
    before any attempt, and with [retries = 0] it makes no attempt and
    returns [undefined]. *)
Theorem callGeminiApi_retries (apiKey : string) (fetch : nat → FetchResult)
    (retries : nat) :
  (apiKey = EmptyString →
   callGeminiApi apiKey fetch retries
   = (Threw "Gemini API key not provided.", []))
  ∧ (apiKey ≠ EmptyString →
     (retries = 0%nat →
      callGeminiApi apiKey fetch retries = (ReturnedUndefined, []))
     ∧ (∀ k text,
          (k < retries)%nat →
          (∀ i, (i < k)%nat → ∃ e, attemptOnce (fetch i) = inl e) →
          attemptOnce (fetch k) = inr text →
          callGeminiApi apiKey fetch retries
          = (Returned text, backoffDelays k)
          ∧ text ≠ EmptyString)
     ∧ (∀ e,
          (0 < retries)%nat →
          (∀ i, (i < retries)%nat → ∃ e', attemptOnce (fetch i) = inl e') →
          attemptOnce (fetch (retries - 1)%nat) = inl e →
          callGeminiApi apiKey fetch retries
          = (Threw e, backoffDelays (retries - 1)%nat)))
  ∧ (∀ k, foldr Z.add 0 (backoffDelays k) = 1000 * (2 ^ Z.of_nat k - 1)).
Proof.
  split; [|split].
  - intros ->. reflexivity.
  - intros Hkey. unfold callGeminiApi, nonEmpty.
    rewrite (bool_decide_eq_false_2 _ Hkey). simpl.
    split; [by intros ->|]. split.
    + intros k text Hk Hfail Hok. split; [|by eapply attemptOnce_text].
      apply (callLoop_success fetch retries k text retries 0%nat);
        [lia|lia| |done].
      intros i Hi. apply Hfail. lia.
    + intros e Hpos Hfail Hlast.
      apply (callLoop_failure fetch retries e retries 0%nat);
        [lia|lia| |done].
      intros i Hi. apply Hfail. lia.
  - apply backoffDelays_sum.
Qed.

Example callGeminiApi_third_attempt :
  callGeminiApi "key"
    (λ i, if (i <? 2)%nat then FetchRejected "offline"
          else FetchResolved
                 (mkResponse true "200" "OK" None
                    (inr (mkGeminiJson None (Some "[]"%string) None))))
    3
  = (Returned "[]", [1000; 2000]).
Proof. reflexivity. Qed.

(** X19. A generation that fails writes nothing: when [callGeminiApi]
    throws or returns nothing, when the text it returns is not JSON or not
    a non-empty array, or when no entry of the array has its four answers,
    [fetchQuestions] returns the empty list and [handleGenerateQuestions]
    leaves the database as it is. When the handler does write, the call
    has returned a text that parses to an array, and the game holds the
    questions formatted from it, at least one, in status UPLOAD. *)
Theorem failed_generation_writes_nothing (code topic : string)
    (isHost : bool) (random : nat → nat → Random)
    (parse : string → option (option (list RawQuestion)))
    (api : ApiOutcome) (db : Firestore) :
  let generated := fetchQuestions random parse api in
  let db' := handleGenerateQuestions code isHost topic generated db in
  ((∀ text, api ≠ Returned text) → db' = db)
  ∧ (∀ text, api = Returned text →
       (∀ raw, parse text ≠ Some (Some raw)) → db' = db)
  ∧ (∀ text raw, api = Returned text → parse text = Some (Some raw) →
       generateQuestions random raw = [] → db' = db)
  ∧ (db' ≠ db →
     ∃ text raw g,
       api = Returned text ∧ parse text = Some (Some raw)
       ∧ generateQuestions random raw ≠ []
       ∧ isHost = true
       ∧ gameDocs db !! code = Some g
       ∧ gameDocs db' !! code
         = Some (set_questions (generateQuestions random raw) g)).
Proof.
  intros generated db'.
  assert (Hempty : generated = [] → db' = db).
  { intros Hgen. unfold db', handleGenerateQuestions. rewrite Hgen. simpl.
    by destruct (_ || _). }
  split; [|split; [|split]].
  - intros Hno. apply Hempty. unfold generated, fetchQuestions.
    destruct api as [text| |]; [by destruct (Hno text)|done..].
  - intros text -> Hparse. apply Hempty.
    unfold generated, fetchQuestions, generateQuestionsFrom.
    destruct (parse text) as [[raw|]|]; [by destruct (Hparse raw)|done..].
  - intros text raw -> Hparse Hnone. apply Hempty.
    unfold generated, fetchQuestions, generateQuestionsFrom.
    rewrite Hparse. destruct (length raw =? 0)%nat; [done|exact Hnone].
  - intros Hchanged.
    assert (Hgen : generated ≠ []) by (intros H; by apply Hchanged, Hempty).
    unfold generated, fetchQuestions, generateQuestionsFrom in Hgen.
    destruct api as [text| |]; [|done..].
    destruct (parse text) as [[raw|]|] eqn:Hparse; [|done..].
    assert (Hq : generated = generateQuestions random raw).
    { unfold generated, fetchQuestions, generateQuestionsFrom.
      rewrite Hparse. destruct (length raw =? 0)%nat eqn:Hlen; [|done].
      apply Nat.eqb_eq in Hlen. by destruct raw. }
    destruct (length raw =? 0)%nat; [done|].
    unfold db', handleGenerateQuestions in Hchanged |- *.
    rewrite Hq in Hchanged |- *.
    destruct isHost; [|by rewrite !orb_true_r in Hchanged].
    destruct (negb (nonEmpty code) || negb true
              || negb (nonEmpty (trim topic))); [done|].
    destruct (length (generateQuestions random raw) =? 0)%nat; [done|].
    unfold updateGameDoc in Hchanged |- *.
    destruct (gameDocs db !! code) as [g|] eqn:Hg; [|done]. simpl.
    exists text, raw, g. do 5 (split; [done|]).
    by rewrite lookup_insert, decide_True.
Qed.

Lemma failed_generation_writes_nothing_witness :
  handleGenerateQuestions "AB12" true "planets"
    (fetchQuestions (λ _ _, randomHalf) (λ _, Some (Some sampleRaw))
       (Threw "offline")) sampleLobbyDb
  = sampleLobbyDb.
Proof.
  destruct (failed_generation_writes_nothing "AB12" "planets" true
              (λ _ _, randomHalf) (λ _, Some (Some sampleRaw))
              (Threw "offline") sampleLobbyDb) as [Hthrow _].
  apply Hthrow. intros text. discriminate.
Defined.

(** ** The scoring service and the earlier inline formula *)

Section InlineScoring.

Local Open Scope Q_scope.

Lemma inlineScore_negative (rt : Z) :
  (rt < 0)%Z → inlineScore (inject_Z rt) = ((60030 - rt) / 60)%Z.
Proof.
  intros Hrt. unfold inlineScore.
  assert (Hp : Qmin (inject_Z rt / 1000 / 30) 1 == inject_Z rt / 30000).
  { assert (Heq : inject_Z rt / 1000 / 30 == inject_Z rt / 30000) by field.
    rewrite Q.min_l; [exact Heq|]. rewrite Heq.
    apply Qle_shift_div_r; [reflexivity|].
    change (1 * 30000) with (inject_Z 30000). rewrite <- Zle_Qle. lia. }
  assert (Hr : Math_round (1000 - 500 * Qmin (inject_Z rt / 1000 / 30) 1)
               = ((60030 - rt) / 60)%Z).
  { rewrite <- (Math_round_decay (inject_Z rt / 30000) rt) by reflexivity.
    unfold Math_round. apply Qfloor_comp. rewrite Hp.
    change (inject_Z MAX_SCORE) with 1000.
    change (inject_Z MIN_SCORE) with 500. ring. }
  rewrite Hr. apply Z.max_l, Z.div_le_lower_bound; lia.
Qed.

End InlineScoring.

(** X20. The inline scoring formula of the earlier host screen and the
    scoring service award the same points, except for an answer whose
    timestamp lies before the start of the question, as the clock of a
    player may have it: the service then awards 500 points and the inline
    formula at least 1000. For a timestamp up to an hour early the inline
    points are a whole number nearest to [1000 + early / 60], where
    [early] is the number of milliseconds the timestamp is early: one point
    more for every 60 ms. *)
Theorem inline_scoring_agrees_from_start (q : Question) (start : option Z)
    (p : PlayerDoc) :
  (lastAnswer p ≠ Some (correctAnswer q) →
   inlineIncrease q start p = 0 ∧ pointsAwarded q start p = 0)
  ∧ (lastAnswer p = Some (correctAnswer q) →
     truthy_number (answerTimestamp p) = false →
     inlineIncrease q start p = 1000 ∧ pointsAwarded q start p = 1000)
  ∧ (∀ ts, lastAnswer p = Some (correctAnswer q) →
           answerTimestamp p = Some ts → ts ≠ 0 →
           to_number start ≤ ts →
           inlineIncrease q start p = pointsAwarded q start p)
  ∧ (∀ ts, lastAnswer p = Some (correctAnswer q) →
           answerTimestamp p = Some ts → ts ≠ 0 →
           ts < to_number start →
           pointsAwarded q start p = 500
           ∧ 1000 ≤ inlineIncrease q start p
           ∧ (to_number start - ts ≤ 3600000 →
              -30 ≤ 60 * inlineIncrease q start p
                    - (60000 + (to_number start - ts)) ≤ 30)).
Proof.
  split; [|split; [|split]].
  - intros Hwrong. split; [|by apply pointsAwarded_incorrect].
    unfold inlineIncrease. by rewrite (bool_decide_eq_false_2 _ Hwrong).
  - intros Hans Hts. unfold inlineIncrease, pointsAwarded, scoreIncrease.
    rewrite (bool_decide_eq_true_2 _ Hans), Hts. simpl. done.
  - intros ts Hans Hts Hne Hle.
    rewrite (pointsAwarded_correct q start p ts Hans Hts Hne).
    unfold inlineIncrease. rewrite (bool_decide_eq_true_2 _ Hans), Hts.
    simpl. apply Z.eqb_neq in Hne. rewrite Hne. simpl.
    apply inlineScore_calculateScore.
    change 0%Q with (inject_Z 0). rewrite <- Zle_Qle. lia.
  - intros ts Hans Hts Hne Hlt.
    rewrite (pointsAwarded_correct q start p ts Hans Hts Hne).
    assert (Hinline : inlineIncrease q start p
                      = (60030 - (ts - to_number start)) / 60).
    { unfold inlineIncrease. rewrite (bool_decide_eq_true_2 _ Hans), Hts.
      simpl. apply Z.eqb_neq in Hne. rewrite Hne. simpl.
      apply inlineScore_negative. lia. }
    split; [|split].
    + apply calculateScore_negative.
      change 0%Q with (inject_Z 0). rewrite <- Zlt_Qlt. lia.
    + rewrite Hinline. apply Z.div_le_lower_bound; lia.
    + intros _. rewrite Hinline.
      pose proof (Z.mul_div_le (60030 - (ts - to_number start)) 60
                    ltac:(lia)).
      pose proof (Z.mul_succ_div_gt (60030 - (ts - to_number start)) 60
                    ltac:(lia)).
      lia.
Qed.

(** ** The progress of the countdown *)

Section TimerPercent.

Lemma useTimer_remaining_range (now start d : Z) :
  start ≠ 0 → 0 ≤ d → start ≤ now →
  0 ≤ useTimer_remaining now (Some start) d ≤ d.
Proof.
  intros Hs Hd Hnow. unfold useTimer_remaining; simpl.
  apply Z.eqb_neq in Hs. rewrite Hs. simpl.
  pose proof (div_1000_bounds (now - start)). lia.
Qed.

Lemma Qdiv_eq_1 (a d : Z) :
  0 < d → (inject_Z a / inject_Z d == 1)%Q ↔ a = d.
Proof.
  intros Hd.
  assert (Hd' : ¬ (inject_Z d == 0)%Q).
  { change 0%Q with (inject_Z 0). rewrite inject_Z_injective. lia. }
  split.
  - intros H. apply inject_Z_injective.
    rewrite <- (Qmult_1_l (inject_Z d)), <- H. by field.
  - intros ->. by field.
Qed.

End TimerPercent.

(** X21. The progress [percent] of [useTimer] for a question that has
    started, with a positive duration: it lies between 0 and 1, it is 0
    during the first second, and it is 1 exactly when the countdown has
    expired. *)
Theorem useTimer_percent_range (now start d : Z) :
  start ≠ 0 → 0 < d → start ≤ now →
  (0 <= useTimer_percent now (Some start) d <= 1)%Q
  ∧ (now - start < 1000 → (useTimer_percent now (Some start) d == 0)%Q)
  ∧ ((useTimer_percent now (Some start) d == 1)%Q
     ↔ useTimer_expired now (Some start) d = true).
Proof.
  intros Hs Hd Hnow.
  pose proof (useTimer_remaining_range now start d Hs ltac:(lia) Hnow)
    as Hrange.
  assert (Hd' : (0 < inject_Z d)%Q).
  { change 0%Q with (inject_Z 0). rewrite <- Zlt_Qlt. lia. }
  unfold useTimer_percent, useTimer_expired.
  set (r := useTimer_remaining now (Some start) d) in *.
  split; [split|split].
  - apply Qle_shift_div_l; [done|]. rewrite Qmult_0_l.
    change 0%Q with (inject_Z 0). rewrite <- Zle_Qle. lia.
  - apply Qle_shift_div_r; [done|]. rewrite Qmult_1_l.
    rewrite <- Zle_Qle. lia.
  - intros Hfirst.
    assert (Hr : r = d).
    { unfold r, useTimer_remaining; simpl.
      apply Z.eqb_neq in Hs. rewrite Hs. simpl.
      rewrite Z.div_small by lia. lia. }
    rewrite Hr, Z.sub_diag. unfold Qdiv. apply Qmult_0_l.
  - rewrite (Qdiv_eq_1 (d - r) d Hd), Z.eqb_eq. lia.
Qed.

Lemma useTimer_percent_range_witness :
  (useTimer_percent 1015000 (Some 1000000%Z) 30 == 1 # 2)%Q
  ∧ (0 <= useTimer_percent 1015000 (Some 1000000%Z) 30 <= 1)%Q.
Proof.
  split; [reflexivity|].
  apply (useTimer_percent_range 1015000 1000000 30); lia.
Defined.

(** ** The configuration validator *)

Section BraceScan.

Implicit Types (chars rest : list ascii) (i : nat) (n : Z).

Lemma eqb_ne (c d : ascii) : c ≠ d → Ascii.eqb c d = false.
Proof. intros Hne. by apply Ascii.eqb_neq. Qed.

Lemma scanFrom_string s :
  StringBody s → ∀ n i rest,
  scanFrom (mkScanState n true false) (s ++ quoteChar :: rest) i
  = scanFrom (mkScanState n false false) rest (i + length s + 1).
Proof.
  induction 1 as [|c s Hq Hb _ IH|c s _ IH]; intros n i rest.
  - simpl. unfold scanChar; simpl. by rewrite Nat.add_0_r.
  - simpl. unfold scanChar at 1; simpl.
    rewrite (eqb_ne _ _ Hb), (eqb_ne _ _ Hq). rewrite IH. f_equal. lia.
  - simpl. rewrite IH. f_equal. lia.
Qed.

Lemma scanFrom_body b :
  ObjectBody b → ∀ n i rest, 0 < n →
  scanFrom (mkScanState n false false) (b ++ rest) i
  = scanFrom (mkScanState n false false) rest (i + length b).
Proof.
  induction 1 as [|c b Ho Hc Hq Hb _ IH|s b Hs _ IH|a b _ IHa _ IHb];
    intros n i rest Hn.
  - simpl. by rewrite Nat.add_0_r.
  - simpl. unfold scanChar at 1; simpl.
    rewrite (eqb_ne _ _ Hb), (eqb_ne _ _ Hq), (eqb_ne _ _ Ho),
      (eqb_ne _ _ Hc).
    rewrite IH by done. f_equal. lia.
  - simpl. rewrite <- app_assoc. simpl.
    rewrite (scanFrom_string s Hs), IH by done.
    rewrite length_app. simpl. f_equal. lia.
  - simpl. rewrite <- app_assoc. simpl. rewrite IHa by lia.
    simpl. replace (n + 1 - 1) with n by lia.
    destruct (n =? 0) eqn:Hz; [apply Z.eqb_eq in Hz; lia|].
    rewrite IHb by done. rewrite length_app. simpl. f_equal. lia.
Qed.

End BraceScan.

(** X22. The validator finds the closing brace of the configuration
    object: when the text from [start] on is an object whose braces are
    balanced, the loop ends with [end] just behind the closing brace of
    the object, whatever follows it, so that the text cut out is the
    object; braces within the string literals of the object do not count.
    When the text ends within the object, no closing brace is found. *)
Theorem findClosingBrace_matches (html : string) (start : nat)
    (before body after : list ascii) :
  ObjectBody body →
  length before = start →
  (list_ascii_of_string html
   = before ++ openBrace :: body ++ closeBrace :: after →
   findClosingBrace html start = Some (start + length body + 2)%nat
   ∧ take (length body + 2) (drop start (list_ascii_of_string html))
     = openBrace :: body ++ [closeBrace])
  ∧ (list_ascii_of_string html = before ++ openBrace :: body →
     findClosingBrace html start = None).
Proof.
  intros Hbody Hstart. split.
  - intros Hhtml. unfold findClosingBrace. rewrite Hhtml, <- Hstart.
    rewrite drop_app_length. split.
    + simpl. rewrite (scanFrom_body body Hbody) by lia.
      simpl. f_equal. lia.
    + change (openBrace :: body ++ closeBrace :: after)
        with ((openBrace :: body) ++ closeBrace :: after).
      replace (length body + 2)%nat
        with (length ((openBrace :: body) ++ [closeBrace]))
        by (rewrite length_app; simpl; lia).
      replace ((openBrace :: body) ++ closeBrace :: after)
        with (((openBrace :: body) ++ [closeBrace]) ++ after)
        by (by rewrite <- app_assoc).
      by rewrite take_app_length.
  - intros Hhtml. unfold findClosingBrace. rewrite Hhtml, <- Hstart.
    rewrite drop_app_length. simpl.
    rewrite <- (app_nil_r body).
    by rewrite (scanFrom_body body Hbody) by lia.
Qed.

Lemma findClosingBrace_matches_witness :
  findClosingBrace "cfg = ({a: {b: 1}, c: 2});" 7 = Some 24%nat.
Proof.
  assert (Hbody : ObjectBody (list_ascii_of_string "a: {b: 1}, c: 2")).
  { simpl.
    do 3 (apply OB_plain; [discriminate..|]).
    apply (OB_object (list_ascii_of_string "b: 1")
             (list_ascii_of_string ", c: 2")).
    - simpl. do 4 (apply OB_plain; [discriminate..|]). apply OB_nil.
    - simpl. do 6 (apply OB_plain; [discriminate..|]). apply OB_nil. }
  destruct (findClosingBrace_matches "cfg = ({a: {b: 1}, c: 2});" 7
              (list_ascii_of_string "cfg = (")
              (list_ascii_of_string "a: {b: 1}, c: 2")
              (list_ascii_of_string ");") Hbody eq_refl) as [Hfound _].
  destruct (Hfound eq_refl) as [Hend _]. exact Hend.
Defined.

Example findClosingBrace_brace_in_string :
  findClosingBrace
    (String "{" (String "s" (String quoteChar (String "}"
       (String quoteChar (String "}" EmptyString)))))) 0
  = Some 6%nat.
Proof. reflexivity. Qed.

(** X23. An answer given after the scores were written earns nothing:
    when the answers of a question are revealed and scored while a player
    has not answered, the player can still answer, and the answer is
    stored; but the hook has marked the question as scored, so a further
    scoring run on the same host screen leaves the database as it is and
    the score of the player stays what it was. *)
Theorem answer_after_scoring_earns_nothing (code uid answer : string)
    (now : Z) (db : Firestore) (h : HostScreen) (g : GameDoc) (q : Question)
    (p : PlayerDoc) :
  code ≠ EmptyString →
  gameDocs db !! code = Some g →
  status g = PLAYING → hostUserId g ≠ uid →
  currentQuestionOf (Some g) = Some q →
  answer ∈ options q →
  playersOf db code !! uid = Some p →
  lastAnswer p = None →
  showAnswers h = true → lastRunQuestionId h ≠ Some (qid q) →
  let scored := scoringEffect code (db, h) in
  let answered := submitAnswer code uid answer now scored.1 in
  playersOf answered code !! uid
  = Some (set_answer (Some answer) (Some now) p)
  ∧ scoringEffect code (answered, scored.2) = (answered, scored.2).
Proof.
  intros Hcode Hg Hst Hh Hq Hopt Hp Ha Hshow Hlast scored answered.
  assert (Hscored : scored
            = (updateAllPlayers code
                 (scoredPlayer q (currentQuestionStartTime g)) db,
               set_lastRunQuestionId (Some (qid q)) h))
    by by apply scoringEffect_run.
  assert (Hg1 : gameDocs scored.1 !! code = Some g).
  { rewrite Hscored. cbn [fst]. by rewrite gameDocs_updateAllPlayers. }
  assert (Hp1 : playersOf scored.1 code !! uid = Some p).
  { rewrite Hscored. cbn [fst].
    rewrite playersOf_updateAllPlayers, lookup_fmap, Hp. simpl. f_equal.
    unfold scoredPlayer, awardedPlayer. destruct (isHost p); [done|].
    rewrite pointsAwarded_incorrect by (by rewrite Ha).
    by rewrite Z.add_0_r, set_score_same. }
  assert (Hanswered : answered
            = setPlayerDoc code uid (set_answer (Some answer) (Some now) p)
                scored.1).
  { apply (submitAnswer_accepted _ code uid answer now g q p);
      try done. by rewrite Ha. }
  split.
  - rewrite Hanswered, playersOf_setPlayerDoc. by rewrite decide_True.
  - apply (scoringEffect_marked code _ _ g q); [|done|].
    + by rewrite Hanswered, gameDocs_setPlayerDoc.
    + by rewrite Hscored.
Qed.

Lemma answer_after_scoring_earns_nothing_witness :
  playersOf
    (submitAnswer "AB12" "bob" "Paris" 1005000
       (scoringEffect "AB12" (sampleOpenDb, revealedHostScreen)).1)
    "AB12" !! "bob"%string
  = Some (mkPlayerDoc "Bob" 0 false (Some "Paris"%string) (Some 1005000) 7).
Proof.
  assert (Hcode : "AB12"%string ≠ EmptyString) by discriminate.
  assert (Hg : gameDocs sampleOpenDb !! "AB12"%string
               = Some (sampleGame PLAYING 0 (Some 1000000)))
    by (vm_compute; reflexivity).
  assert (Hhost : hostUserId (sampleGame PLAYING 0 (Some 1000000))
                  ≠ "bob"%string) by discriminate.
  assert (Hopt : "Paris"%string ∈ ["Rome"; "Paris"; "Oslo"]%string)
    by (apply list_elem_of_further, list_elem_of_here).
  assert (Hp : playersOf sampleOpenDb "AB12" !! "bob"%string
               = Some (mkPlayerDoc "Bob" 0 false None None 7))
    by (vm_compute; reflexivity).
  assert (Hlast : lastRunQuestionId revealedHostScreen ≠ Some (CsvId 0))
    by discriminate.
  destruct (answer_after_scoring_earns_nothing "AB12" "bob" "Paris" 1005000
              sampleOpenDb revealedHostScreen
              (sampleGame PLAYING 0 (Some 1000000))
              (mkQuestion (CsvId 0) "Capital of France?" "Paris"
                 ["Rome"; "Paris"; "Oslo"])
              (mkPlayerDoc "Bob" 0 false None None 7)
              Hcode Hg eq_refl Hhost eq_refl Hopt Hp eq_refl eq_refl Hlast)
    as [Hstored _].
  exact Hstored.
Defined.

(** ** The form of the home screen *)

Section HomeForm.

Lemma substring_0_length (m : nat) (s : string) :
  (String.length (String.substring 0 m s) ≤ m)%nat.
Proof.
  revert s. induction m as [|m IH]; intros s; destruct s as [|c s]; simpl;
    try lia.
  specialize (IH s). lia.
Qed.

Lemma toUpperCase_substring_0 (m : nat) (s : string) :
  toUpperCase (String.substring 0 m s) = String.substring 0 m (toUpperCase s).
Proof.
  revert s. induction m as [|m IH]; intros s; destruct s as [|c s]; simpl;
    try done.
  by rewrite IH.
Qed.

Lemma normalised_code_upper (value : string) :
  toUpperCase (substring 0 4 (toUpperCase value))
  = substring 0 4 (toUpperCase value).
Proof.
  unfold substring. by rewrite toUpperCase_substring_0, toUpperCase_idempotent.
Qed.

(** What the events keep true of the form. *)
Lemma homeEvents_invariant (routeCode : option string) (prefill : bool)
    (events : list HomeEvent) :
  let f := foldl homeEvent (mountHome (routePrefilledCode prefill routeCode))
             events in
  (String.length (formScreenName f) ≤ 15)%nat
  ∧ (String.length (inputCode f) ≤ 4)%nat
  ∧ toUpperCase (inputCode f) = inputCode f
  ∧ prefilledCode f = routePrefilledCode prefill routeCode
  ∧ (∀ code, prefilledCode f = Some code → code ≠ EmptyString →
       inputCode f = code).
Proof.
  induction events as [|e events IH] using rev_ind; simpl.
  - split; [lia|]. unfold mountHome, routePrefilledCode; simpl.
    destruct (prefill && truthy_string routeCode); simpl.
    + set (c := substring 0 4 (toUpperCase (default EmptyString routeCode))).
      assert (Hlen : (String.length c ≤ 4)%nat)
        by apply (substring_0_length 4).
      assert (Hup : toUpperCase c = c) by apply normalised_code_upper.
      destruct (bool_decide (c = EmptyString)) eqn:Hc; simpl.
      * split; [lia|]. split; [done|]. split; [done|].
        intros code [= <-] Hne. by apply bool_decide_eq_true_1 in Hc.
      * split; [done|]. split; [done|]. split; [done|].
        by intros code [= <-] _.
    + split; [lia|]. by repeat split.
  - rewrite foldl_app. simpl in *.
    set (f := foldl homeEvent
                (mountHome (routePrefilledCode prefill routeCode)) events)
      in *.
    destruct IH as (Hname & Hlen & Hup & Hpre & Hcode).
    destruct e as [value|value]; simpl.
    + split; [apply (substring_0_length 15)|]. by repeat split.
    + destruct (prefilledCode f) as [code|] eqn:Hf; simpl.
      * destruct (bool_decide (code = EmptyString)) eqn:Hc; simpl.
        -- split; [done|]. split; [apply (substring_0_length 4)|].
           split; [apply normalised_code_upper|]. split; [done|].
           intros code' [= <-] Hne. by apply bool_decide_eq_true_1 in Hc.
        -- rewrite Hf. by repeat split.
      * split; [done|]. split; [apply (substring_0_length 4)|].
        split; [apply normalised_code_upper|]. by split.
Qed.

End HomeForm.

(** X24. Whatever the user types into the form of the home screen and
    whatever code the route carries, a click on Join calls
    [handleJoinGame] only with a code of exactly four characters that is
    already in upper case, and only when the screen name, of at most 15
    characters, is not blank. With a code from the route the input cannot
    be changed: the code that is passed on is that of the route, and when
    the route's code has fewer than four characters the button stays
    disabled. *)
Theorem home_join_code (routeCode : option string) (prefill : bool)
    (events : list HomeEvent) :
  let f := foldl homeEvent (mountHome (routePrefilledCode prefill routeCode))
             events in
  (∀ code, joinClick f = Some code →
     String.length code = 4%nat
     ∧ toUpperCase code = code
     ∧ trim (formScreenName f) ≠ EmptyString
     ∧ (String.length (formScreenName f) ≤ 15)%nat
     ∧ (∀ route, routePrefilledCode prefill routeCode = Some route →
          route ≠ EmptyString → code = route))
  ∧ (∀ route, routePrefilledCode prefill routeCode = Some route →
       route ≠ EmptyString → (String.length route < 4)%nat →
       joinDisabled f = true).
Proof.
  intros f.
  destruct (homeEvents_invariant routeCode prefill events)
    as (Hname & Hlen & Hup & Hpre & Hcode). fold f in Hname, Hlen, Hup, Hpre, Hcode.
  split.
  - intros code. unfold joinClick, joinDisabled, handleJoinClick, nonEmpty.
    destruct (bool_decide (trim (formScreenName f) = EmptyString)) eqn:Hn;
      [done|].
    apply bool_decide_eq_false_1 in Hn. simpl.
    destruct (String.length (inputCode f) =? 4)%nat eqn:H4; [|done].
    apply Nat.eqb_eq in H4. simpl.
    destruct (_ || _); [done|]. intros [= <-].
    do 4 (split; [done|]).
    intros route Hroute Hne. apply Hcode; [|done]. by rewrite Hpre.
  - intros route Hroute Hne Hshort. unfold joinDisabled.
    rewrite (Hcode route) by (by rewrite ?Hpre).
    destruct (String.length route =? 4)%nat eqn:H4;
      [apply Nat.eqb_eq in H4; lia|].
    by rewrite orb_true_r.
Qed.

Example home_join_typed :
  joinClick
    (foldl homeEvent (mountHome (routePrefilledCode false None))
       [ChangeCode "ab12xyz"; ChangeName "Ann"])
  = Some "AB12"%string
  ∧ joinClick
      (foldl homeEvent (mountHome (routePrefilledCode true (Some "ab1"%string)))
         [ChangeCode "ab12"; ChangeName "Ann"])
    = None.
Proof. split; reflexivity. Qed.

(** ** A game played through *)

Section PlayedGame.

Variables (code hostId uid : string).
Hypothesis (Hcode : code ≠ EmptyString) (Huid : uid ≠ hostId).

Implicit Types (db : Firestore) (h : HostScreen) (g : GameDoc)
  (q : Question) (p : PlayerDoc) (s : Submission)
  (subs : list Submission).

Lemma gameDocs_submitAnswer db user answer now :
  gameDocs (submitAnswer code user answer now db) = gameDocs db.
Proof.
  destruct (submitAnswer_cases code user answer now db)
    as [-> | (g & q & p & _ & _ & _ & _ & _ & _ & _ & ->)]; [done|].
  apply gameDocs_setPlayerDoc.
Qed.

Lemma submitAnswer_player db g q p s :
  gameDocs db !! code = Some g →
  status g = PLAYING → hostUserId g = hostId →
  currentQuestionOf (Some g) = Some q →
  playersOf db code !! uid = Some p →
  playersOf (submitAnswer code (subUser s) (subAnswer s) (subTime s) db) code
    !! uid
  = Some (acceptSubmission q uid p s).
Proof.
  intros Hg Hst Hh Hq Hp. unfold acceptSubmission.
  destruct (bool_decide (subUser s = uid)) eqn:Hu; simpl.
  - apply bool_decide_eq_true_1 in Hu.
    destruct (bool_decide (subAnswer s ∈ options q)) eqn:Ho; simpl.
    + apply bool_decide_eq_true_1 in Ho.
      destruct (truthy_string (lastAnswer p)) eqn:Ha; simpl.
      * destruct (submitAnswer_cases code (subUser s) (subAnswer s)
                    (subTime s) db)
          as [-> | (g' & q' & p' & _ & _ & _ & _ & _ & Hp' & Ha' & _)];
          [done|].
        rewrite Hu, Hp in Hp'. injection Hp' as <-. congruence.
      * rewrite Hu.
        rewrite (submitAnswer_accepted db code uid _ _ g q p);
          [|done..|congruence|done|done|done|done].
        rewrite playersOf_setPlayerDoc. by rewrite decide_True.
    + apply bool_decide_eq_false_1 in Ho.
      destruct (submitAnswer_cases code (subUser s) (subAnswer s)
                  (subTime s) db)
        as [-> | (g' & q' & p' & Hg' & _ & _ & Hq' & Ho' & _)]; [done|].
      exfalso. apply Ho. assert (g' = g) as -> by congruence.
      assert (q' = q) as -> by congruence. done.
  - apply bool_decide_eq_false_1 in Hu.
    destruct (submitAnswer_cases code (subUser s) (subAnswer s)
                (subTime s) db)
      as [-> | (g' & q' & p' & _ & _ & _ & _ & _ & _ & _ & ->)]; [done|].
    rewrite playersOf_setPlayerDoc. by rewrite decide_False.
Qed.

Lemma submitAll_player subs : ∀ db g q p,
  gameDocs db !! code = Some g →
  status g = PLAYING → hostUserId g = hostId →
  currentQuestionOf (Some g) = Some q →
  playersOf db code !! uid = Some p →
  gameDocs (submitAll code subs db) = gameDocs db
  ∧ playersOf (submitAll code subs db) code !! uid
    = Some (foldl (acceptSubmission q uid) p subs).
Proof.
  induction subs as [|s subs IH]; intros db g q p Hg Hst Hh Hq Hp; [done|].
  unfold submitAll in *. simpl.
  destruct (IH (submitAnswer code (subUser s) (subAnswer s) (subTime s) db)
              g q (acceptSubmission q uid p s)) as [Hgd Hpl]; try done.
  - by rewrite gameDocs_submitAnswer.
  - by apply submitAnswer_player with (g := g).
  - split; [|exact Hpl]. by rewrite Hgd, gameDocs_submitAnswer.
Qed.

Lemma acceptSubmission_locked q p subs :
  truthy_string (lastAnswer p) = true →
  foldl (acceptSubmission q uid) p subs = p.
Proof.
  intros Ha. induction subs as [|s subs IH]; [done|]. simpl.
  unfold acceptSubmission at 2. rewrite Ha, andb_false_r. exact IH.
Qed.

Lemma acceptSubmission_first q p subs :
  lastAnswer p = None →
  Forall (λ o, o ≠ EmptyString) (options q) →
  foldl (acceptSubmission q uid) p subs
  = match firstAnswer q uid subs with
    | Some s => set_answer (Some (subAnswer s)) (Some (subTime s)) p
    | None => p
    end.
Proof.
  intros Ha Hopts. unfold firstAnswer.
  induction subs as [|s subs IH]; [done|]. simpl.
  unfold acceptSubmission at 2. rewrite Ha. simpl. rewrite andb_true_r.
  destruct (bool_decide (subUser s = uid)
            && bool_decide (subAnswer s ∈ options q)) eqn:Hc; [|exact IH].
  apply acceptSubmission_locked. simpl.
  apply andb_prop in Hc as [_ Ho]. apply bool_decide_eq_true_1 in Ho.
  rewrite Forall_forall in Hopts.
  by rewrite bool_decide_eq_false_2 by by apply Hopts.
Qed.

Lemma pointsAwarded_answered q (start : option Z) p subs :
  lastAnswer p = None →
  Forall (λ o, o ≠ EmptyString) (options q) →
  Forall (λ s, subTime s ≠ 0) subs →
  pointsAwarded q start (foldl (acceptSubmission q uid) p subs)
  = roundPoints q start uid subs.
Proof.
  intros Ha Hopts Htimes. rewrite acceptSubmission_first by done.
  unfold roundPoints.
  destruct (firstAnswer q uid subs) as [s|] eqn:Hfirst.
  - assert (Hs : subTime s ≠ 0).
    { unfold firstAnswer in Hfirst. apply find_some in Hfirst as [Hin _].
      rewrite Forall_forall in Htimes. by apply Htimes, list_elem_of_In. }
    destruct (bool_decide (subAnswer s = correctAnswer q)) eqn:Hc.
    + apply bool_decide_eq_true_1 in Hc.
      apply (pointsAwarded_correct q start _ (subTime s)); [|done..].
      simpl. by rewrite Hc.
    + apply bool_decide_eq_false_1 in Hc.
      apply pointsAwarded_incorrect. simpl. congruence.
  - apply pointsAwarded_incorrect. by rewrite Ha.
Qed.

Lemma currentQuestionOf_middle g (done : list Question) q
    (rest : list Question) :
  questions g = done ++ q :: rest →
  currentQuestionIndex g = Z.of_nat (length done) →
  currentQuestionOf (Some g) = Some q.
Proof.
  intros Hqs Hidx. unfold currentQuestionOf. rewrite Hidx, Hqs.
  destruct (Z.of_nat (length done) <? 0) eqn:Hneg;
    [apply Z.ltb_lt in Hneg; lia|].
  rewrite Nat2Z.id. by apply list_lookup_middle.
Qed.

Lemma pointsAwarded_set_score q (start : option Z) (sc : Z) p :
  pointsAwarded q start (set_score sc p) = pointsAwarded q start p.
Proof. done. Qed.

(** The stored answer of a round against the question that follows. *)
Lemma pointsAwarded_carried q next (now : Z) p subs :
  lastAnswer p = None →
  Forall (λ o, o ≠ EmptyString) (options q) →
  Forall (λ s, subTime s ≠ 0) subs →
  pointsAwarded next (Some now) (foldl (acceptSubmission q uid) p subs)
  = carriedPoints q next now uid subs.
Proof.
  intros Ha Hopts Htimes. rewrite acceptSubmission_first by done.
  unfold carriedPoints.
  destruct (firstAnswer q uid subs) as [s|] eqn:Hfirst.
  - assert (Hs : subTime s ≠ 0).
    { unfold firstAnswer in Hfirst. apply find_some in Hfirst as [Hin _].
      rewrite Forall_forall in Htimes. by apply Htimes, list_elem_of_In. }
    destruct (bool_decide (subAnswer s = correctAnswer next)) eqn:Hc.
    + apply bool_decide_eq_true_1 in Hc.
      apply (pointsAwarded_correct next (Some now) _ (subTime s)); [|done..].
      simpl. by rewrite Hc.
    + apply bool_decide_eq_false_1 in Hc.
      apply pointsAwarded_incorrect. simpl. congruence.
  - apply pointsAwarded_incorrect. by rewrite Ha.
Qed.

(** The reveal of a round and the run of the hook on it: the question is
    scored unless the hook has marked it. *)
Lemma reveal_scores db h g q pa :
  gameDocs db !! code = Some g →
  currentQuestionOf (Some g) = Some q →
  isScoring h = false →
  playersOf db code !! uid = Some pa → isHost pa = false →
  ∃ dbS hS,
    scoringEffect code (db, revealNow h) = (dbS, hS)
    ∧ gameDocs dbS = gameDocs db
    ∧ showAnswers hS = true ∧ isScoring hS = false
    ∧ lastRunQuestionId hS = Some (qid q)
    ∧ playersOf dbS code !! uid
      = Some (set_score
                (score pa
                 + if bool_decide (lastRunQuestionId h = Some (qid q)) then 0
                   else pointsAwarded q (currentQuestionStartTime g) pa)
                pa).
Proof.
  intros Hg Hq Hsc Hp Hhost. unfold revealNow. rewrite Hsc.
  destruct (decide (lastRunQuestionId h = Some (qid q))) as [Hm|Hm].
  - rewrite (scoringEffect_marked code db _ g q) by done.
    eexists _, _. split; [reflexivity|]. do 4 (split; [done|]).
    rewrite Hp, (bool_decide_eq_true_2 _ Hm). f_equal.
    destruct pa; unfold set_score; simpl; f_equal; lia.
  - rewrite (scoringEffect_run code db _ g q) by done.
    eexists _, _. split; [reflexivity|].
    split; [apply gameDocs_updateAllPlayers|]. do 3 (split; [done|]).
    rewrite playersOf_updateAllPlayers, lookup_fmap, Hp. simpl.
    unfold scoredPlayer. rewrite Hhost.
    by rewrite (bool_decide_eq_false_2 _ Hm).
Qed.

(** The state a round starts from, and what it leaves of the game and of
    the player when questions remain. *)
Lemma playRound_next db h g (done : list Question) q q' rest p
    (r : list Submission * Z) :
  gameDocs db !! code = Some g →
  status g = PLAYING → hostUserId g = hostId →
  questions g = done ++ q :: q' :: rest →
  currentQuestionIndex g = Z.of_nat (length done) →
  Forall (λ o, o ≠ EmptyString) (options q) →
  qid q ≠ qid q' →
  isScoring h = false →
  playersOf db code !! uid = Some p →
  isHost p = false → lastAnswer p = None →
  Forall (λ s, subTime s ≠ 0) r.1 →
  ∃ db' h',
    playRound code hostId (db, h) r = (db', h')
    ∧ gameDocs db' !! code
      = Some (set_question (Z.of_nat (length done) + 1) r.2 g)
    ∧ isScoring h' = false
    ∧ lastRunQuestionId h' = Some (qid q')
    ∧ (∀ u pu, playersOf db' code !! u = Some pu → lastAnswer pu = None)
    ∧ ∃ p', playersOf db' code !! uid = Some p'
            ∧ isHost p' = false ∧ lastAnswer p' = None
            ∧ score p'
              = score p
                + (if bool_decide (lastRunQuestionId h = Some (qid q))
                   then 0
                   else roundPoints q (currentQuestionStartTime g) uid r.1)
                + carriedPoints q q' r.2 uid r.1.
Proof.
  intros Hg Hst Hh Hqs Hidx Hopts Hid Hsc Hp Hhost Ha Htimes.
  pose proof (currentQuestionOf_middle g done q (q' :: rest) Hqs Hidx) as Hq.
  destruct (submitAll_player r.1 db g q p Hg Hst Hh Hq Hp) as [Hgd Hpl].
  unfold playRound. cbn [fst snd].
  set (answered := submitAll code r.1 db) in *.
  set (pa := foldl (acceptSubmission q uid) p r.1) in *.
  assert (Hga : gameDocs answered !! code = Some g) by by rewrite Hgd.
  assert (Hpa : isHost pa = false ∧ score pa = score p).
  { unfold pa. rewrite acceptSubmission_first by done.
    by destruct (firstAnswer q uid r.1). }
  destruct Hpa as [Hhosta Hscorea].
  destruct (reveal_scores answered h g q pa Hga Hq Hsc Hpl Hhosta)
    as (dbS & hS & -> & HgS & HshowS & HscS & HmS & HpS).
  assert (HgS' : gameDocs dbS !! code = Some g) by by rewrite HgS.
  assert (Hlt : currentQuestionIndex g + 1
                < Z.of_nat (length (questions g))).
  { rewrite Hidx, Hqs, length_app. simpl. lia. }
  assert (Hq' : currentQuestionOf
                  (Some (set_question (currentQuestionIndex g + 1) r.2 g))
                = Some q').
  { apply (currentQuestionOf_middle _ (done ++ [q]) q' rest).
    - simpl. by rewrite Hqs, <- app_assoc.
    - simpl. rewrite Hidx, length_app. simpl. lia. }
  match type of HpS with _ = Some ?x => set (pS := x) in * end.
  destruct (advance_next_player code hostId uid dbS hS g q' pS r.2 Hcode
              HgS' Hst Hh HshowS HscS Hlt Hq') as (db' & h' & -> & Hg' & Hsc' & Hm' & Hnone & Hp');
    [rewrite HmS; congruence|exact HpS|done|].
  exists db', h'. split; [done|]. split; [by rewrite Hg', Hidx|].
  do 3 (split; [done|]). eexists. split; [exact Hp'|].
  split; [done|]. split; [done|]. cbn [score set_answer set_score].
  unfold pS. rewrite pointsAwarded_set_score. cbn [score set_score].
  unfold pa at 3. rewrite pointsAwarded_carried by done. rewrite Hscorea.
  destruct (bool_decide (lastRunQuestionId h = Some (qid q))); [done|].
  unfold pa. by rewrite pointsAwarded_answered.
Qed.

(** The round on the last question. *)
Lemma playRound_last db h g (done : list Question) q p
    (r : list Submission * Z) :
  gameDocs db !! code = Some g →
  status g = PLAYING → hostUserId g = hostId →
  questions g = done ++ [q] →
  currentQuestionIndex g = Z.of_nat (length done) →
  Forall (λ o, o ≠ EmptyString) (options q) →
  isScoring h = false →
  playersOf db code !! uid = Some p →
  isHost p = false → lastAnswer p = None →
  Forall (λ s, subTime s ≠ 0) r.1 →
  gameDocs (playRound code hostId (db, h) r).1 !! code
  = Some (set_status RESULTS g)
  ∧ ∃ p', playersOf (playRound code hostId (db, h) r).1 code !! uid = Some p'
          ∧ isHost p' = false
          ∧ score p'
            = score p
              + (if bool_decide (lastRunQuestionId h = Some (qid q))
                 then 0
                 else roundPoints q (currentQuestionStartTime g) uid r.1).
Proof.
  intros Hg Hst Hh Hqs Hidx Hopts Hsc Hp Hhost Ha Htimes.
  pose proof (currentQuestionOf_middle g done q [] Hqs Hidx) as Hq.
  destruct (submitAll_player r.1 db g q p Hg Hst Hh Hq Hp) as [Hgd Hpl].
  unfold playRound. cbn [fst snd].
  set (answered := submitAll code r.1 db) in *.
  set (pa := foldl (acceptSubmission q uid) p r.1) in *.
  assert (Hga : gameDocs answered !! code = Some g) by by rewrite Hgd.
  assert (Hpa : isHost pa = false ∧ score pa = score p).
  { unfold pa. rewrite acceptSubmission_first by done.
    by destruct (firstAnswer q uid r.1). }
  destruct Hpa as [Hhosta Hscorea].
  destruct (reveal_scores answered h g q pa Hga Hq Hsc Hpl Hhosta)
    as (dbS & hS & -> & HgS & HshowS & HscS & HmS & HpS).
  assert (HgS' : gameDocs dbS !! code = Some g) by by rewrite HgS.
  rewrite (advance_last dbS hS code hostId r.2 g); [|done..|].
  2: { rewrite Hidx, Hqs, length_app. simpl. lia. }
  cbn [fst]. split.
  { rewrite gameDocs_setGameDoc. by rewrite decide_True. }
  change (playersOf (setGameDoc code (set_status RESULTS g) dbS) code)
    with (playersOf dbS code).
  eexists. split; [exact HpS|]. split; [done|].
  cbn [score set_score]. rewrite Hscorea.
  destruct (bool_decide (lastRunQuestionId h = Some (qid q))); [done|].
  unfold pa. by rewrite pointsAwarded_answered.
Qed.

(** The rounds of a game, from any of its questions on: the question the
    rounds begin with is scored on its answers unless the hook has marked
    it, and every press below a question that another follows adds the
    carried points. *)
Lemma playRounds_score (rounds : list (list Submission * Z)) :
  ∀ db h g (done todo : list Question) p,
    gameDocs db !! code = Some g →
    status g = PLAYING → hostUserId g = hostId →
    questions g = done ++ todo →
    currentQuestionIndex g = Z.of_nat (length done) →
    NoDup (qid <$> todo) →
    (∀ q, q ∈ todo → Forall (λ o, o ≠ EmptyString) (options q)) →
    isScoring h = false →
    playersOf db code !! uid = Some p →
    isHost p = false → lastAnswer p = None →
    (length rounds ≤ length todo)%nat →
    Forall (λ r, Forall (λ s, subTime s ≠ 0) r.1) rounds →
    ∃ p', playersOf (playRounds code hostId rounds (db, h)).1 code !! uid
          = Some p'
          ∧ score p'
            = score p
              + match rounds, todo with
                | r :: _, q :: _ =>
                    if bool_decide (lastRunQuestionId h = Some (qid q))
                    then 0
                    else roundPoints q (currentQuestionStartTime g) uid r.1
                | _, _ => 0
                end
              + carriedGamePoints todo uid rounds
          ∧ (length rounds = length todo → todo ≠ [] →
             ∃ g', gameDocs (playRounds code hostId rounds (db, h)).1 !! code
                   = Some g' ∧ status g' = RESULTS).
Proof.
  induction rounds as [|r rounds IH];
    intros db h g done todo p Hg Hst Hh Hqs Hidx Hnd Hopts Hsc Hp
      Hhost Ha Hlen Htimes.
  { exists p. simpl. split; [done|]. split; [lia|].
    intros Hl Hne. by destruct todo. }
  destruct todo as [|q todo]; [simpl in Hlen; lia|].
  apply Forall_cons in Htimes as [Hr Htimes].
  simpl in Hnd. apply NoDup_cons in Hnd as [Hq Hnd].
  unfold playRounds in *. simpl foldl.
  destruct todo as [|q' rest].
  - assert (rounds = []) as -> by (destruct rounds; simpl in *; [done|lia]).
    destruct (playRound_last db h g done q p r) as (Hg' & p' & Hp' & _ & Hs');
      try done.
    + apply Hopts. left.
    + simpl. exists p'. split; [done|]. split; [rewrite Hs'; simpl; lia|].
      intros _ _. by exists (set_status RESULTS g).
  - assert (Hid : qid q ≠ qid q').
    { intros Heq. apply Hq. rewrite Heq. simpl. left. }
    destruct (playRound_next db h g done q q' rest p r)
      as (db' & h' & Hround & Hg' & Hsc' & Hmark' & Hnone & p' & Hp' & Hhost' &
          Ha' & Hs'); try done.
    + apply Hopts. left.
    + rewrite Hround.
      destruct (IH db' h' (set_question (Z.of_nat (length done) + 1) r.2 g)
                  (done ++ [q]) (q' :: rest) p')
        as (p'' & Hp'' & Hs'' & Hend); try done.
      * simpl. by rewrite Hqs, <- app_assoc.
      * simpl. rewrite length_app. simpl. lia.
      * intros q0 Hq0. apply Hopts. by right.
      * simpl in Hlen |- *. lia.
      * exists p''. split; [done|]. split.
        -- rewrite Hs'', Hs'. cbn [carriedGamePoints].
           assert (Hzero : match rounds with
                           | [] => 0
                           | r0 :: _ =>
                               if bool_decide
                                    (lastRunQuestionId h' = Some (qid q'))
                               then 0
                               else roundPoints q'
                                      (currentQuestionStartTime
                                         (set_question
                                            (Z.of_nat (length done) + 1) r.2
                                            g))
                                      uid r0.1
                           end = 0).
           { destruct rounds; [done|].
             by rewrite (bool_decide_eq_true_2 _ Hmark'). }
           rewrite Hzero. lia.
        -- intros Hl _. apply Hend; [simpl in Hl |- *; lia|done].
Qed.

(** The carried points of a round are 0, 500 or more; they are 500 at
    most when the answers of the round were given before the press. *)
Lemma carriedPoints_range (q next : Question) (now : Z) (uid' : string)
    (subs : list Submission) :
  0 ≤ carriedPoints q next now uid' subs ≤ MAX_SCORE
  ∧ (Forall (λ s, subTime s < now) subs →
     carriedPoints q next now uid' subs ≤ MIN_SCORE).
Proof.
  unfold carriedPoints.
  destruct (firstAnswer q uid' subs) as [s|] eqn:Hfirst;
    [|split; [by vm_compute|intros _; by vm_compute]].
  destruct (bool_decide _);
    [|split; [by vm_compute|intros _; by vm_compute]].
  pose proof (calculateScore_range (inject_Z (subTime s - now))) as [Hlo Hhi].
  unfold MAX_SCORE, MIN_SCORE in *. split; [lia|].
  intros Hbefore. apply find_some in Hfirst as [Hin _].
  rewrite Forall_forall in Hbefore.
  apply list_elem_of_In, Hbefore in Hin.
  rewrite calculateScore_negative; [unfold MIN_SCORE; lia|].
  change 0%Q with (inject_Z 0). rewrite <- Zlt_Qlt. lia.
Qed.

Lemma carriedGamePoints_range (uid' : string) (qs : list Question) :
  ∀ rounds : list (list Submission * Z),
    0 ≤ carriedGamePoints qs uid' rounds
      ≤ MAX_SCORE * Z.of_nat (length rounds)
    ∧ (Forall (λ r, Forall (λ s, subTime s < r.2) r.1) rounds →
       carriedGamePoints qs uid' rounds
       ≤ MIN_SCORE * Z.of_nat (length rounds)).
Proof.
  induction qs as [|q qs IH]; intros rounds.
  { destruct rounds; simpl; unfold MAX_SCORE, MIN_SCORE;
      (split; [lia|intros _; lia]). }
  destruct rounds as [|r rounds].
  { simpl. unfold MAX_SCORE, MIN_SCORE. split; [lia|intros _; lia]. }
  cbn [carriedGamePoints length].
  destruct (IH rounds) as [[Hlo Hhi] Hbefore].
  assert (Hhead :
    0 ≤ match qs with
        | [] => 0
        | next :: _ => carriedPoints q next r.2 uid' r.1
        end ≤ MAX_SCORE
    ∧ (Forall (λ s, subTime s < r.2) r.1 →
       match qs with
       | [] => 0
       | next :: _ => carriedPoints q next r.2 uid' r.1
       end ≤ MIN_SCORE)).
  { destruct qs as [|next qs']; [|apply carriedPoints_range].
    unfold MAX_SCORE, MIN_SCORE. split; [lia|intros _; lia]. }
  destruct Hhead as [[Hlo' Hhi'] Hbefore'].
  unfold MAX_SCORE, MIN_SCORE in *. split; [lia|].
  intros [Hr Hrest]%Forall_cons. specialize (Hbefore Hrest).
  specialize (Hbefore' Hr). lia.
Qed.

End PlayedGame.

(** X25. The final scores of a game played on one host screen. When a
    game is started from the lobby and played round by round (in each
    round the players press answers, each on a screen that shows the
    database as it is, the host reveals them, the hook runs, and the host
    presses the button below them), only the first question is scored on
    its own answers: a player who is not the host receives for it the score
    of the response time of the first press, when that press was on the
    correct answer. Every press of the host below a question that another
    question follows makes the hook run on the question reached, with the
    answers of the round still stored: the first press of the player in
    the round, when it equals the correct answer of the next question,
    earns the score of its timestamp against the time of the host's press,
    and the question reached is marked, so its reveal adds nothing. The
    player ends with the sum of these points. After as many rounds as the
    game has questions the game is in status RESULTS. *)
Theorem played_game_scores_add_up (code hostId uid : string) (start : Z)
    (db : Firestore) (g : GameDoc) (p : PlayerDoc)
    (rounds : list (list Submission * Z)) :
  Reachable db →
  code ≠ EmptyString → uid ≠ hostId →
  gameDocs db !! code = Some g →
  status g = LOBBY ∨ status g = UPLOAD →
  hostUserId g = hostId →
  (1 ≤ length (questions g))%nat →
  (2 ≤ size (playersOf db code))%nat →
  playersOf db code !! uid = Some p → isHost p = false →
  (length rounds ≤ length (questions g))%nat →
  Forall (λ r, Forall (λ s, subTime s ≠ 0) r.1) rounds →
  let played :=
    playRounds code hostId rounds
      (startGame code hostId start db, mountHostScreen) in
  ∃ p', playersOf played.1 code !! uid = Some p'
        ∧ score p' = gamePoints (questions g) (Some start) uid rounds
        ∧ (length rounds = length (questions g) →
           ∃ g', gameDocs played.1 !! code = Some g' ∧ status g' = RESULTS).
Proof.
  intros Hreach Hcode Huid Hg Hst Hh Hq Hsize Hp Hhost Hlen Htimes played.
  pose proof (proj1 (Reachable_wellFormed db Hreach) code g Hg)
    as (_ & Hnd & _).
  pose proof (proj1 (Reachable_answersNonEmpty db Hreach) code g Hg) as Hopts.
  assert (Hstart : startGame code hostId start db
                   = setGameDoc code (start_playing start g)
                       (updateAllPlayers code reset_for_start db))
    by by apply startGame_started.
  destruct (playRounds_score code hostId uid Hcode Huid rounds
              (startGame code hostId start db) mountHostScreen
              (start_playing start g) [] (questions g) (reset_for_start p))
    as (p' & Hp' & Hs' & Hend); try done.
  - rewrite Hstart, gameDocs_setGameDoc. by rewrite decide_True.
  - rewrite Hstart. unfold playersOf at 1, setGameDoc. cbn [playerDocs].
    fold (playersOf (updateAllPlayers code reset_for_start db) code).
    by rewrite playersOf_updateAllPlayers, lookup_fmap, Hp.
  - exists p'. split; [exact Hp'|]. split.
    + rewrite Hs'. unfold gamePoints. cbn [score reset_for_start].
      destruct rounds as [|r rounds]; [simpl; lia|].
      destruct (questions g) as [|q qs]; [simpl in Hq; lia|].
      cbn [mountHostScreen lastRunQuestionId]. simpl. lia.
    + intros Hl. apply Hend; [done|]. intros Hnil. rewrite Hnil in Hq.
      simpl in Hq. lia.
Qed.

Lemma readyDb_Reachable : Reachable readyDb.
Proof. unfold readyDb. apply R_uploadCSV, R_join, R_create, R_empty. Qed.

Lemma repeatReadyDb_Reachable : Reachable repeatReadyDb.
Proof.
  unfold repeatReadyDb. apply R_uploadCSV, R_join, R_create, R_empty.
Qed.

Lemma played_game_scores_add_up_witness :
  ∃ p', playersOf
          (playRounds "AB12" "host" repeatRounds
             (startGame "AB12" "host" 1000000 repeatReadyDb,
              mountHostScreen)).1
          "AB12" !! "ann"%string = Some p'
        ∧ score p' = 1400.
Proof.
  assert (Hcode : "AB12"%string ≠ EmptyString) by discriminate.
  assert (Huid : "ann"%string ≠ "host"%string) by discriminate.
  assert (Hg : gameDocs repeatReadyDb !! "AB12"%string
               = Some (mkGameDoc "AB12" "host" UPLOAD
                         (parseCSV (λ _ _, randomZero) repeatCsv) (-1) None))
    by (vm_compute; reflexivity).
  assert (Hq : (1 ≤ length (parseCSV (λ _ _, randomZero) repeatCsv))%nat)
    by (vm_compute; lia).
  assert (Hsize : (2 ≤ size (playersOf repeatReadyDb "AB12"))%nat)
    by (vm_compute; lia).
  assert (Hp : playersOf repeatReadyDb "AB12" !! "ann"%string
               = Some (mkPlayerDoc "Ann" 0 false None None 6))
    by (vm_compute; reflexivity).
  assert (Hlen : (length repeatRounds
                  ≤ length (parseCSV (λ _ _, randomZero) repeatCsv))%nat)
    by (vm_compute; lia).
  assert (Htimes : Forall (λ r : list Submission * Z,
                             Forall (λ s, subTime s ≠ 0) r.1) repeatRounds).
  { unfold repeatRounds.
    repeat first [apply Forall_nil_2 | apply Forall_cons_2]; discriminate. }
  destruct (played_game_scores_add_up "AB12" "host" "ann" 1000000
              repeatReadyDb
              (mkGameDoc "AB12" "host" UPLOAD
                 (parseCSV (λ _ _, randomZero) repeatCsv) (-1) None)
              (mkPlayerDoc "Ann" 0 false None None 6) repeatRounds
              repeatReadyDb_Reachable Hcode Huid Hg (or_intror eq_refl)
              eq_refl Hq Hsize Hp eq_refl Hlen Htimes)
    as (p' & Hp' & Hs' & _).
  exists p'. split; [exact Hp'|]. rewrite Hs'. by vm_compute.
Defined.

(** The two rounds of the sample session, whose second question has
    another answer than the first: Ann ends with the 900 points of the
    first question, her correct answer to the second one earning
    nothing. *)
Example played_sample_rounds :
  score
    <$> playersOf
          (playRounds "AB12" "host"
             [ ([mkSubmission "ann" "Paris" 1006000], 1031000);
               ([mkSubmission "ann" "4" 1041000], 1062000) ]
             (startGame "AB12" "host" 1000000 readyDb, mountHostScreen)).1
          "AB12" !! "ann"%string
  = Some 900.
Proof. by vm_compute. Qed.

Section ScoreBounds.

Lemma roundPoints_range (q : Question) (start : option Z) (uid : string)
    (subs : list Submission) :
  0 ≤ roundPoints q start uid subs ≤ MAX_SCORE.
Proof.
  unfold roundPoints. destruct (firstAnswer q uid subs) as [s|];
    [|by vm_compute].
  destruct (bool_decide _); [|by vm_compute].
  match goal with
  | |- _ ≤ calculateScore ?rt ≤ _ =>
      pose proof (calculateScore_range rt) as [Hlo Hhi]
  end.
  split; [|exact Hhi]. etransitivity; [|exact Hlo]. by vm_compute.
Qed.

Lemma gamePoints_range (qs : list Question) (start : option Z)
    (uid : string) (rounds : list (list Submission * Z)) :
  0 ≤ gamePoints qs start uid rounds
    ≤ MAX_SCORE * (Z.of_nat (length rounds) + 1)
  ∧ (Forall (λ r, Forall (λ s, subTime s < r.2) r.1) rounds →
     gamePoints qs start uid rounds
     ≤ MAX_SCORE + MIN_SCORE * Z.of_nat (length rounds)).
Proof.
  unfold gamePoints.
  destruct rounds as [|r rounds].
  { simpl. unfold MAX_SCORE, MIN_SCORE. split; [lia|intros _; lia]. }
  destruct qs as [|q qs].
  { unfold MAX_SCORE, MIN_SCORE. split; [lia|intros _; lia]. }
  pose proof (roundPoints_range q start uid r.1) as [Hlo Hhi].
  destruct (carriedGamePoints_range uid (q :: qs) (r :: rounds))
    as [[Hlo' Hhi'] Hbefore].
  unfold MAX_SCORE, MIN_SCORE in *. split; [lia|].
  intros Hb. specialize (Hbefore Hb). lia.
Qed.

Lemma calculateScore_within (rt : Z) :
  0 ≤ rt ≤ 30000 → calculateScore (inject_Z rt) = (60030 - rt) / 60.
Proof.
  intros Hrt. rewrite calculateScore_nonneg
    by (change 0%Q with (inject_Z 0); rewrite <- Zle_Qle; lia).
  rewrite (Math_round_decay _ rt (timeRatio_within rt Hrt)).
  change MIN_SCORE with 500.
  apply Z.max_r, Z.div_le_lower_bound; lia.
Qed.

End ScoreBounds.

(** X26. The bounds of the final scores. In a game that is started from
    the lobby and played round by round on one host screen, the score of a
    player who is not the host lies between 0 and 1000 times the number of
    rounds played plus one: at most 1000 points for the first question and
    at most 1000 for every press of the host below a question. When every
    answer was given before the press that ended its round, a press adds
    500 points at most, so the score is at most 1000 plus 500 times the
    number of rounds. *)
Theorem played_game_score_bounds (code hostId uid : string) (start : Z)
    (db : Firestore) (g : GameDoc) (p : PlayerDoc)
    (rounds : list (list Submission * Z)) :
  Reachable db →
  code ≠ EmptyString → uid ≠ hostId →
  gameDocs db !! code = Some g →
  status g = LOBBY ∨ status g = UPLOAD →
  hostUserId g = hostId →
  (1 ≤ length (questions g))%nat →
  (2 ≤ size (playersOf db code))%nat →
  playersOf db code !! uid = Some p → isHost p = false →
  (length rounds ≤ length (questions g))%nat →
  Forall (λ r, Forall (λ s, subTime s ≠ 0) r.1) rounds →
  ∃ p', playersOf
          (playRounds code hostId rounds
             (startGame code hostId start db, mountHostScreen)).1 code
          !! uid = Some p'
        ∧ 0 ≤ score p' ≤ MAX_SCORE * (Z.of_nat (length rounds) + 1)
        ∧ (Forall (λ r, Forall (λ s, subTime s < r.2) r.1) rounds →
           score p' ≤ MAX_SCORE + MIN_SCORE * Z.of_nat (length rounds)).
Proof.
  intros Hreach Hcode Huid Hg Hst Hh Hq Hsize Hp Hhost Hlen Htimes.
  pose proof (proj1 (Reachable_wellFormed db Hreach) code g Hg)
    as (_ & Hnd & _).
  pose proof (proj1 (Reachable_answersNonEmpty db Hreach) code g Hg) as Hopts.
  assert (Hstart : startGame code hostId start db
                   = setGameDoc code (start_playing start g)
                       (updateAllPlayers code reset_for_start db))
    by by apply startGame_started.
  destruct (playRounds_score code hostId uid Hcode Huid rounds
              (startGame code hostId start db) mountHostScreen
              (start_playing start g) [] (questions g) (reset_for_start p))
    as (p' & Hp' & Hs' & _); try done.
  - rewrite Hstart, gameDocs_setGameDoc. by rewrite decide_True.
  - rewrite Hstart. unfold playersOf at 1, setGameDoc. cbn [playerDocs].
    fold (playersOf (updateAllPlayers code reset_for_start db) code).
    by rewrite playersOf_updateAllPlayers, lookup_fmap, Hp.
  - exists p'. split; [exact Hp'|].
    assert (Hscore : score p'
                     = gamePoints (questions g) (Some start) uid rounds).
    { rewrite Hs'. unfold gamePoints. cbn [score reset_for_start].
      destruct rounds as [|r rounds']; [simpl; lia|].
      destruct (questions g) as [|q qs]; [simpl in Hq; lia|].
      simpl. lia. }
    rewrite Hscore. apply gamePoints_range.
Qed.

Lemma played_game_score_bounds_witness :
  ∃ p', playersOf
          (playRounds "AB12" "host" repeatRounds
             (startGame "AB12" "host" 1000000 repeatReadyDb,
              mountHostScreen)).1
          "AB12" !! "ann"%string = Some p'
        ∧ 0 ≤ score p' ≤ MAX_SCORE * 3
        ∧ score p' ≤ MAX_SCORE + MIN_SCORE * 2.
Proof.
  assert (Hcode : "AB12"%string ≠ EmptyString) by discriminate.
  assert (Huid : "ann"%string ≠ "host"%string) by discriminate.
  assert (Hg : gameDocs repeatReadyDb !! "AB12"%string
               = Some (mkGameDoc "AB12" "host" UPLOAD
                         (parseCSV (λ _ _, randomZero) repeatCsv) (-1) None))
    by (vm_compute; reflexivity).
  assert (Hq : (1 ≤ length (parseCSV (λ _ _, randomZero) repeatCsv))%nat)
    by (vm_compute; lia).
  assert (Hsize : (2 ≤ size (playersOf repeatReadyDb "AB12"))%nat)
    by (vm_compute; lia).
  assert (Hp : playersOf repeatReadyDb "AB12" !! "ann"%string
               = Some (mkPlayerDoc "Ann" 0 false None None 6))
    by (vm_compute; reflexivity).
  assert (Hlen : (length repeatRounds
                  ≤ length (parseCSV (λ _ _, randomZero) repeatCsv))%nat)
    by (vm_compute; lia).
  assert (Htimes : Forall (λ r : list Submission * Z,
                             Forall (λ s, subTime s ≠ 0) r.1) repeatRounds).
  { unfold repeatRounds.
    repeat first [apply Forall_nil_2 | apply Forall_cons_2]; discriminate. }
  assert (Hbefore : Forall (λ r : list Submission * Z,
                              Forall (λ s, subTime s < r.2) r.1)
                      repeatRounds).
  { unfold repeatRounds.
    repeat first [apply Forall_nil_2 | apply Forall_cons_2]; simpl; lia. }
  destruct (played_game_score_bounds "AB12" "host" "ann" 1000000
              repeatReadyDb
              (mkGameDoc "AB12" "host" UPLOAD
                 (parseCSV (λ _ _, randomZero) repeatCsv) (-1) None)
              (mkPlayerDoc "Ann" 0 false None None 6) repeatRounds
              repeatReadyDb_Reachable Hcode Huid Hg (or_intror eq_refl)
              eq_refl Hq Hsize Hp eq_refl Hlen Htimes)
    as (p' & Hp' & Hrange & Hordered).
  exists p'. split; [exact Hp'|]. split; [exact Hrange|].
  exact (Hordered Hbefore).
Defined.

(** X27. What the countdown of the player screen says about the points:
    a correct answer given while the countdown shows [r] seconds earns at
    least [500 + 16 * (r - 1)] and at most [500 + 17 * r] points, and once
    the countdown has reached 0 it earns 500. *)
Theorem countdown_bounds_points (now start : Z) :
  start ≠ 0 → start ≤ now →
  let r := getRemainingTime now (Some start) in
  let points := calculateScore (inject_Z (now - start)) in
  500 + 16 * (r - 1) ≤ points ≤ 500 + 17 * r
  ∧ (r = 0 → points = 500).
Proof.
  intros Hs Hnow r points.
  assert (Hr : r = Z.max 0 (30 - (now - start) / 1000)).
  { unfold r, getRemainingTime; simpl.
    apply Z.eqb_neq in Hs. by rewrite Hs. }
  pose proof (div_1000_bounds (now - start)) as Hdiv.
  destruct (Z_lt_le_dec (now - start) 30000) as [Hin|Hout].
  - assert (Hp : points = (60030 - (now - start)) / 60)
      by (apply calculateScore_within; lia).
    pose proof (Z.mul_div_le (60030 - (now - start)) 60 ltac:(lia)) as Hlo.
    pose proof (Z.mul_succ_div_gt (60030 - (now - start)) 60 ltac:(lia))
      as Hhi.
    rewrite <- Hp in Hlo, Hhi. lia.
  - assert (Hp : points = 500) by (by apply calculateScore_late).
    lia.
Qed.

Lemma countdown_bounds_points_witness :
  500 + 16 * (getRemainingTime 1006000 (Some 1000000) - 1)
  ≤ calculateScore (inject_Z (1006000 - 1000000))
  ≤ 500 + 17 * getRemainingTime 1006000 (Some 1000000).
Proof.
  apply (countdown_bounds_points 1006000 1000000); lia.
Defined.

(** ** Games and their players *)

Section NoOrphans.

Implicit Types (db : Firestore) (code uid : string).

Lemma noOrphans_setPlayerDoc code uid p db :
  is_Some (gameDocs db !! code) →
  noOrphans db → noOrphans (setPlayerDoc code uid p db).
Proof.
  intros Hgame [Hhost Hplayer]. split.
  - intros c g. rewrite gameDocs_setPlayerDoc. intros Hg.
    destruct (decide (c = code)) as [->|Hne].
    + rewrite playersOf_setPlayerDoc. case_decide; [eauto|by eapply Hhost].
    + rewrite playersOf_setPlayerDoc_ne by done. by eapply Hhost.
  - intros c u p'. rewrite gameDocs_setPlayerDoc.
    destruct (decide (c = code)) as [->|Hne]; [done|].
    rewrite playersOf_setPlayerDoc_ne by done. apply Hplayer.
Qed.

Lemma noOrphans_updateGame code g g' db :
  gameDocs db !! code = Some g → hostUserId g' = hostUserId g →
  noOrphans db → noOrphans (setGameDoc code g' db).
Proof.
  intros Hg Hh [Hhost Hplayer]. split.
  - intros c g0. rewrite gameDocs_setGameDoc.
    change (playersOf (setGameDoc code g' db) c) with (playersOf db c).
    case_decide as Hc; [|apply Hhost].
    intros [= <-]. subst c. rewrite Hh. by eapply Hhost.
  - intros c u p.
    change (playersOf (setGameDoc code g' db) c) with (playersOf db c).
    intros Hp. rewrite gameDocs_setGameDoc. case_decide; [eauto|].
    by eapply Hplayer.
Qed.

Lemma noOrphans_updateAllPlayers code (f : PlayerDoc → PlayerDoc) db :
  noOrphans db → noOrphans (updateAllPlayers code f db).
Proof.
  intros [Hhost Hplayer]. split.
  - intros c g. rewrite gameDocs_updateAllPlayers. intros Hg.
    destruct (decide (c = code)) as [->|Hne].
    + rewrite playersOf_updateAllPlayers, lookup_fmap.
      destruct (Hhost code g Hg) as [p Hp]. rewrite Hp. simpl. eauto.
    + rewrite playersOf_updateAllPlayers_ne by done. by apply Hhost.
  - intros c u p. rewrite gameDocs_updateAllPlayers.
    destruct (decide (c = code)) as [->|Hne].
    + rewrite playersOf_updateAllPlayers, lookup_fmap.
      destruct (playersOf db code !! u) as [p0|] eqn:Hp0; [|done].
      intros _. by eapply Hplayer.
    + rewrite playersOf_updateAllPlayers_ne by done. apply Hplayer.
Qed.

Lemma Reachable_noOrphans db : Reachable db → noOrphans db.
Proof.
  induction 1 as [ | userId screenName fraction now db _ IH
                   | userId screenName code now db _ IH
                   | code userId random csvText db _ IH
                   | code userId topic random raw db _ IH
                   | code userId topic random raw rendered db _ _ _ IH
                   | code userId now db _ IH
                   | code userId answer now db _ IH
                   | code userId answer now rendered db _ _ _ IH
                   | code h db _ IH
                   | code userId now h db _ IH
                   | code userId db _ IH ].
  - split; [intros c g Hc | intros c u p Hc]; by rewrite ?lookup_empty in Hc.
  - destruct (handleCreateGame_cases userId screenName fraction now db)
      as [-> | (_ & _ & _ & ->)]; [done|]. cbn [fst].
    set (c := generateGameCode fraction).
    set (g0 := mkGameDoc c userId LOBBY [] (-1) None).
    set (p0 := mkPlayerDoc screenName 0 true None None now).
    destruct IH as [Hhost Hplayer]. split.
    + intros c' g. rewrite gameDocs_setPlayerDoc, gameDocs_setGameDoc.
      destruct (decide (c' = c)) as [->|Hne].
      * rewrite decide_True by done. intros [= <-].
        rewrite playersOf_setPlayerDoc. rewrite decide_True by done. eauto.
      * rewrite decide_False by done.
        rewrite playersOf_setPlayerDoc_ne by done. apply Hhost.
    + intros c' u p. rewrite gameDocs_setPlayerDoc, gameDocs_setGameDoc.
      destruct (decide (c' = c)) as [->|Hne].
      * rewrite decide_True by done. eauto.
      * rewrite decide_False by done.
        rewrite playersOf_setPlayerDoc_ne by done. apply Hplayer.
  - destruct (handleJoinGame_cases userId screenName code now db)
      as [-> | (g & Hg & _ & _ & _ & ->)]; [done|]. cbn [fst].
    apply noOrphans_setPlayerDoc; [by rewrite Hg|done].
  - destruct (uploadCSV_cases code userId random csvText db)
      as [-> | (g & Hg & _ & _ & _ & ->)]; [done|].
    by apply (noOrphans_updateGame code g).
  - destruct (uploadGenerated_cases code userId topic random raw db)
      as [-> | (g & Hg & _ & _ & _ & ->)]; [done|].
    by apply (noOrphans_updateGame code g).
  - destruct (generateAndSave_cases code userId topic random raw rendered db)
      as [-> | (gr & g & _ & _ & _ & Hg & _ & ->)]; [done|].
    by apply (noOrphans_updateGame code g).
  - destruct (startGame_cases code userId now db)
      as [-> | (g & Hg & _ & _ & _ & _ & ->)]; [done|].
    apply (noOrphans_updateGame code g);
      [by rewrite gameDocs_updateAllPlayers|done|].
    by apply noOrphans_updateAllPlayers.
  - destruct (submitAnswer_cases code userId answer now db)
      as [-> | (g & q & p & Hg & _ & _ & _ & _ & _ & _ & ->)]; [done|].
    apply noOrphans_setPlayerDoc; [by rewrite Hg|done].
  - destruct (pressAnswer_cases code userId answer now rendered db)
      as [-> | (g & q & pr & p & _ & _ & _ & _ & _ & _ & _ & Hp & ->)];
      [done|].
    apply noOrphans_setPlayerDoc; [|done].
    by apply (proj2 IH code userId p).
  - destruct (scoringEffect_cases code db h)
      as [-> | (g & q & _ & _ & _ & _ & ->)]; [done|]. cbn [fst].
    by apply noOrphans_updateAllPlayers.
  - destruct (advance_cases code userId now db h)
      as [-> | (g & Hg & _ & _ & _ & _ & [[_ ->] | [_ ->]])];
      [done| |]; cbn [fst].
    + apply noOrphans_updateAllPlayers.
      assert (Hwrite : noOrphans
                (setGameDoc code
                   (set_question (currentQuestionIndex g + 1) now g) db))
        by by apply (noOrphans_updateGame code g).
      destruct (scoringEffect_cases code
                  (setGameDoc code
                     (set_question (currentQuestionIndex g + 1) now g) db) h)
        as [-> | (g' & q & _ & _ & _ & _ & ->)]; [done|]. cbn [fst].
      by apply noOrphans_updateAllPlayers.
    + by apply (noOrphans_updateGame code g).
  - destruct (endGame_cases code userId db)
      as [-> | (g & _ & _ & _ & ->)]; [done|].
    destruct IH as [Hhost Hplayer]. split.
    + intros c g'. cbn [gameDocs]. intros [Hne Hg']%lookup_delete_Some.
      unfold playersOf. cbn [playerDocs]. rewrite lookup_delete_ne by done.
      by apply Hhost.
    + intros c u p. unfold playersOf. cbn [playerDocs gameDocs].
      destruct (decide (c = code)) as [->|Hne].
      * by rewrite lookup_delete_eq.
      * rewrite !lookup_delete_ne by done. apply Hplayer.
Qed.

End NoOrphans.

(** X28. Games and player documents belong together in every database
    the clients can reach: the host of a game has a player document in
    it, so that the players array of a game is never empty, and a player
    document lies in a game that exists: closing a room leaves no player
    document behind. *)
Theorem reachable_no_orphans (db : Firestore) (code : string) :
  Reachable db →
  (∀ g, gameDocs db !! code = Some g →
     is_Some (playersOf db code !! hostUserId g)
     ∧ (1 ≤ length (playersSnapshot db code))%nat)
  ∧ (∀ uid p, playersOf db code !! uid = Some p →
       is_Some (gameDocs db !! code)).
Proof.
  intros [Hhost Hplayer]%Reachable_noOrphans. split.
  - intros g Hg. destruct (Hhost code g Hg) as [p Hp]. split; [eauto|].
    rewrite length_playersSnapshot.
    destruct (decide (size (playersOf db code) = 0%nat)) as [Hz|Hz]; [|lia].
    apply map_size_empty_iff in Hz. by rewrite Hz, lookup_empty in Hp.
  - intros uid p. apply Hplayer.
Qed.

Lemma reachable_no_orphans_witness :
  is_Some (playersOf playedDb "AB12" !! "host"%string).
Proof.
  destruct (reachable_no_orphans playedDb "AB12" playedDb_Reachable)
    as [Hhost _].
  assert (Hg : gameDocs playedDb !! "AB12"%string
               = Some (mkGameDoc "AB12" "host" PLAYING
                         (parseCSV (λ _ _, randomZero) sampleCsv) 0
                         (Some 1000000)))
    by (vm_compute; reflexivity).
  exact (proj1 (Hhost _ Hg)).
Defined.
